(** * Telephasma: the scan store and the panels around it

    A shallow embedding of [frontend/src/store/useStore.ts] (the zustand
    store: [startScan], [stopScan], [addLog], [setScanQueue] and the
    update engine [processScanUpdate]), of
    [frontend/src/components/Scanner.tsx] (the queue sequencing of
    [startScanForId] and [ws.onclose], the stop button, the stream's
    messages, the table with its counters and its dropdown) and of the
    parts of [Discovery.tsx], [ResultsPanel.tsx] and [NetworkGraph.tsx]
    that write the store's queue or read its view, followed by the
    properties of the relationship-graph engine that the specification
    states, and by further properties of the same code. *)

From Stdlib Require Import List String Ascii NArith ZArith QArith Bool Lia.
From Stdlib Require Import DecimalString DecimalZ.
From Stdlib Require Import Sorting.Sorted Sorting.Permutation.
Import ListNotations.

Local Open Scope string_scope.
Local Open Scope Z_scope.

(** ** JavaScript values as the store uses them *)

Module Js.

(** An optional string property.  [None] stands for a property that is
    absent, [undefined] or [null]: the store only ever tests such
    properties for truthiness, and all three are falsy. *)
Definition truthy (o : option string) : bool :=
  match o with
  | Some s => negb (String.eqb s "")
  | None => false
  end.

(** [a || d] on an optional string with a string default. *)
Definition or_else (o : option string) (d : string) : string :=
  match o with
  | Some s => if String.eqb s "" then d else s
  | None => d
  end.

(** [a || null] on an optional string. *)
Definition or_null (o : option string) : option string :=
  if truthy o then o else None.

(** Truthiness of an optional boolean flag ([isTarget]). *)
Definition truthy_flag (o : option bool) : bool :=
  match o with
  | Some b => b
  | None => false
  end.

(** A numeric property of a message, as [JSON.parse] gives it: the
    property is missing (reading it gives [undefined]), it is [null], or
    it is a number.  The numbers are the integers that a double holds
    exactly, which is what the ids and the counts of a scan are. *)
Inductive num : Type :=
| undefined
| null
| number (z : Z).

(** Truthiness of such a property ([sender_id]). *)
Definition truthy_num (o : num) : bool :=
  match o with
  | number z => negb (z =? 0)
  | _ => false
  end.

(** [n || d] on the count of a link, which the store writes as a number
    or leaves out. *)
Definition num_or (o : option Z) (d : Z) : Z :=
  match o with
  | Some z => if z =? 0 then d else z
  | None => d
  end.

(** Decimal rendering of an integer, as a template literal does it for a
    number below 10^21 in magnitude. *)
Definition num_str (z : Z) : string := NilZero.string_of_int (Z.to_int z).

(** [`${x}`] for a numeric property: a missing one renders as the text
    "undefined", a [null] one as "null". *)
Definition str (o : num) : string :=
  match o with
  | number z => num_str z
  | null => "null"
  | undefined => "undefined"
  end.

(** [s.startsWith(p)]. *)
Definition startsWith (p s : string) : bool := String.prefix p s.

End Js.

(** ** Insertion-ordered maps ([Map] of JavaScript)

    A [Map] iterates in insertion order, and [set] on a key that is already
    present replaces the value where it stands.  Mutating the object returned
    by [get] is the same as [set] of the mutated object on that key. *)

Module JsMap.

Definition t (V : Type) : Type := list (string * V).

Fixpoint get {V} (k : string) (m : t V) : option V :=
  match m with
  | [] => None
  | (k', v) :: m' => if String.eqb k k' then Some v else get k m'
  end.

Definition has {V} (k : string) (m : t V) : bool :=
  match get k m with
  | Some _ => true
  | None => false
  end.

Fixpoint set {V} (k : string) (v : V) (m : t V) : t V :=
  match m with
  | [] => [(k, v)]
  | (k', v') :: m' =>
      if String.eqb k k' then (k, v) :: m' else (k', v') :: set k v m'
  end.

(** [new Map(entries)]. *)
Definition of_entries {V} (es : list (string * V)) : t V :=
  fold_left (fun m e => set (fst e) (snd e) m) es [].

(** [Array.from(m.values())]. *)
Definition values {V} (m : t V) : list V := map snd m.

Definition keys {V} (m : t V) : list string := map fst m.

(** In-place mutation of the object stored under [k], if any. *)
Definition adjust {V} (f : V -> V) (k : string) (m : t V) : t V :=
  match get k m with
  | Some v => set k (f v) m
  | None => m
  end.

(** Every value is stored under the key computed from it. *)
Definition keyed {V} (key : V -> string) (m : t V) : Prop :=
  Forall (fun e => fst e = key (snd e)) m.

End JsMap.

(** ** The store's types *)

Module GraphNode.
Record t : Type := mk {
  id : string;
  label : string;
  group : string;
  val : Q;
  title : option string;
  color : option string;
  isTarget : option bool;
  discoveredFrom : option string
}.

Definition with_label (x : string) (n : t) : t :=
  mk (id n) x (group n) (val n) (title n) (color n) (isTarget n)
     (discoveredFrom n).
Definition with_group (x : string) (n : t) : t :=
  mk (id n) (label n) x (val n) (title n) (color n) (isTarget n)
     (discoveredFrom n).
Definition with_title (x : option string) (n : t) : t :=
  mk (id n) (label n) (group n) (val n) x (color n) (isTarget n)
     (discoveredFrom n).
Definition with_isTarget (x : option bool) (n : t) : t :=
  mk (id n) (label n) (group n) (val n) (title n) (color n) x
     (discoveredFrom n).
Definition with_discoveredFrom (x : option string) (n : t) : t :=
  mk (id n) (label n) (group n) (val n) (title n) (color n) (isTarget n) x.
End GraphNode.

Module GraphLink.
Record t : Type := mk {
  source : string;
  target : string;
  value : option Z;
  label : option string
}.
End GraphLink.

Inductive SourceType : Type := target | gifter | discovered.

Module GiftRef.
(** [{ userId, label, count }] *)
Record t : Type := mk {
  userId : string;
  label : string;
  count : Z
}.
End GiftRef.

Module ParsedUser.
(** [commonGroupCount] is never written by the store and is left out. *)
Record t : Type := mk {
  id : string;
  label : string;
  bio : option string;
  channels : list string;
  sourceType : SourceType;
  depth : Z;
  giftsSentTo : list GiftRef.t;
  giftsReceivedFrom : list GiftRef.t;
  totalGiftsSent : Z;
  totalGiftsReceived : Z;
  discoveredFrom : option string
}.

Definition push_channel (c : string) (u : t) : t :=
  mk (id u) (label u) (bio u) (channels u ++ [c]) (sourceType u) (depth u)
     (giftsSentTo u) (giftsReceivedFrom u) (totalGiftsSent u)
     (totalGiftsReceived u) (discoveredFrom u).

(** [u.giftsSentTo.push(g); u.totalGiftsSent += g.count] *)
Definition push_sent (g : GiftRef.t) (u : t) : t :=
  mk (id u) (label u) (bio u) (channels u) (sourceType u) (depth u)
     (giftsSentTo u ++ [g]) (giftsReceivedFrom u)
     (totalGiftsSent u + GiftRef.count g)
     (totalGiftsReceived u) (discoveredFrom u).

(** [u.giftsReceivedFrom.push(g); u.totalGiftsReceived += g.count] *)
Definition push_received (g : GiftRef.t) (u : t) : t :=
  mk (id u) (label u) (bio u) (channels u) (sourceType u) (depth u)
     (giftsSentTo u) (giftsReceivedFrom u ++ [g]) (totalGiftsSent u)
     (totalGiftsReceived u + GiftRef.count g) (discoveredFrom u).

(** [if (u.sourceType === 'discovered') u.sourceType = 'gifter'] *)
Definition promote (u : t) : t :=
  match sourceType u with
  | discovered =>
      mk (id u) (label u) (bio u) (channels u) gifter (depth u)
         (giftsSentTo u) (giftsReceivedFrom u) (totalGiftsSent u)
         (totalGiftsReceived u) (discoveredFrom u)
  | _ => u
  end.
End ParsedUser.

(** ** Events

    The payload of a [user_found] / [user_detail] message. *)
Module UserData.
Record t : Type := mk {
  id : Js.num;
  username : option string;
  first_name : option string;
  bio : option string;
  depth : option Z;
  type : option string;
  channel_links : option (list string);
  discovered_from : option string
}.
End UserData.

Module ResolvedUser.
Record t : Type := mk {
  username : option string;
  first_name : option string
}.
End ResolvedUser.

Module Gift.
(** Only [sender_id] is read by the store. *)
Record t : Type := mk {
  sender_id : Js.num
}.
End Gift.

Module GiftsData.
(** [resolved_users] is a JSON object: its properties are keyed by the
    decimal text of the sender id. *)
Record t : Type := mk {
  user_id : Js.num;
  gifts : list Gift.t;
  resolved_users : option (JsMap.t ResolvedUser.t)
}.
End GiftsData.

(** [update.type] selects the branch; any other type runs none of them. *)
Inductive Update : Type :=
| log (message : string)
| user_found (data : UserData.t)
| user_detail (data : UserData.t)
| user_gifts (data : GiftsData.t)
| other_type (type : string).

(** ** The store *)

Module GraphData.
Record t : Type := mk {
  nodes : list GraphNode.t;
  links : list GraphLink.t
}.
End GraphData.

Module AppState.
(** The fields of the zustand state that the scan actions read or write
    (authentication, tab, language and node positions are not touched by
    them). *)
Record t : Type := mk {
  scanQueue : list string;
  customScanTargets : list string;
  scanTargetChatId : string;
  isScanning : bool;
  scannedUsers : list UserData.t;
  graphData : GraphData.t;
  parsedUsers : list ParsedUser.t;
  logs : list string
}.
End AppState.

Definition emptyGraph : GraphData.t := GraphData.mk [] [].

(** The store as [create] builds it. *)
Definition initialState : AppState.t :=
  AppState.mk [] [] "" false [] emptyGraph [] [].

Definition startScan (s : AppState.t) : AppState.t :=
  AppState.mk (AppState.scanQueue s) (AppState.customScanTargets s)
    (AppState.scanTargetChatId s) true [] emptyGraph [] ["SCAN_INITIATED"].

Definition stopScan (s : AppState.t) : AppState.t :=
  AppState.mk (AppState.scanQueue s) (AppState.customScanTargets s)
    (AppState.scanTargetChatId s) false (AppState.scannedUsers s)
    (AppState.graphData s) (AppState.parsedUsers s)
    (AppState.logs s ++ ["SCAN_HALTED"]).

Definition addLog (msg : string) (s : AppState.t) : AppState.t :=
  AppState.mk (AppState.scanQueue s) (AppState.customScanTargets s)
    (AppState.scanTargetChatId s) (AppState.isScanning s)
    (AppState.scannedUsers s) (AppState.graphData s) (AppState.parsedUsers s)
    (AppState.logs s ++ [msg]).

Definition setScanQueue (queue : list string) (s : AppState.t) : AppState.t :=
  AppState.mk queue (AppState.customScanTargets s)
    (AppState.scanTargetChatId s) (AppState.isScanning s)
    (AppState.scannedUsers s) (AppState.graphData s) (AppState.parsedUsers s)
    (AppState.logs s).

(** [setSettings({ scanTargetChatId: chatId })] *)
Definition setScanTargetChatId (chatId : string) (s : AppState.t)
  : AppState.t :=
  AppState.mk (AppState.scanQueue s) (AppState.customScanTargets s)
    chatId (AppState.isScanning s)
    (AppState.scannedUsers s) (AppState.graphData s) (AppState.parsedUsers s)
    (AppState.logs s).

(** [setSettings({ customScanTargets: targets })] *)
Definition setCustomScanTargets (targets : list string) (s : AppState.t)
  : AppState.t :=
  AppState.mk (AppState.scanQueue s) targets
    (AppState.scanTargetChatId s) (AppState.isScanning s)
    (AppState.scannedUsers s) (AppState.graphData s) (AppState.parsedUsers s)
    (AppState.logs s).

(** ** The update engine, [processScanUpdate] *)

(** [`${s}-${t}`] *)
Definition link_key (s t : string) : string := s ++ "-" ++ t.

(** The key of a stored link.  The store reads [l.source] and [l.target]
    through a [typeof ... === 'string'] test, for links whose ends a graph
    library has replaced by node objects; the links the store itself writes
    hold the two ids as strings, which is what [GraphLink] declares. *)
Definition linkKey (l : GraphLink.t) : string :=
  link_key (GraphLink.source l) (GraphLink.target l).

(** [`u_${id}`], [`c_${clink}`] and the placeholder label [`U_${id}`]. *)

Definition user_id_of (i : Js.num) : string := "u_" ++ Js.str i.
Definition channel_id_of (clink : string) : string := "c_" ++ clink.
Definition placeholder (i : Js.num) : string := "U_" ++ Js.str i.

(** The label computed from a [user_found] / [user_detail] payload. *)
Definition data_label (data : UserData.t) : string :=
  match UserData.username data with
  | Some u =>
      if String.eqb u "" then Js.or_else (UserData.first_name data)
                        (placeholder (UserData.id data))
      else "@" ++ u
  | None => Js.or_else (UserData.first_name data)
              (placeholder (UserData.id data))
  end.

(** The branch taken when the account node already exists. *)
Definition merge_existing (data : UserData.t) (node : GraphNode.t)
  : GraphNode.t :=
  let discoveredFrom := Js.or_null (UserData.discovered_from data) in
  let node :=
    if Js.truthy (UserData.username data)
    then GraphNode.with_label (data_label data) node else node in
  let node :=
    match UserData.type data with
    | Some ty => if String.eqb ty "" then node else GraphNode.with_group ty node
    | None => node
    end in
  let node :=
    if Js.truthy (UserData.bio data)
    then GraphNode.with_title (UserData.bio data) node else node in
  let node :=
    if negb (Js.truthy_flag (GraphNode.isTarget node))
       && negb (Js.truthy (UserData.discovered_from data))
    then GraphNode.with_isTarget (Some true) node else node in
  if Js.truthy discoveredFrom
     && negb (Js.truthy (GraphNode.discoveredFrom node))
  then GraphNode.with_discoveredFrom discoveredFrom node else node.

(** The node created when the account is seen for the first time. *)
Definition new_account (data : UserData.t) : GraphNode.t :=
  GraphNode.mk (user_id_of (UserData.id data)) (data_label data)
    (Js.or_else (UserData.type data) "member")
    (match UserData.depth data with
     | Some 0%Z => 8%Q
     | _ => 4.5%Q
     end)
    (Some (Js.or_else (UserData.bio data) ""))
    None
    (Some (negb (Js.truthy (UserData.discovered_from data))))
    (Js.or_null (UserData.discovered_from data)).

Definition observe_account (data : UserData.t)
  (nodeMap : JsMap.t GraphNode.t) : JsMap.t GraphNode.t :=
  let uid := user_id_of (UserData.id data) in
  match JsMap.get uid nodeMap with
  | Some node => JsMap.set uid (merge_existing data node) nodeMap
  | None => JsMap.set uid (new_account data) nodeMap
  end.

Definition channel_node (clink : string) : GraphNode.t :=
  GraphNode.mk (channel_id_of clink) ("@" ++ clink) "channel" 6%Q
    None None None None.

(** One turn of [data.channel_links.forEach]. *)
Definition link_channel (uid : string)
  (maps : JsMap.t GraphNode.t * JsMap.t GraphLink.t) (clink : string)
  : JsMap.t GraphNode.t * JsMap.t GraphLink.t :=
  let '(nodeMap, linkMap) := maps in
  let cid := channel_id_of clink in
  let nodeMap :=
    if negb (JsMap.has cid nodeMap)
    then JsMap.set cid (channel_node clink) nodeMap else nodeMap in
  let lkey := link_key uid cid in
  let linkMap :=
    if negb (JsMap.has lkey linkMap)
    then JsMap.set lkey (GraphLink.mk uid cid (Some 1) None) linkMap
    else linkMap in
  (nodeMap, linkMap).

(** [resolved_users?.[g.sender_id]] *)
Definition resolved_sender (resolved_users : option (JsMap.t ResolvedUser.t))
  (sender_id : Js.num) : option ResolvedUser.t :=
  match resolved_users with
  | Some r => JsMap.get (Js.str sender_id) r
  | None => None
  end.

(** The label a resolved sender gives, if it gives one. *)
Definition resolved_label (r : ResolvedUser.t) : option string :=
  if Js.truthy (ResolvedUser.username r)
  then Some ("@" ++ Js.or_else (ResolvedUser.username r) "")
  else if Js.truthy (ResolvedUser.first_name r)
       then ResolvedUser.first_name r
       else None.

Definition new_sender (srcId : string) (sender_id : Js.num)
  (resolvedSender : option ResolvedUser.t) : GraphNode.t :=
  let senderLabel :=
    match resolvedSender with
    | Some r =>
        match resolved_label r with
        | Some l => l
        | None => placeholder sender_id
        end
    | None => placeholder sender_id
    end in
  GraphNode.mk srcId senderLabel "potential_gifter" 3%Q None None None None.

Definition upgrade_sender (existingNode : GraphNode.t)
  (resolvedSender : option ResolvedUser.t) : GraphNode.t :=
  match resolvedSender with
  | Some r =>
      if Js.startsWith "U_" (GraphNode.label existingNode)
      then match resolved_label r with
           | Some l => GraphNode.with_label l existingNode
           | None => existingNode
           end
      else existingNode
  | None => existingNode
  end.

(** [`${l.value} GIFTS`] *)
Definition gifts_label (v : Z) : string := Js.num_str v ++ " GIFTS".

(** One turn of [gifts.forEach]. *)
Definition observe_gift (targetId : string)
  (resolved_users : option (JsMap.t ResolvedUser.t))
  (maps : JsMap.t GraphNode.t * JsMap.t GraphLink.t) (g : Gift.t)
  : JsMap.t GraphNode.t * JsMap.t GraphLink.t :=
  let '(nodeMap, linkMap) := maps in
  if negb (Js.truthy_num (Gift.sender_id g)) then (nodeMap, linkMap)
  else
    let srcId := user_id_of (Gift.sender_id g) in
    let resolvedSender := resolved_sender resolved_users (Gift.sender_id g) in
    let nodeMap :=
      match JsMap.get srcId nodeMap with
      | None =>
          JsMap.set srcId (new_sender srcId (Gift.sender_id g) resolvedSender)
            nodeMap
      | Some existingNode =>
          JsMap.set srcId (upgrade_sender existingNode resolvedSender) nodeMap
      end in
    let lkey := link_key srcId targetId in
    let linkMap :=
      match JsMap.get lkey linkMap with
      | Some l =>
          let v := Js.num_or (GraphLink.value l) 0 + 1 in
          JsMap.set lkey
            (GraphLink.mk (GraphLink.source l) (GraphLink.target l) (Some v)
               (Some (gifts_label v)))
            linkMap
      | None =>
          JsMap.set lkey (GraphLink.mk srcId targetId (Some 1) (Some "1 GIFT"))
            linkMap
      end in
    (nodeMap, linkMap).

(** The three event branches, on the working copies of the two maps. *)
Definition apply_update (update : Update)
  (maps : JsMap.t GraphNode.t * JsMap.t GraphLink.t)
  : JsMap.t GraphNode.t * JsMap.t GraphLink.t :=
  match update with
  | user_found data => (observe_account data (fst maps), snd maps)
  | user_detail data =>
      let nodeMap := observe_account data (fst maps) in
      match UserData.channel_links data with
      | Some links =>
          fold_left (link_channel (user_id_of (UserData.id data))) links
            (nodeMap, snd maps)
      | None => (nodeMap, snd maps)
      end
  | user_gifts d =>
      fold_left
        (observe_gift (user_id_of (GiftsData.user_id d))
           (GiftsData.resolved_users d))
        (GiftsData.gifts d) maps
  | _ => maps
  end.

(** *** The projection ("ParsedUser generation") *)

Definition pool_entry (n : GraphNode.t) : ParsedUser.t :=
  ParsedUser.mk (GraphNode.id n) (GraphNode.label n) (GraphNode.title n) []
    (if Js.truthy_flag (GraphNode.isTarget n) then target else discovered)
    0 [] [] 0 0 (GraphNode.discoveredFrom n).

(** One turn of [finalNodes.forEach]. *)
Definition pool_add (userPool : JsMap.t ParsedUser.t) (n : GraphNode.t)
  : JsMap.t ParsedUser.t :=
  if String.eqb (GraphNode.group n) "channel" then userPool
  else JsMap.set (GraphNode.id n) (pool_entry n) userPool.

(** One turn of [finalLinks.forEach].  [sender] and [receiver] are the same
    object when a link goes from an account to itself, so the writes are
    applied one after the other on the pool. *)
Definition pool_link (nodeMap : JsMap.t GraphNode.t)
  (userPool : JsMap.t ParsedUser.t) (l : GraphLink.t)
  : JsMap.t ParsedUser.t :=
  let s := GraphLink.source l in
  let t := GraphLink.target l in
  match JsMap.get s userPool, JsMap.get t userPool with
  | Some sender, receiver =>
      if Js.startsWith "c_" t then
        match JsMap.get t nodeMap with
        | Some chNode =>
            JsMap.adjust (ParsedUser.push_channel (GraphNode.label chNode)) s
              userPool
        | None => userPool
        end
      else
        match receiver with
        | Some receiver =>
            let count := Js.num_or (GraphLink.value l) 1 in
            let userPool :=
              JsMap.adjust
                (ParsedUser.push_sent
                   (GiftRef.mk t (ParsedUser.label receiver) count))
                s userPool in
            let userPool :=
              JsMap.adjust
                (ParsedUser.push_received
                   (GiftRef.mk s (ParsedUser.label sender) count))
                t userPool in
            JsMap.adjust ParsedUser.promote s userPool
        | None => userPool
        end
  | None, _ => userPool
  end.

Definition project (nodeMap : JsMap.t GraphNode.t)
  (linkMap : JsMap.t GraphLink.t) : list ParsedUser.t :=
  let finalNodes := JsMap.values nodeMap in
  let finalLinks := JsMap.values linkMap in
  let userPool := fold_left pool_add finalNodes [] in
  let userPool := fold_left (pool_link nodeMap) finalLinks userPool in
  JsMap.values userPool.

Definition nodeMap_of (g : GraphData.t) : JsMap.t GraphNode.t :=
  JsMap.of_entries (map (fun n => (GraphNode.id n, n)) (GraphData.nodes g)).

Definition linkMap_of (g : GraphData.t) : JsMap.t GraphLink.t :=
  JsMap.of_entries (map (fun l => (linkKey l, l)) (GraphData.links g)).

Definition processScanUpdate (update : Update) (state : AppState.t)
  : AppState.t :=
  let nodeMap := nodeMap_of (AppState.graphData state) in
  let linkMap := linkMap_of (AppState.graphData state) in
  let logs := AppState.logs state in
  match update with
  | log message =>
      AppState.mk (AppState.scanQueue state)
        (AppState.customScanTargets state) (AppState.scanTargetChatId state)
        (AppState.isScanning state) (AppState.scannedUsers state)
        (AppState.graphData state) (AppState.parsedUsers state)
        (logs ++ [message])
  | _ =>
      let '(nodeMap, linkMap) := apply_update update (nodeMap, linkMap) in
      AppState.mk (AppState.scanQueue state)
        (AppState.customScanTargets state) (AppState.scanTargetChatId state)
        (AppState.isScanning state) (AppState.scannedUsers state)
        (GraphData.mk (JsMap.values nodeMap) (JsMap.values linkMap))
        (project nodeMap linkMap)
        logs
  end.

(** ** Events that arrive without their payload

    [processScanUpdate] is called on whatever [JSON.parse] produced.  The
    events of [Update] carry a payload of the declared shape.  An event of
    one of the three types whose branch reads [update.data] may also arrive
    with no [data] at all (missing, or [null]): [data.id], or the
    destructuring of [update.data], then throws a [TypeError].  This is
    the first thing the branch does, and the one [set] of the function
    comes last, so the store is untouched when the exception leaves the
    call. *)

Module Raw.

Inductive DataType : Type := of_user_found | of_user_detail | of_user_gifts.

Inductive Event : Type :=
| with_data (u : Update)
| without_data (type : DataType).

(** How a call ends, and the store it leaves behind. *)
Inductive Outcome : Type :=
| returned (store : AppState.t)
| TypeError (store : AppState.t).

Definition store_after (o : Outcome) : AppState.t :=
  match o with
  | returned store | TypeError store => store
  end.

Definition processScanUpdate (update : Event) (state : AppState.t)
  : Outcome :=
  match update with
  | with_data u => returned (processScanUpdate u state)
  | without_data _ => TypeError state
  end.

End Raw.

(** ** The queue driver of [Scanner.tsx]

    Opening the WebSocket and arming the timer are input/output; what is
    modelled is what each callback does to the store. *)

Module Scanner.

(** [const [autoProcess] = useState(true)]: never set afterwards. *)
Definition autoProcess : bool := true.

(** [ws.onmessage]: [complete] and [error] are handled here, every other
    message goes to the update engine. *)
Definition onmessage_complete (chatId : string) (s : AppState.t)
  : AppState.t :=
  addLog ("Scan complete for " ++ chatId ++ ".") s.

(** [startScanForId] is a closure of the render that defined it, and the
    one thing of the state it reads from that render is
    [customScanTargets].  The callbacks of a socket belong to the call
    that opened it: the start that the close timer makes is a call of the
    same closure, with the same list, whatever the store holds by then. *)
Section Closure.
Variable customScanTargets : list string.

(** The message logged on connecting. *)
Definition connecting_message (chatId : string) : string :=
  if String.eqb chatId "custom"
  then "Connecting to scan "
       ++ Js.num_str (Z.of_nat (List.length customScanTargets))
       ++ " selected users..."
  else "Connecting to " ++ chatId ++ "...".

(** The store writes of [startScanForId], up to [new WebSocket]. *)
Definition startScanForId (chatId : string) (s : AppState.t) : AppState.t :=
  if String.eqb chatId "" then s
  else
    let s := setScanTargetChatId chatId s in
    let s := startScan s in
    addLog (connecting_message chatId) s.

(** The callback armed by [ws.onclose] when the scan was not stopped by
    hand: the transition to the next queued target. *)
Definition onclose_timer (s : AppState.t) : AppState.t :=
  if negb (AppState.isScanning s) then s
  else
    match AppState.scanQueue s with
    | nextId :: nextQueue =>
        if autoProcess
        then
          let s := setScanQueue nextQueue s in
          if String.eqb nextId "" then s else startScanForId nextId s
        else addLog "Scan stopped." (stopScan s)
    | [] => addLog "Scan stopped." (stopScan s)
    end.

(** [ws.onclose] *)
Definition onclose (s : AppState.t) : AppState.t :=
  if negb (AppState.isScanning s)
  then addLog "Scan stopped immediately." s
  else onclose_timer s.

(** A stream that completes: the [complete] message closes the socket,
    and the close callback moves on. *)
Definition stream_complete (chatId : string) (s : AppState.t)
  : AppState.t :=
  onclose (onmessage_complete chatId s).

End Closure.

(** The effect hook that starts the first queued target.  It runs after
    the render that saw the queue change, with the closure of that
    render: [customScanTargets] is the list of the store. *)
Definition autostart (s : AppState.t) : AppState.t :=
  match AppState.scanQueue s with
  | nextId :: nextQueue =>
      if negb (AppState.isScanning s) && autoProcess
      then if String.eqb nextId "" then s
           else startScanForId (AppState.customScanTargets s) nextId
                  (setScanQueue nextQueue s)
      else s
  | [] => s
  end.

End Scanner.

(** ** Vocabulary of the statements *)

(** Both working maps store every object under its own key, once each. *)
Definition maps_ok (maps : JsMap.t GraphNode.t * JsMap.t GraphLink.t) : Prop :=
  (JsMap.keyed GraphNode.id (fst maps) /\ NoDup (JsMap.keys (fst maps)))
  /\ (JsMap.keyed linkKey (snd maps) /\ NoDup (JsMap.keys (snd maps))).

(** The two working copies [processScanUpdate] starts from. *)
Definition working_maps (s : AppState.t)
  : JsMap.t GraphNode.t * JsMap.t GraphLink.t :=
  (nodeMap_of (AppState.graphData s), linkMap_of (AppState.graphData s)).

(** The final [set] of [processScanUpdate]. *)
Definition commit (s : AppState.t)
  (maps : JsMap.t GraphNode.t * JsMap.t GraphLink.t) : AppState.t :=
  AppState.mk (AppState.scanQueue s) (AppState.customScanTargets s)
    (AppState.scanTargetChatId s) (AppState.isScanning s)
    (AppState.scannedUsers s)
    (GraphData.mk (JsMap.values (fst maps)) (JsMap.values (snd maps)))
    (project (fst maps) (snd maps))
    (AppState.logs s).

(** The view of a graph snapshot. *)
Definition view (g : GraphData.t) : list ParsedUser.t :=
  project (nodeMap_of g) (linkMap_of g).

(** The node stored under an id, the record emitted for it, and the links
    between two ids. *)
Definition node_of (s : AppState.t) (k : string) : option GraphNode.t :=
  JsMap.get k (nodeMap_of (AppState.graphData s)).

Definition record_of (s : AppState.t) (k : string) : option ParsedUser.t :=
  find (fun r => String.eqb (ParsedUser.id r) k) (AppState.parsedUsers s).

Definition links_between (s : AppState.t) (src tgt : string)
  : list GraphLink.t :=
  filter (fun l => String.eqb (GraphLink.source l) src
                   && String.eqb (GraphLink.target l) tgt)
    (GraphData.links (AppState.graphData s)).

Definition nodes_with_id (s : AppState.t) (k : string) : list GraphNode.t :=
  filter (fun n => String.eqb (GraphNode.id n) k)
    (GraphData.nodes (AppState.graphData s)).

(** A run of updates, in arrival order. *)
Definition processAll (us : list Update) (s : AppState.t) : AppState.t :=
  fold_left (fun s u => processScanUpdate u s) us s.

Definition is_channel (n : GraphNode.t) : bool :=
  String.eqb (GraphNode.group n) "channel".

(** The label of the record emitted for an id, if one is emitted. *)
Definition account_label (nodeMap : JsMap.t GraphNode.t) (k : string)
  : option string :=
  match JsMap.get k nodeMap with
  | Some n => if is_channel n then None else Some (GraphNode.label n)
  | None => None
  end.

(** The labels of the records of a pool, by id. *)
Definition pool_labels (userPool : JsMap.t ParsedUser.t) (k : string)
  : option string :=
  option_map ParsedUser.label (JsMap.get k userPool).

(** What one link does to the record stored under [k], given which ids
    have records ([lbl] gives their labels). *)
Definition link_effect (nodeMap : JsMap.t GraphNode.t)
  (lbl : string -> option string) (k : string)
  (r : ParsedUser.t) (l : GraphLink.t) : ParsedUser.t :=
  let s := GraphLink.source l in
  let t := GraphLink.target l in
  match lbl s with
  | None => r
  | Some slabel =>
      if Js.startsWith "c_" t then
        match JsMap.get t nodeMap with
        | Some chNode =>
            if String.eqb k s
            then ParsedUser.push_channel (GraphNode.label chNode) r else r
        | None => r
        end
      else
        match lbl t with
        | None => r
        | Some tlabel =>
            let count := Js.num_or (GraphLink.value l) 1 in
            let r :=
              if String.eqb k s
              then ParsedUser.push_sent (GiftRef.mk t tlabel count) r
              else r in
            let r :=
              if String.eqb k t
              then ParsedUser.push_received (GiftRef.mk s slabel count) r
              else r in
            if String.eqb k s then ParsedUser.promote r else r
        end
  end.

(** The record emitted for a node. *)
Definition record_for (nodeMap : JsMap.t GraphNode.t)
  (linkMap : JsMap.t GraphLink.t) (n : GraphNode.t) : ParsedUser.t :=
  fold_left (link_effect nodeMap (account_label nodeMap) (GraphNode.id n))
    (JsMap.values linkMap) (pool_entry n).

(** A link that counts as a gift in the view: both ends have a record and
    the target is not a channel id. *)
Definition counts_as_gift (lbl : string -> option string) (l : GraphLink.t)
  : bool :=
  match lbl (GraphLink.source l), lbl (GraphLink.target l) with
  | Some _, Some _ => negb (Js.startsWith "c_" (GraphLink.target l))
  | _, _ => false
  end.

Definition gift_count (l : GraphLink.t) : Z :=
  Js.num_or (GraphLink.value l) 1.

(** The sum of the counts of the gift links leaving (arriving at) [k]. *)
Definition sent_sum (lbl : string -> option string) (k : string)
  (links : list GraphLink.t) : Z :=
  fold_right
    (fun l acc =>
       if counts_as_gift lbl l && String.eqb k (GraphLink.source l)
       then gift_count l + acc else acc)
    0 links.

Definition received_sum (lbl : string -> option string) (k : string)
  (links : list GraphLink.t) : Z :=
  fold_right
    (fun l acc =>
       if counts_as_gift lbl l && String.eqb k (GraphLink.target l)
       then gift_count l + acc else acc)
    0 links.

Definition sends (lbl : string -> option string) (k : string)
  (l : GraphLink.t) : bool :=
  counts_as_gift lbl l && String.eqb k (GraphLink.source l).

Definition receives (lbl : string -> option string) (k : string)
  (l : GraphLink.t) : bool :=
  counts_as_gift lbl l && String.eqb k (GraphLink.target l).

(** The role of the record emitted for an id, read off a graph snapshot. *)
Definition classify (g : GraphData.t) (k : string) : option SourceType :=
  let nodeMap := nodeMap_of g in
  match JsMap.get k nodeMap with
  | Some n =>
      if is_channel n then None
      else Some (if Js.truthy_flag (GraphNode.isTarget n) then target
                 else if existsb (sends (account_label nodeMap) k)
                           (GraphData.links g)
                      then gifter else discovered)
  | None => None
  end.

(** What an update does to a node that is already in the graph. *)
Definition gift_touch (resolved_users : option (JsMap.t ResolvedUser.t))
  (k : string) (n : GraphNode.t) (g : Gift.t) : GraphNode.t :=
  if Js.truthy_num (Gift.sender_id g)
     && String.eqb k (user_id_of (Gift.sender_id g))
  then upgrade_sender n (resolved_sender resolved_users (Gift.sender_id g))
  else n.

Definition node_after (u : Update) (k : string) (n : GraphNode.t)
  : GraphNode.t :=
  match u with
  | user_found data | user_detail data =>
      if String.eqb k (user_id_of (UserData.id data))
      then merge_existing data n else n
  | user_gifts d =>
      fold_left (gift_touch (GiftsData.resolved_users d) k)
        (GiftsData.gifts d) n
  | _ => n
  end.

(** No ["-"] in a text. *)
Fixpoint dashfree (s : string) : bool :=
  match s with
  | EmptyString => true
  | String c s' => negb (Ascii.eqb c "-") && dashfree s'
  end.

(** The text of an id: an optional sign, then a non-empty text without
    ["-"]. *)
Definition id_text (s : string) : Prop :=
  exists sign body,
    s = sign ++ body /\ (sign = "" \/ sign = "-")
    /\ body <> "" /\ dashfree body = true.

(** What holds of every link the store creates: it leaves an account id,
    it carries a count of at least one, and the account it leaves has its
    node. *)
Definition link_ok (nodeMap : JsMap.t GraphNode.t) (l : GraphLink.t)
  : Prop :=
  (exists i, GraphLink.source l = user_id_of i)
  /\ (exists v, GraphLink.value l = Some v /\ 1 <= v)
  /\ JsMap.has (GraphLink.source l) nodeMap = true.

Definition graph_inv (maps : JsMap.t GraphNode.t * JsMap.t GraphLink.t)
  : Prop :=
  maps_ok maps /\ Forall (link_ok (fst maps)) (JsMap.values (snd maps)).

(** What holds of every node the store creates: under a channel id there
    is a node of the channel group. *)
Definition node_ok (n : GraphNode.t) : Prop :=
  Js.startsWith "c_" (GraphNode.id n) = true -> GraphNode.group n = "channel".

Definition nodes_inv (maps : JsMap.t GraphNode.t * JsMap.t GraphLink.t)
  : Prop :=
  JsMap.keyed GraphNode.id (fst maps)
  /\ Forall node_ok (JsMap.values (fst maps)).

(** What holds of every reachable state: the stored graph is the contents
    of its own working maps, these satisfy [graph_inv], and the stored view
    is the view of the stored graph. *)
Definition state_inv (s : AppState.t) : Prop :=
  (graph_inv (working_maps s) /\ nodes_inv (working_maps s))
  /\ AppState.graphData s
     = GraphData.mk (JsMap.values (fst (working_maps s)))
         (JsMap.values (snd (working_maps s)))
  /\ AppState.parsedUsers s
     = project (fst (working_maps s)) (snd (working_maps s)).

(** An account-observed event for the id [k]. *)
Definition observes_account (k : string) (u : Update) : bool :=
  match u with
  | user_found data | user_detail data =>
      String.eqb (user_id_of (UserData.id data)) k
  | _ => false
  end.

(** A node as a gift event creates it for a sender. *)
Definition gift_born (n : GraphNode.t) : Prop :=
  GraphNode.isTarget n = None
  /\ GraphNode.discoveredFrom n = None
  /\ GraphNode.group n = "potential_gifter".

(** The cumulative count recorded on the links from [src] to [tgt], and
    the totals of the record emitted for an id (0 when there is none). *)
Definition weight (s : AppState.t) (src tgt : string) : Z :=
  fold_right (fun l acc => Js.num_or (GraphLink.value l) 0 + acc) 0
    (links_between s src tgt).

Definition total_sent (s : AppState.t) (k : string) : Z :=
  match record_of s k with
  | Some r => ParsedUser.totalGiftsSent r
  | None => 0
  end.

Definition total_received (s : AppState.t) (k : string) : Z :=
  match record_of s k with
  | Some r => ParsedUser.totalGiftsReceived r
  | None => 0
  end.

(** Whether the view holds a record for an id. *)
Definition has_record (s : AppState.t) (k : string) : bool :=
  match record_of s k with
  | Some _ => true
  | None => false
  end.

(** Whether two ids both have a label, that is, a record. *)
Definition both_labelled (lbl : string -> option string) (a b : string)
  : bool :=
  match lbl a, lbl b with
  | Some _, Some _ => true
  | _, _ => false
  end.

(** A gift-observed event with one entry: recipient [R], sender [S]. *)
Definition gift_event (R S : Js.num)
  (resolved_users : option (JsMap.t ResolvedUser.t)) : Update :=
  user_gifts (GiftsData.mk R [Gift.mk S] resolved_users).

(** The states the store can be in: the actions of the store, from the
    state [create] builds. *)
Inductive Reachable : AppState.t -> Prop :=
| reach_init : Reachable initialState
| reach_update u s : Reachable s -> Reachable (processScanUpdate u s)
| reach_startScan s : Reachable s -> Reachable (startScan s)
| reach_stopScan s : Reachable s -> Reachable (stopScan s)
| reach_addLog msg s : Reachable s -> Reachable (addLog msg s)
| reach_setScanQueue q s : Reachable s -> Reachable (setScanQueue q s)
| reach_setChatId c s : Reachable s -> Reachable (setScanTargetChatId c s)
| reach_setCustomTargets t s :
    Reachable s -> Reachable (setCustomScanTargets t s).

(** ** Sample events and states *)

Definition alice_found : Update :=
  user_found
    (UserData.mk (Js.number 1) (Some "alice") None None None None None None).

(** Two targets queued; the first is started and yields one account. *)
Definition first_target_scanned : AppState.t :=
  processScanUpdate alice_found
    (Scanner.autostart (setScanQueue ["-1001"; "-1002"] initialState)).

(** A gift to account 1 from the unresolved sender 2. *)
Definition gift_2_to_1 : Update :=
  user_gifts (GiftsData.mk (Js.number 1) [Gift.mk (Js.number 2)] None).

(** Account 2 observed with a first name and no username. *)
Definition bob_first_name : UserData.t :=
  UserData.mk (Js.number 2) None (Some "Bob") None None None None None.

(** An account-observed payload with no id. *)
Definition no_id : UserData.t :=
  UserData.mk Js.undefined None None None None None None None.

(** An account-observed payload whose id is [null]. *)
Definition null_id : UserData.t :=
  UserData.mk Js.null None None None None None None None.

(** A gift to account 1 from the unresolved sender 5. *)
Definition gift_5_to_1 : Update :=
  user_gifts (GiftsData.mk (Js.number 1) [Gift.mk (Js.number 5)] None).

(** Account 5 observed with a found-via value, then without one. *)
Definition found_via : UserData.t :=
  UserData.mk (Js.number 5) None None None None None None (Some "@t").

Definition found_again : UserData.t :=
  UserData.mk (Js.number 5) None None None None None None None.

(** Account 5 observed with a first name and no username. *)
Definition five_first_name : UserData.t :=
  UserData.mk (Js.number 5) None (Some "Eve") None None None None None.

(** Account 2 observed with a found-via value. *)
Definition two_found_via : UserData.t :=
  UserData.mk (Js.number 2) None None None None None None (Some "@t").

(** An account-channel-links event for account 1. *)
Definition alice_links : UserData.t :=
  UserData.mk (Js.number 1) None None None None None
    (Some ["newschannel"]) None.

(** ** More of JavaScript: texts, sets, sorting and slices *)

Module JsLib.

(** [s.includes(q)] *)
Definition includes (q s : string) : bool :=
  match String.index 0 q s with
  | Some _ => true
  | None => false
  end.

(** [s.replace(pat, rep)] with a string pattern and a replacement that
    holds no ["$"]: the first occurrence is replaced. *)
Fixpoint replace (pat rep s : string) : string :=
  if String.prefix pat s
  then rep ++ String.substring (String.length pat)
                (String.length s - String.length pat) s
  else match s with
       | EmptyString => EmptyString
       | String c s' => String c (replace pat rep s')
       end.

(** [new Set] filled by [add], then [Array.from]: first occurrences, in
    order. *)
Fixpoint set_of (l : list string) : list string :=
  match l with
  | [] => []
  | x :: l' =>
      x :: filter (fun y => negb (String.eqb y x)) (set_of l')
  end.

(** *** The order of texts

    A text is held here as its UTF-8 bytes, while a JavaScript string is a
    sequence of UTF-16 code units and is compared unit by unit.  The two
    orders differ (a character from U+E000 to U+FFFF is one unit, above
    those of every surrogate pair), so texts are compared through their
    code units. *)

(** The low six bits of a continuation byte. *)
Definition continuation (c : ascii) : N := N.land (N_of_ascii c) 63.

(** The code points of a text: one byte below 128, or a lead byte
    [110xxxxx], [1110xxxx] or [11110xxx] followed by one, two or three
    continuation bytes. *)
Fixpoint code_points (s : string) : list N :=
  match s with
  | EmptyString => []
  | String c0 s1 =>
      let b0 := N_of_ascii c0 in
      if (b0 <? 128)%N then b0 :: code_points s1
      else if (b0 <? 224)%N then
        match s1 with
        | String c1 s2 =>
            (N.land b0 31 * 64 + continuation c1)%N :: code_points s2
        | _ => b0 :: code_points s1
        end
      else if (b0 <? 240)%N then
        match s1 with
        | String c1 (String c2 s3) =>
            (N.land b0 15 * 4096 + continuation c1 * 64
             + continuation c2)%N :: code_points s3
        | _ => b0 :: code_points s1
        end
      else
        match s1 with
        | String c1 (String c2 (String c3 s4)) =>
            (N.land b0 7 * 262144 + continuation c1 * 4096
             + continuation c2 * 64 + continuation c3)%N :: code_points s4
        | _ => b0 :: code_points s1
        end
  end.

(** The UTF-16 code units of a code point: itself below 65536, a
    surrogate pair from there on. *)
Definition utf16 (cp : N) : list N :=
  if (cp <? 65536)%N then [cp]
  else [(55296 + (cp - 65536) / 1024)%N; (56320 + (cp - 65536) mod 1024)%N].

(** The code units of a text. *)
Definition code_units (s : string) : list N :=
  flat_map utf16 (code_points s).

(** [a <= b] on sequences of code units, unit by unit. *)
Fixpoint units_leb (a b : list N) : bool :=
  match a, b with
  | [], _ => true
  | _ :: _, [] => false
  | x :: a', y :: b' =>
      if (x <? y)%N then true
      else if (y <? x)%N then false
      else units_leb a' b'
  end.

(** [!(b < a)] on texts. *)
Definition leb (a b : string) : bool :=
  units_leb (code_units a) (code_units b).

(** [sort()] with no comparator, on texts: ascending in the order of
    their code units, texts that compare equal keeping their order. *)
Fixpoint insert_sorted (x : string) (l : list string) : list string :=
  match l with
  | [] => [x]
  | y :: l' => if leb x y then x :: l else y :: insert_sorted x l'
  end.

Definition sort (l : list string) : list string :=
  fold_right insert_sorted [] l.

(** [l.slice(start, end)] for indices that are not negative. *)
Definition slice {A} (start end_ : nat) (l : list A) : list A :=
  firstn (end_ - start) (skipn start l).

End JsLib.

(** ** More of [Scanner.tsx]: the stop button and the stream's messages *)

Module ScannerView.

(** [handleStop], up to the awaited request: the queue is emptied, the
    scan is marked stopped, the socket is closed. *)
Definition handleStop_begin (s : AppState.t) : AppState.t :=
  stopScan (setScanQueue [] s).

(** [handleStop], after the awaited request. *)
Definition handleStop_end (s : AppState.t) : AppState.t :=
  addLog "Manual stop requested - Signal Sent." s.

(** A stream that completes, for the target being scanned: [chatId] of
    the socket's callbacks is the id [startScanForId] stored, and
    [customScanTargets] is the list of the closure that opened the
    socket. *)
Definition complete_current (customScanTargets : list string)
  (s : AppState.t) : AppState.t :=
  Scanner.stream_complete customScanTargets (AppState.scanTargetChatId s) s.

(** A message of the scan socket, by its [type]: [complete], [error], or
    one for the update engine, with its payload or without. *)
Inductive Message : Type :=
| msg_complete
| msg_error (message : option string)
| msg_update (u : Update)
| msg_no_data (type : Raw.DataType).

(** [`${data.message}`] *)
Definition text (o : option string) : string :=
  match o with
  | Some m => m
  | None => "undefined"
  end.

(** [data.data.username || data.data.id], rendered. *)
Definition found_name (data : UserData.t) : string :=
  if Js.truthy (UserData.username data)
  then Js.or_else (UserData.username data) ""
  else Js.str (UserData.id data).

(** [ws.onmessage].  The callback has no [try]: when the update engine
    throws, the exception leaves the callback and the lines after the call
    are not run. *)
Definition onmessage (chatId : string) (m : Message) (s : AppState.t)
  : AppState.t :=
  match m with
  | msg_complete => Scanner.onmessage_complete chatId s
  | msg_error message => addLog ("Error: " ++ text message) s
  | msg_update u =>
      let s := processScanUpdate u s in
      match u with
      | user_found data => addLog ("Found: " ++ found_name data) s
      | user_gifts d =>
          addLog ("Gifts: Found "
                  ++ Js.num_str (Z.of_nat (List.length (GiftsData.gifts d)))
                  ++ " for " ++ Js.str (GiftsData.user_id d)) s
      | _ => s
      end
  | msg_no_data type =>
      Raw.store_after (Raw.processScanUpdate (Raw.without_data type) s)
  end.

(** The messages of a stream, in arrival order. *)
Definition receive (chatId : string) (ms : list Message) (s : AppState.t)
  : AppState.t :=
  fold_left (fun s m => onmessage chatId m s) ms s.

(** The events among the messages that go to the update engine. *)
Definition updates_of (ms : list Message) : list Update :=
  flat_map (fun m => match m with msg_update u => [u] | _ => [] end) ms.

End ScannerView.

(** ** [Discovery.tsx]: starting the analysis of a selection *)

Module Discovery.

(** [handleStartAnalysis], for the selection in the order in which
    [Array.from] lists it.  The switch to the scanner tab is outside the
    modelled state. *)
Definition handleStartAnalysis (selectedIds : list string)
  (s : AppState.t) : AppState.t :=
  match selectedIds with
  | [] => s
  | first :: _ =>
      setScanTargetChatId first (setScanQueue selectedIds s)
  end.

End Discovery.

(** ** [Scanner.tsx]: the table, its counters and the recipients dropdown *)

Module ScannerTable.

Definition is_target (u : ParsedUser.t) : bool :=
  match ParsedUser.sourceType u with
  | target => true
  | _ => false
  end.




Section Table.

(** [toLowerCase] is left open: the properties hold whatever it maps a
    text to. *)
Variable toLowerCase : string -> string.

(** The gifts-filter part of the filter callback: [true] where it
    returns [false]. *)
Definition filter_rejects (giftsFilter : string) (user : ParsedUser.t)
  : bool :=
  if String.eqb giftsFilter "targets" then
    negb (is_target user) || Js.truthy (ParsedUser.discoveredFrom user)
  else if String.eqb giftsFilter "discovered" then
    negb (Js.truthy (ParsedUser.discoveredFrom user))
  else if String.eqb giftsFilter "gifters" then
    ParsedUser.totalGiftsSent user =? 0
  else if String.eqb giftsFilter "has_gifts" then
    (ParsedUser.totalGiftsSent user =? 0)
    && (ParsedUser.totalGiftsReceived user =? 0)
  else if Js.startsWith "to:" giftsFilter then
    let recipient := JsLib.replace "to:" "" giftsFilter in
    negb (existsb (fun g => String.eqb (GiftRef.label g) recipient)
            (ParsedUser.giftsSentTo user))
  else false.

(** The filter callback of [filteredUsers]. *)
Definition row_shown (giftsFilter searchQuery : string)
  (user : ParsedUser.t) : bool :=
  if (List.length (ParsedUser.channels user) =? 0)%nat
     && negb (is_target user)
  then false
  else if filter_rejects giftsFilter user then false
  else if negb (String.eqb searchQuery "") then
    let q := toLowerCase searchQuery in
    JsLib.includes q (toLowerCase (ParsedUser.label user))
    || existsb (fun c => JsLib.includes q (toLowerCase c))
         (ParsedUser.channels user)
  else true.

(** The rows of the table; the [sort] call that follows orders them. *)
Definition rows (giftsFilter searchQuery : string)
  (parsedUsers : list ParsedUser.t) : list ParsedUser.t :=
  filter (row_shown giftsFilter searchQuery) parsedUsers.

End Table.

Record Stats : Type := mkStats {
  total : nat;
  targets : nat;
  gifters : nat;
  discovered : nat
}.

Definition stats (parsedUsers : list ParsedUser.t) : Stats :=
  let visibleUsers :=
    filter
      (fun u =>
         (0 <? List.length (ParsedUser.channels u))%nat
         || (is_target u && negb (Js.truthy (ParsedUser.discoveredFrom u))))
      parsedUsers in
  mkStats
    (List.length visibleUsers)
    (List.length
       (filter (fun u => negb (Js.truthy (ParsedUser.discoveredFrom u)))
          visibleUsers))
    (List.length
       (filter (fun u => 0 <? ParsedUser.totalGiftsSent u) visibleUsers))
    (List.length
       (filter (fun u => Js.truthy (ParsedUser.discoveredFrom u))
          visibleUsers)).

End ScannerTable.

(** ** [ResultsPanel.tsx]: pages, the channel export, the numeric id *)

Module ResultsPanel.

Definition ITEMS_PER_PAGE : nat := 50.

(** [Math.ceil(n / ITEMS_PER_PAGE)] *)
Definition totalPages (n : nat) : nat :=
  ((n + (ITEMS_PER_PAGE - 1)) / ITEMS_PER_PAGE)%nat.

(** [filteredUsers.slice((currentPage - 1) * ITEMS_PER_PAGE,
    currentPage * ITEMS_PER_PAGE)], for a page number from 1 on. *)
Definition paginatedUsers {A} (currentPage : nat) (filteredUsers : list A)
  : list A :=
  JsLib.slice ((currentPage - 1) * ITEMS_PER_PAGE)
    (currentPage * ITEMS_PER_PAGE) filteredUsers.

Definition allChannels (parsedUsers : list ParsedUser.t) : list string :=
  JsLib.set_of (flat_map ParsedUser.channels parsedUsers).

(** The lines of [channels.txt], before they are joined. *)
Definition channel_lines (parsedUsers : list ParsedUser.t) : list string :=
  map (fun ch => "https://t.me/" ++ JsLib.replace "@" "" ch)
    (allChannels parsedUsers).

(** [userId.replace('u_', '')], the id put in the common-groups
    request. *)
Definition numericId (userId : string) : string :=
  JsLib.replace "u_" "" userId.

End ResultsPanel.

(** ** [NetworkGraph.tsx]: the drawn graph

    The panel reads the saved layout [networkNodePositions] of the store.
    A node id is looked up in it as a property of a plain object; the ids
    the panel looks up begin with ["u_"] or ["c_"], so none of them names a
    member that every object inherits. *)

Module NetworkGraph.

(** A saved position, [{ x, y, fx?, fy? }]. *)
Record Position : Type := mkPosition {
  x : Q;
  y : Q;
  fx : option Q;
  fy : option Q
}.

Inductive NodeType : Type := of_target | of_discovered | of_channel.

Record Metrics : Type := mkMetrics {
  sent : Z;
  recv : Z;
  degree : Z
}.

(** [saved] holds [x], [y], [fx] and [fy], which a node has exactly when
    a position was saved for its id. *)
Record AnalystNode : Type := mkNode {
  id : string;
  label : string;
  type : NodeType;
  val : Z;
  metrics : Metrics;
  connections : list string;
  meta : option ParsedUser.t;
  saved : option Position
}.

Record AnalystLink : Type := mkLink {
  source : string;
  target : string;
  value : Z
}.

(** The three locals of the memo callback.  The node objects live in the
    array [nodes], in creation order; [nodeMap] holds references to them,
    that is, their indices in [nodes]. *)
Record Build : Type := mkBuild {
  nodes : list AnalystNode;
  nodeMap : JsMap.t nat;
  links : list AnalystLink
}.

(** Mutation of the object behind a reference. *)
Fixpoint mutate (i : nat) (f : AnalystNode -> AnalystNode)
  (l : list AnalystNode) {struct l} : list AnalystNode :=
  match l with
  | [] => []
  | n :: l' =>
      match i with
      | O => f n :: l'
      | S i' => n :: mutate i' f l'
      end
  end.

Definition mutate_node (i : nat) (f : AnalystNode -> AnalystNode)
  (st : Build) : Build :=
  mkBuild (mutate i f (nodes st)) (nodeMap st) (links st).

(** [if (!n.connections.includes(other)) n.connections.push(other)] *)
Definition connect (other : string) (n : AnalystNode) : AnalystNode :=
  if existsb (String.eqb other) (connections n) then n
  else mkNode (id n) (label n) (type n) (val n) (metrics n)
         (connections n ++ [other]) (meta n) (saved n).

(** [n.metrics.degree++] *)
Definition bump (n : AnalystNode) : AnalystNode :=
  mkNode (id n) (label n) (type n) (val n)
    (mkMetrics (sent (metrics n)) (recv (metrics n))
       (degree (metrics n) + 1))
    (connections n) (meta n) (saved n).

(** [nodeMap.set(node.id, node); nodes.push(node)] *)
Definition add_node (st : Build) (node : AnalystNode) : Build :=
  mkBuild (nodes st ++ [node])
    (JsMap.set (id node) (List.length (nodes st)) (nodeMap st))
    (links st).

Definition user_node (networkNodePositions : JsMap.t Position)
  (u : ParsedUser.t) : AnalystNode :=
  mkNode (ParsedUser.id u) (ParsedUser.label u)
    (if ScannerTable.is_target u then of_target else of_discovered)
    8
    (mkMetrics (ParsedUser.totalGiftsSent u)
       (ParsedUser.totalGiftsReceived u) 0)
    [] (Some u) (JsMap.get (ParsedUser.id u) networkNodePositions).

Definition channel_node (networkNodePositions : JsMap.t Position)
  (cid ch : string) : AnalystNode :=
  mkNode cid ch of_channel 7 (mkMetrics 0 0 0) [] None
    (JsMap.get cid networkNodePositions).

(** What follows the two [nodeMap.get(...)!] of a link: the link is
    pushed, the first object learns of [x], the second of [y], then both
    degrees go up, in that order.  The two references may be to one and the
    same object. *)
Definition tie (l : AnalystLink) (first : nat) (x : string)
  (second : nat) (y : string) (st : Build) : Build :=
  let st := mkBuild (nodes st) (nodeMap st) (links st ++ [l]) in
  let st := mutate_node first (connect x) st in
  let st := mutate_node second (connect y) st in
  let st := mutate_node first bump st in
  mutate_node second bump st.

(** One turn of [u.channels.forEach].  [None] stands for the [TypeError]
    a missing node would raise. *)
Definition join_channel (networkNodePositions : JsMap.t Position)
  (u : ParsedUser.t) (st : option Build) (ch : string) : option Build :=
  match st with
  | None => None
  | Some st =>
      let cid := "c_" ++ ch in
      let st :=
        if negb (JsMap.has cid (nodeMap st))
        then add_node st (channel_node networkNodePositions cid ch)
        else st in
      match JsMap.get cid (nodeMap st),
            JsMap.get (ParsedUser.id u) (nodeMap st) with
      | Some chNode, Some userNode =>
          Some (tie (mkLink (ParsedUser.id u) cid 1)
                  chNode (ParsedUser.id u) userNode cid st)
      | _, _ => None
      end
  end.

(** One turn of [sender.giftsSentTo.forEach]. *)
Definition send_gift (validUserIds : list string) (sender : ParsedUser.t)
  (st : option Build) (gift : GiftRef.t) : option Build :=
  match st with
  | None => None
  | Some st =>
      let recipientId := GiftRef.userId gift in
      if existsb (String.eqb recipientId) validUserIds then
        match JsMap.get (ParsedUser.id sender) (nodeMap st),
              JsMap.get recipientId (nodeMap st) with
        | Some sNode, Some tNode =>
            Some (tie (mkLink (ParsedUser.id sender) recipientId
                         (GiftRef.count gift))
                    sNode recipientId tNode (ParsedUser.id sender) st)
        | _, _ => None
        end
      else Some st
  end.

Definition validUsers (parsedUsers : list ParsedUser.t)
  : list ParsedUser.t :=
  filter
    (fun u =>
       ScannerTable.is_target u
       || (0 <? List.length (ParsedUser.channels u))%nat)
    parsedUsers.

(** The callback of the memo [processedData].  The memo depends on
    [parsedUsers] alone: the callback runs again when the view changes, and
    [networkNodePositions] is then the layout saved at that moment.  A
    position saved afterwards does not rebuild the drawn graph. *)
Definition processedData (networkNodePositions : JsMap.t Position)
  (parsedUsers : list ParsedUser.t)
  : option (list AnalystNode * list AnalystLink) :=
  let validUsers := validUsers parsedUsers in
  let validUserIds := map ParsedUser.id validUsers in
  let st :=
    fold_left
      (fun st u => add_node st (user_node networkNodePositions u))
      validUsers (mkBuild [] [] []) in
  let st :=
    fold_left
      (fun st u =>
         fold_left (join_channel networkNodePositions u)
           (ParsedUser.channels u) st)
      validUsers (Some st) in
  let st :=
    fold_left
      (fun st sender =>
         fold_left (send_gift validUserIds sender)
           (ParsedUser.giftsSentTo sender) st)
      validUsers st in
  option_map (fun st => (nodes st, links st)) st.

End NetworkGraph.

(** ** Vocabulary of the further statements *)

(** [l'] continues [l]: the same entries at the same places, then new
    ones. *)
Definition continues {A} (l l' : list A) : Prop :=
  exists more, l' = (l ++ more)%list.

(** The two ends of a link. *)
Definition link_ends (l : GraphLink.t) : string * string :=
  (GraphLink.source l, GraphLink.target l).

Definition sum_of {A} (f : A -> Z) (l : list A) : Z :=
  fold_right (fun x acc => f x + acc) 0 l.

(** What a stored link shows: a membership link carries the value 1 and
    no label, a gift link carries its count and the text of that count. *)
Definition link_text (l : GraphLink.t) : Prop :=
  if Js.startsWith "c_" (GraphLink.target l)
  then GraphLink.value l = Some 1 /\ GraphLink.label l = None
  else exists v, 1 <= v /\ GraphLink.value l = Some v
                 /\ GraphLink.label l
                    = Some (if v =? 1 then "1 GIFT" else gifts_label v).

(** An event that names no account: an unknown type, or gift entries
    that all lack a sender. *)
Definition names_nobody (u : Update) : bool :=
  match u with
  | other_type _ => true
  | user_gifts d =>
      forallb (fun g => negb (Js.truthy_num (Gift.sender_id g)))
        (GiftsData.gifts d)
  | _ => false
  end.

Definition node_ids (maps : JsMap.t GraphNode.t * JsMap.t GraphLink.t) :=
  map GraphNode.id (JsMap.values (fst maps)).

Definition link_pairs (maps : JsMap.t GraphNode.t * JsMap.t GraphLink.t) :=
  map link_ends (JsMap.values (snd maps)).

Definition link_count (l : GraphLink.t) : Z := Js.num_or (GraphLink.value l) 0.

Definition count_kept (lm lm' : JsMap.t GraphLink.t) : Prop :=
  forall k l, JsMap.get k lm = Some l ->
    exists l', JsMap.get k lm' = Some l' /\ link_count l <= link_count l'.

Definition totals_ok (r : ParsedUser.t) : Prop :=
  ParsedUser.totalGiftsSent r = sum_of GiftRef.count (ParsedUser.giftsSentTo r)
  /\ ParsedUser.totalGiftsReceived r
     = sum_of GiftRef.count (ParsedUser.giftsReceivedFrom r).

Definition label_or_empty (o : option string) : string :=
  match o with Some x => x | None => "" end.

(** The entry a counted gift link puts in its sender's list, and the one
    it puts in its recipient's list. *)
Definition sent_ref (lbl : string -> option string) (l : GraphLink.t)
  : GiftRef.t :=
  GiftRef.mk (GraphLink.target l) (label_or_empty (lbl (GraphLink.target l)))
    (gift_count l).

Definition received_ref (lbl : string -> option string) (l : GraphLink.t)
  : GiftRef.t :=
  GiftRef.mk (GraphLink.source l) (label_or_empty (lbl (GraphLink.source l)))
    (gift_count l).

(** The label of the record a state emits for an id. *)
Definition label_in (s : AppState.t) (k : string) : option string :=
  option_map ParsedUser.label (record_of s k).

Definition pool_sent (pool : JsMap.t ParsedUser.t) : Z :=
  sum_of ParsedUser.totalGiftsSent (JsMap.values pool).

Definition pool_received (pool : JsMap.t ParsedUser.t) : Z :=
  sum_of ParsedUser.totalGiftsReceived (JsMap.values pool).

(** A node is stored under an account id, or it is the node made for a
    channel. *)
Definition node_made (n : GraphNode.t) : Prop :=
  (exists i, GraphNode.id n = user_id_of i)
  \/ (exists clink, n = channel_node clink).

(** An account that was observed as a target or with a found-via value. *)
Definition placed (n : GraphNode.t) : bool :=
  Js.truthy_flag (GraphNode.isTarget n)
  || Js.truthy (GraphNode.discoveredFrom n).

(** A link to a channel id has its channel node, and leaves a placed
    account. *)
Definition member_ok (nodeMap : JsMap.t GraphNode.t) (l : GraphLink.t)
  : Prop :=
  Js.startsWith "c_" (GraphLink.target l) = true ->
  JsMap.has (GraphLink.target l) nodeMap = true
  /\ exists n, JsMap.get (GraphLink.source l) nodeMap = Some n
               /\ placed n = true.

Definition shape_inv (maps : JsMap.t GraphNode.t * JsMap.t GraphLink.t)
  : Prop :=
  Forall node_made (JsMap.values (fst maps))
  /\ Forall (member_ok (fst maps)) (JsMap.values (snd maps)).

(** A membership link of the account [k]. *)
Definition member_link (k : string) (l : GraphLink.t) : bool :=
  String.eqb k (GraphLink.source l)
  && Js.startsWith "c_" (GraphLink.target l).

(** What one link adds to the channel list of the record stored under
    [k]. *)
Definition channel_entry (nodeMap : JsMap.t GraphNode.t)
  (lbl : string -> option string) (k : string) (l : GraphLink.t)
  : list string :=
  match lbl (GraphLink.source l) with
  | None => []
  | Some _ =>
      if Js.startsWith "c_" (GraphLink.target l) then
        match JsMap.get (GraphLink.target l) nodeMap with
        | Some chNode =>
            if String.eqb k (GraphLink.source l)
            then [GraphNode.label chNode] else []
        | None => []
        end
      else []
  end.

(** After a manual stop: nothing is queued, nothing is scanning, the
    graph and the view of [s] are kept, and neither the start-up hook nor
    an armed close timer does anything. *)
Definition halted (s x : AppState.t) : Prop :=
  AppState.scanQueue x = [] /\ AppState.isScanning x = false
  /\ AppState.graphData x = AppState.graphData s
  /\ AppState.parsedUsers x = AppState.parsedUsers s
  /\ Scanner.autostart x = x
  /\ forall customScanTargets, Scanner.onclose_timer customScanTargets x = x.

(** Two states with the same graph and the same view. *)
Definition same_graph (a b : AppState.t) : Prop :=
  AppState.graphData a = AppState.graphData b
  /\ AppState.parsedUsers a = AppState.parsedUsers b.

(** Two states with the same queue, scanning flag and current target. *)
Definition same_control (a b : AppState.t) : Prop :=
  AppState.scanQueue a = AppState.scanQueue b
  /\ AppState.isScanning a = AppState.isScanning b
  /\ AppState.scanTargetChatId a = AppState.scanTargetChatId b
  /\ AppState.customScanTargets a = AppState.customScanTargets b.

(** Every reference of [nodeMap] is to a node of [nodes] that carries the
    id it is stored under. *)
Definition refs_ok (st : NetworkGraph.Build) : Prop :=
  forall k i, JsMap.get k (NetworkGraph.nodeMap st) = Some i ->
    exists n, nth_error (NetworkGraph.nodes st) i = Some n
              /\ NetworkGraph.id n = k.

(** Both ends of every link have their node. *)
Definition links_closed (st : NetworkGraph.Build) : Prop :=
  Forall (fun l =>
            JsMap.has (NetworkGraph.source l) (NetworkGraph.nodeMap st) = true
            /\ JsMap.has (NetworkGraph.target l) (NetworkGraph.nodeMap st)
               = true)
    (NetworkGraph.links st).

Definition degree_sum (ns : list NetworkGraph.AnalystNode) : Z :=
  sum_of (fun n => NetworkGraph.degree (NetworkGraph.metrics n)) ns.

(** Every node carries the position saved for its id, if there is one. *)
Definition restored (positions : JsMap.t NetworkGraph.Position)
  (ns : list NetworkGraph.AnalystNode) : Prop :=
  Forall (fun n => NetworkGraph.saved n
                   = JsMap.get (NetworkGraph.id n) positions) ns.

Definition build_inv (positions : JsMap.t NetworkGraph.Position)
  (ids : list string) (st : NetworkGraph.Build) : Prop :=
  refs_ok st /\ links_closed st
  /\ degree_sum (NetworkGraph.nodes st)
     = 2 * Z.of_nat (List.length (NetworkGraph.links st))
  /\ restored positions (NetworkGraph.nodes st)
  /\ Forall (fun k => JsMap.has k (NetworkGraph.nodeMap st) = true) ids.

Definition build_ok (positions : JsMap.t NetworkGraph.Position)
  (ids : list string) (o : option NetworkGraph.Build) : Prop :=
  exists st, o = Some st /\ build_inv positions ids st.

(** One node per id, and every node is referenced under its id. *)
Definition fresh (st : NetworkGraph.Build) : Prop :=
  NoDup (map NetworkGraph.id (NetworkGraph.nodes st))
  /\ Forall (fun n => JsMap.has (NetworkGraph.id n)
                        (NetworkGraph.nodeMap st) = true)
       (NetworkGraph.nodes st).

Definition fresh_if_built (o : option NetworkGraph.Build) : Prop :=
  forall st, o = Some st -> fresh st.

(** The count stored under a link key, 0 when there is no such link. *)
Definition count_at (k : string) (linkMap : JsMap.t GraphLink.t) : Z :=
  match JsMap.get k linkMap with
  | Some l => link_count l
  | None => 0
  end.

(** A gift entry that names the sender whose node id is [src]. *)
Definition names_sender (src : string) (g : Gift.t) : bool :=
  Js.truthy_num (Gift.sender_id g)
  && String.eqb (user_id_of (Gift.sender_id g)) src.

Definition same_scan (a b : AppState.t) : Prop :=
  AppState.graphData a = AppState.graphData b
  /\ AppState.parsedUsers a = AppState.parsedUsers b
  /\ AppState.logs a = AppState.logs b
  /\ AppState.scannedUsers a = AppState.scannedUsers b.

(** ** More sample events and states *)

(** A scan in which account 1 was found as a target, linked to one
    channel, and received one gift from the unresolved sender 2. *)
Definition sample_scan : AppState.t :=
  processScanUpdate gift_2_to_1
    (processScanUpdate (user_detail alice_links)
       (processScanUpdate alice_found initialState)).

Definition sample_reachable : Reachable sample_scan :=
  reach_update _ _ (reach_update _ _ (reach_update _ _ reach_init)).

(** The record of account 1 in that scan, and the gift link. *)
Definition sample_alice : ParsedUser.t :=
  ParsedUser.mk "u_1" "@alice" (Some "") ["@newschannel"] target 0 []
    [GiftRef.mk "u_2" "U_2" 1] 0 1 None.

Definition sample_gift_link : GraphLink.t :=
  GraphLink.mk "u_2" "u_1" (Some 1) (Some "1 GIFT").

(** Three targets queued, the first one started. *)
Definition sample_queue : AppState.t :=
  Scanner.autostart (setScanQueue ["-1001"; "-1002"; "-1003"] initialState).

(** An account reported with the type of a channel. *)
Definition channel_typed : UserData.t :=
  UserData.mk (Js.number 7) None None None None (Some "channel") None None.

Ltac break_if :=
  match goal with
  | |- context [if ?b then _ else _] => destruct b eqn:?
  | |- context [match ?x with _ => _ end] => destruct x eqn:?
  end.

(** ** Facts about insertion-ordered maps *)

Module JsMapFacts.
Import JsMap.
Local Open Scope list_scope.

Section Facts.
Context {V : Type}.
Implicit Types (m : JsMap.t V) (k : string) (v : V).

Lemma get_set_eq k v m : get k (set k v m) = Some v.
Proof.
  induction m as [|[k' v'] m IH]; simpl.
  - now rewrite String.eqb_refl.
  - destruct (String.eqb k k') eqn:E; simpl.
    + now rewrite String.eqb_refl.
    + now rewrite E.
Qed.

Lemma get_set_neq k k' v m : k <> k' -> get k (set k' v m) = get k m.
Proof.
  intros Hne. induction m as [|[k0 v0] m IH]; simpl.
  - apply String.eqb_neq in Hne. now rewrite Hne.
  - destruct (String.eqb k' k0) eqn:E; simpl.
    + apply String.eqb_eq in E. subst k0.
      apply String.eqb_neq in Hne. now rewrite Hne.
    + now rewrite IH.
Qed.

Lemma get_set k k' v m :
  get k (set k' v m) = if String.eqb k k' then Some v else get k m.
Proof.
  destruct (String.eqb k k') eqn:E.
  - apply String.eqb_eq in E. subst. apply get_set_eq.
  - apply String.eqb_neq in E. now apply get_set_neq.
Qed.

Lemma get_None_keys k m : get k m = None <-> ~ In k (keys m).
Proof.
  induction m as [|[k' v'] m IH]; simpl.
  - tauto.
  - destruct (String.eqb k k') eqn:E.
    + apply String.eqb_eq in E. subst. split; [discriminate | tauto].
    + apply String.eqb_neq in E. rewrite IH. intuition congruence.
Qed.

Lemma get_Some_In k v m : get k m = Some v -> In (k, v) m.
Proof.
  induction m as [|[k' v'] m IH]; simpl; [discriminate|].
  destruct (String.eqb k k') eqn:E.
  - apply String.eqb_eq in E. intros [= ->]. subst. now left.
  - intros H. right. now apply IH.
Qed.

Lemma In_get k v m : NoDup (keys m) -> In (k, v) m -> get k m = Some v.
Proof.
  induction m as [|[k' v'] m IH]; simpl; [tauto|].
  intros Hnd [H|H].
  - injection H as -> ->. now rewrite String.eqb_refl.
  - inversion Hnd as [|? ? Hni Hnd']; subst.
    destruct (String.eqb k k') eqn:E.
    + apply String.eqb_eq in E. subst. exfalso. apply Hni.
      change k' with (fst (k', v)). now apply in_map.
    + now apply IH.
Qed.

Lemma has_true k m : has k m = true <-> In k (keys m).
Proof.
  unfold has. destruct (get k m) eqn:E.
  - split; [intros _|reflexivity].
    apply get_Some_In in E. change k with (fst (k, v)). now apply in_map.
  - apply get_None_keys in E. split; [discriminate | tauto].
Qed.

Lemma set_absent k v m : get k m = None -> set k v m = m ++ [(k, v)].
Proof.
  induction m as [|[k' v'] m IH]; simpl; [reflexivity|].
  destruct (String.eqb k k'); [discriminate|].
  intros H. now rewrite IH.
Qed.

Lemma keys_set_present k v m :
  get k m <> None -> keys (set k v m) = keys m.
Proof.
  induction m as [|[k' v'] m IH]; simpl; [congruence|].
  destruct (String.eqb k k') eqn:E; simpl.
  - apply String.eqb_eq in E. now subst.
  - intros H. now rewrite IH.
Qed.

Lemma keys_set k v m :
  keys (set k v m) = if has k m then keys m else keys m ++ [k].
Proof.
  unfold has. destruct (get k m) eqn:E.
  - apply keys_set_present. congruence.
  - rewrite set_absent by assumption. unfold keys. now rewrite map_app.
Qed.

Lemma has_set k k' v m :
  has k (set k' v m) = (String.eqb k k' || has k m)%bool.
Proof.
  unfold has. rewrite get_set. now destruct (String.eqb k k').
Qed.

Lemma NoDup_keys_set k v m : NoDup (keys m) -> NoDup (keys (set k v m)).
Proof.
  intros Hnd. rewrite keys_set. destruct (has k m) eqn:E; [assumption|].
  apply NoDup_app; [assumption | repeat constructor; simpl; tauto |].
  intros x Hx [<-|[]]. apply has_true in Hx. congruence.
Qed.

Lemma set_same k v m : NoDup (keys m) -> In (k, v) m -> set k v m = m.
Proof.
  induction m as [|[k' v'] m IH]; simpl; [tauto|].
  intros Hnd [H|H].
  - injection H as -> ->. now rewrite String.eqb_refl.
  - inversion Hnd as [|? ? Hni Hnd']; subst.
    destruct (String.eqb k k') eqn:E.
    + apply String.eqb_eq in E. subst. exfalso. apply Hni.
      change k' with (fst (k', v)). now apply in_map.
    + now rewrite IH.
Qed.

Lemma keys_adjust (f : V -> V) k m : keys (adjust f k m) = keys m.
Proof.
  unfold adjust. destruct (get k m) eqn:E; [|reflexivity].
  apply keys_set_present. congruence.
Qed.

Lemma get_adjust (f : V -> V) k k' m :
  get k (adjust f k' m)
  = if String.eqb k k' then option_map f (get k m) else get k m.
Proof.
  unfold adjust. destruct (String.eqb k k') eqn:E.
  - apply String.eqb_eq in E. subst k'.
    destruct (get k m) eqn:G; simpl.
    + apply get_set_eq.
    + assumption.
  - destruct (get k' m) eqn:G; [|reflexivity].
    rewrite get_set. now rewrite E.
Qed.

(** Rebuilding a map from its own entries gives it back. *)
Lemma of_entries_app (acc es : list (string * V)) :
  NoDup (keys (acc ++ es)) ->
  fold_left (fun m e => set (fst e) (snd e) m) es acc = acc ++ es.
Proof.
  revert acc. induction es as [|[k v] es IH]; intros acc Hnd; simpl.
  - now rewrite app_nil_r.
  - rewrite set_absent.
    + rewrite IH; rewrite <- app_assoc; [reflexivity | exact Hnd].
    + apply get_None_keys. unfold keys in Hnd. rewrite map_app in Hnd.
      simpl in Hnd. apply NoDup_remove_2 in Hnd.
      intros Hin. apply Hnd. apply in_or_app. now left.
Qed.

Lemma of_entries_id m : NoDup (keys m) -> of_entries m = m.
Proof. intros H. unfold of_entries. now rewrite of_entries_app. Qed.

Lemma NoDup_keys_fold (acc es : list (string * V)) :
  NoDup (keys acc) ->
  NoDup (keys (fold_left (fun m e => set (fst e) (snd e) m) es acc)).
Proof.
  revert acc. induction es as [|e es IH]; intros acc H; simpl; auto.
  apply IH. now apply NoDup_keys_set.
Qed.

Lemma NoDup_keys_of_entries (es : list (string * V)) :
  NoDup (keys (of_entries es)).
Proof. apply NoDup_keys_fold. constructor. Qed.

Lemma keyed_set key k v m :
  keyed key m -> k = key v -> keyed key (set k v m).
Proof.
  intros Hm Hk. induction m as [|[k' v'] m IH]; simpl.
  - now repeat constructor.
  - inversion Hm as [|? ? Hh Ht]; subst.
    destruct (String.eqb (key v) k'); constructor; auto.
    now apply IH.
Qed.

Lemma keyed_fold key (es acc : list (string * V)) :
  keyed key acc -> keyed key es ->
  keyed key (fold_left (fun m e => set (fst e) (snd e) m) es acc).
Proof.
  revert acc. induction es as [|e es IH]; intros acc Ha He; simpl; auto.
  inversion He; subst. apply IH; auto. now apply keyed_set.
Qed.

Lemma keyed_of_values key (l : list V) :
  keyed key (of_entries (map (fun v => (key v, v)) l)).
Proof.
  apply keyed_fold; [constructor|].
  unfold keyed. rewrite Forall_map. now apply Forall_forall.
Qed.

Lemma keyed_entries key m :
  keyed key m -> map (fun v => (key v, v)) (values m) = m.
Proof.
  induction 1 as [|[k v] m Hk _ IH]; simpl; [reflexivity|].
  simpl in Hk. now rewrite IH, Hk.
Qed.

Lemma of_values_id key m :
  keyed key m -> NoDup (keys m) ->
  of_entries (map (fun v => (key v, v)) (values m)) = m.
Proof.
  intros Hk Hnd. rewrite keyed_entries by assumption.
  now apply of_entries_id.
Qed.

Lemma keyed_keys key m : keyed key m -> keys m = map key (values m).
Proof.
  induction 1 as [|[k v] m Hk _ IH]; simpl; [reflexivity|].
  simpl in Hk. now rewrite IH, Hk.
Qed.

End Facts.
End JsMapFacts.

(** ** Invariants of the working maps *)

Import JsMapFacts.

Lemma keyed_get {V} (key : V -> string) k v (m : JsMap.t V) :
  JsMap.keyed key m -> JsMap.get k m = Some v -> key v = k.
Proof.
  intros Hk Hg. apply get_Some_In in Hg.
  unfold JsMap.keyed in Hk. rewrite Forall_forall in Hk.
  now specialize (Hk _ Hg).
Qed.

Lemma merge_existing_id data n :
  GraphNode.id (merge_existing data n) = GraphNode.id n.
Proof. unfold merge_existing. repeat break_if; reflexivity. Qed.

Lemma upgrade_sender_id n r :
  GraphNode.id (upgrade_sender n r) = GraphNode.id n.
Proof. unfold upgrade_sender. repeat break_if; reflexivity. Qed.

Lemma nodeMap_of_ok g :
  JsMap.keyed GraphNode.id (nodeMap_of g) /\ NoDup (JsMap.keys (nodeMap_of g)).
Proof.
  split; [apply keyed_of_values | apply NoDup_keys_of_entries].
Qed.

Lemma linkMap_of_ok g :
  JsMap.keyed linkKey (linkMap_of g) /\ NoDup (JsMap.keys (linkMap_of g)).
Proof.
  split; [apply keyed_of_values | apply NoDup_keys_of_entries].
Qed.

Lemma observe_account_ok data nm :
  JsMap.keyed GraphNode.id nm /\ NoDup (JsMap.keys nm) ->
  JsMap.keyed GraphNode.id (observe_account data nm)
  /\ NoDup (JsMap.keys (observe_account data nm)).
Proof.
  intros [Hk Hnd]. unfold observe_account.
  destruct (JsMap.get _ nm) eqn:G; split;
    try (apply NoDup_keys_set; assumption);
    apply keyed_set; try assumption.
  - rewrite merge_existing_id. symmetry. eapply keyed_get; eauto.
  - reflexivity.
Qed.

Lemma link_channel_ok uid maps clink :
  maps_ok maps -> maps_ok (link_channel uid maps clink).
Proof.
  destruct maps as [nm lm]. intros [[Hk Hnd] [Hk' Hnd']].
  unfold link_channel, maps_ok. simpl in *.
  repeat break_if; simpl; repeat split;
    try assumption; try (apply NoDup_keys_set; assumption);
    apply keyed_set; try assumption; reflexivity.
Qed.

Lemma observe_gift_ok tid ru maps g :
  maps_ok maps -> maps_ok (observe_gift tid ru maps g).
Proof.
  destruct maps as [nm lm]. intros [[Hk Hnd] [Hk' Hnd']].
  unfold observe_gift, maps_ok. simpl in *.
  destruct (negb (Js.truthy_num (Gift.sender_id g))); simpl;
    [repeat split; assumption|].
  repeat split.
  - destruct (JsMap.get _ nm) eqn:G; apply keyed_set; try assumption.
    + rewrite upgrade_sender_id. symmetry. eapply keyed_get; eauto.
    + reflexivity.
  - destruct (JsMap.get _ nm); now apply NoDup_keys_set.
  - destruct (JsMap.get _ lm) eqn:G; apply keyed_set; try assumption.
    + apply (keyed_get linkKey) in G; [|assumption].
      rewrite <- G. reflexivity.
    + reflexivity.
  - destruct (JsMap.get _ lm); now apply NoDup_keys_set.
Qed.

Lemma fold_left_inv {A B} (P : A -> Prop) (f : A -> B -> A) l a :
  (forall a b, P a -> P (f a b)) -> P a -> P (fold_left f l a).
Proof.
  intros Hf. revert a. induction l as [|b l IH]; intros a Ha; simpl; auto.
Qed.

Lemma apply_update_ok update maps :
  maps_ok maps -> maps_ok (apply_update update maps).
Proof.
  intros H. destruct update as [msg|data|data|d|ty]; simpl; try assumption.
  - destruct H as [Hn Hl]. split; [now apply observe_account_ok | exact Hl].
  - assert (H1 : maps_ok (observe_account data (fst maps), snd maps)).
    { destruct H as [Hn Hl].
      split; [now apply observe_account_ok | exact Hl]. }
    destruct (UserData.channel_links data); [|exact H1].
    apply fold_left_inv; [|exact H1].
    intros a b. apply link_channel_ok.
  - apply fold_left_inv; [|exact H].
    intros a b. apply observe_gift_ok.
Qed.

Lemma initial_maps_ok g : maps_ok (nodeMap_of g, linkMap_of g).
Proof. split; [apply nodeMap_of_ok | apply linkMap_of_ok]. Qed.

(** The graph written back by an update, read again, gives the same two
    working maps. *)
Lemma reload_maps nm lm :
  maps_ok (nm, lm) ->
  nodeMap_of (GraphData.mk (JsMap.values nm) (JsMap.values lm)) = nm
  /\ linkMap_of (GraphData.mk (JsMap.values nm) (JsMap.values lm)) = lm.
Proof.
  intros [[Hk Hnd] [Hk' Hnd']]. simpl in *.
  unfold nodeMap_of, linkMap_of. simpl.
  split; now apply of_values_id.
Qed.

(** ** Merging an account twice *)

Lemma node_ext (n m : GraphNode.t) :
  GraphNode.id n = GraphNode.id m ->
  GraphNode.label n = GraphNode.label m ->
  GraphNode.group n = GraphNode.group m ->
  GraphNode.val n = GraphNode.val m ->
  GraphNode.title n = GraphNode.title m ->
  GraphNode.color n = GraphNode.color m ->
  GraphNode.isTarget n = GraphNode.isTarget m ->
  GraphNode.discoveredFrom n = GraphNode.discoveredFrom m ->
  n = m.
Proof. destruct n, m. simpl. intros. now subst. Qed.

(** The merge, field by field. *)
Lemma merge_existing_label data n :
  GraphNode.label (merge_existing data n)
  = match UserData.username data with
    | Some u => if String.eqb u "" then GraphNode.label n else "@" ++ u
    | None => GraphNode.label n
    end.
Proof.
  unfold merge_existing, data_label, Js.truthy.
  destruct (UserData.username data) as [u|]; simpl.
  - destruct (String.eqb u ""); simpl; repeat break_if; reflexivity.
  - repeat break_if; reflexivity.
Qed.

Lemma merge_existing_group data n :
  GraphNode.group (merge_existing data n)
  = match UserData.type data with
    | Some ty => if String.eqb ty "" then GraphNode.group n else ty
    | None => GraphNode.group n
    end.
Proof.
  unfold merge_existing.
  destruct (UserData.type data) as [ty|]; [destruct (String.eqb ty "")|];
    repeat break_if; reflexivity.
Qed.

Lemma merge_existing_val data n :
  GraphNode.val (merge_existing data n) = GraphNode.val n.
Proof. unfold merge_existing. repeat break_if; reflexivity. Qed.

Lemma merge_existing_color data n :
  GraphNode.color (merge_existing data n) = GraphNode.color n.
Proof. unfold merge_existing. repeat break_if; reflexivity. Qed.

Lemma merge_existing_title data n :
  GraphNode.title (merge_existing data n)
  = if Js.truthy (UserData.bio data) then UserData.bio data
    else GraphNode.title n.
Proof.
  unfold merge_existing.
  destruct (Js.truthy (UserData.bio data)); repeat break_if; reflexivity.
Qed.

Lemma merge_existing_isTarget data n :
  GraphNode.isTarget (merge_existing data n)
  = if negb (Js.truthy_flag (GraphNode.isTarget n))
       && negb (Js.truthy (UserData.discovered_from data))
    then Some true else GraphNode.isTarget n.
Proof.
  unfold merge_existing.
  set (c := negb (Js.truthy (UserData.discovered_from data))).
  destruct (Js.truthy (UserData.username data));
    destruct (UserData.type data) as [ty|];
    try destruct (String.eqb ty "");
    destruct (Js.truthy (UserData.bio data));
    simpl;
    destruct (negb (Js.truthy_flag (GraphNode.isTarget n)) && c);
    simpl; repeat break_if; reflexivity.
Qed.

Lemma merge_existing_provenance data n :
  GraphNode.discoveredFrom (merge_existing data n)
  = if Js.truthy (UserData.discovered_from data)
       && negb (Js.truthy (GraphNode.discoveredFrom n))
    then UserData.discovered_from data
    else GraphNode.discoveredFrom n.
Proof.
  unfold merge_existing, Js.or_null.
  destruct (Js.truthy (UserData.discovered_from data)) eqn:Ed;
    rewrite ?Ed;
    destruct (Js.truthy (UserData.username data));
    destruct (UserData.type data) as [ty|];
    try destruct (String.eqb ty "");
    destruct (Js.truthy (UserData.bio data));
    simpl; rewrite ?andb_false_r; simpl;
    destruct (Js.truthy_flag (GraphNode.isTarget n)); simpl;
    destruct (Js.truthy (GraphNode.discoveredFrom n)); simpl;
    reflexivity.
Qed.

Lemma merge_existing_idem data n :
  merge_existing data (merge_existing data n) = merge_existing data n.
Proof.
  apply node_ext.
  - now rewrite !merge_existing_id.
  - rewrite !merge_existing_label.
    destruct (UserData.username data) as [u|]; [|reflexivity].
    now destruct (String.eqb u "").
  - rewrite !merge_existing_group.
    destruct (UserData.type data) as [ty|]; [|reflexivity].
    now destruct (String.eqb ty "").
  - now rewrite !merge_existing_val.
  - rewrite !merge_existing_title.
    now destruct (Js.truthy (UserData.bio data)).
  - now rewrite !merge_existing_color.
  - rewrite !merge_existing_isTarget.
    destruct (Js.truthy (UserData.discovered_from data));
      destruct (GraphNode.isTarget n) as [[|]|]; reflexivity.
  - rewrite !merge_existing_provenance.
    destruct (Js.truthy (UserData.discovered_from data)) eqn:Ed;
      [|reflexivity].
    destruct (Js.truthy (GraphNode.discoveredFrom n)) eqn:En; simpl.
    + now rewrite En.
    + now rewrite Ed.
Qed.

Lemma truthy_or_else o d : Js.truthy o = true -> Some (Js.or_else o d) = o.
Proof.
  destruct o as [x|]; simpl; [|discriminate].
  now destruct (String.eqb x "").
Qed.

Lemma merge_existing_new data :
  merge_existing data (new_account data) = new_account data.
Proof.
  apply node_ext.
  - now rewrite merge_existing_id.
  - rewrite merge_existing_label. unfold new_account, data_label. simpl.
    destruct (UserData.username data) as [u|]; [|reflexivity].
    now destruct (String.eqb u "").
  - rewrite merge_existing_group. unfold new_account, Js.or_else. simpl.
    destruct (UserData.type data) as [ty|]; [|reflexivity].
    now destruct (String.eqb ty "").
  - now rewrite merge_existing_val.
  - rewrite merge_existing_title. unfold new_account. simpl.
    destruct (Js.truthy (UserData.bio data)) eqn:E; [|reflexivity].
    symmetry. now apply truthy_or_else.
  - now rewrite merge_existing_color.
  - rewrite merge_existing_isTarget. unfold new_account. simpl.
    now destruct (Js.truthy (UserData.discovered_from data)).
  - rewrite merge_existing_provenance. unfold new_account, Js.or_null. simpl.
    destruct (Js.truthy (UserData.discovered_from data)) eqn:E;
      [|reflexivity].
    now rewrite E.
Qed.

(** What [observe_account] leaves under the account's id is a fixed point
    of the merge. *)
Lemma observe_account_get data nm :
  exists n,
    JsMap.get (user_id_of (UserData.id data)) (observe_account data nm)
    = Some n
    /\ merge_existing data n = n.
Proof.
  unfold observe_account.
  destruct (JsMap.get _ nm) as [n0|] eqn:G.
  - exists (merge_existing data n0). split.
    + apply get_set_eq.
    + apply merge_existing_idem.
  - exists (new_account data). split.
    + apply get_set_eq.
    + apply merge_existing_new.
Qed.

Lemma observe_account_fixed data nm n :
  NoDup (JsMap.keys nm) ->
  JsMap.get (user_id_of (UserData.id data)) nm = Some n ->
  merge_existing data n = n ->
  observe_account data nm = nm.
Proof.
  intros Hnd G Hm. unfold observe_account. rewrite G, Hm.
  apply set_same; [assumption|]. now apply get_Some_In.
Qed.

(** [link_channel] only ever adds: what is bound stays bound, unchanged. *)
Lemma link_channel_get_node uid maps clink k n :
  JsMap.get k (fst maps) = Some n ->
  JsMap.get k (fst (link_channel uid maps clink)) = Some n.
Proof.
  destruct maps as [nm lm]. unfold link_channel. simpl. intros G.
  unfold JsMap.has.
  destruct (JsMap.get (channel_id_of clink) nm) eqn:G1; simpl; [assumption|].
  rewrite get_set. destruct (String.eqb k (channel_id_of clink)) eqn:E;
    [|assumption].
  apply String.eqb_eq in E. congruence.
Qed.

Lemma link_channel_get_link uid maps clink k l :
  JsMap.get k (snd maps) = Some l ->
  JsMap.get k (snd (link_channel uid maps clink)) = Some l.
Proof.
  destruct maps as [nm lm]. unfold link_channel. simpl. intros G.
  unfold JsMap.has.
  destruct (JsMap.get (link_key uid (channel_id_of clink)) lm) eqn:G1; simpl;
    [assumption|].
  rewrite get_set.
  destruct (String.eqb k (link_key uid (channel_id_of clink))) eqn:E;
    [|assumption].
  apply String.eqb_eq in E. congruence.
Qed.

Lemma link_channels_get_node uid links maps k n :
  JsMap.get k (fst maps) = Some n ->
  JsMap.get k (fst (fold_left (link_channel uid) links maps)) = Some n.
Proof.
  revert maps. induction links as [|c links IH]; intros maps G; simpl; auto.
  apply IH. now apply link_channel_get_node.
Qed.

Lemma link_channels_get_link uid links maps k l :
  JsMap.get k (snd maps) = Some l ->
  JsMap.get k (snd (fold_left (link_channel uid) links maps)) = Some l.
Proof.
  revert maps. induction links as [|c links IH]; intros maps G; simpl; auto.
  apply IH. now apply link_channel_get_link.
Qed.

Lemma link_channel_has uid maps clink :
  JsMap.has (channel_id_of clink) (fst (link_channel uid maps clink)) = true
  /\ JsMap.has (link_key uid (channel_id_of clink))
       (snd (link_channel uid maps clink)) = true.
Proof.
  destruct maps as [nm lm]. unfold link_channel. simpl.
  split.
  - destruct (JsMap.has (channel_id_of clink) nm) eqn:E; simpl; auto.
    rewrite has_set, String.eqb_refl. reflexivity.
  - destruct (JsMap.has (link_key uid (channel_id_of clink)) lm) eqn:E;
      simpl; auto.
    rewrite has_set, String.eqb_refl. reflexivity.
Qed.

(** A handle whose channel node and membership link are both there is a
    no-op. *)
Lemma link_channel_present uid maps clink :
  JsMap.has (channel_id_of clink) (fst maps) = true ->
  JsMap.has (link_key uid (channel_id_of clink)) (snd maps) = true ->
  link_channel uid maps clink = maps.
Proof.
  destruct maps as [nm lm]. unfold link_channel. simpl.
  now intros -> ->.
Qed.

Lemma has_get {V} k (m : JsMap.t V) :
  JsMap.has k m = true -> exists v, JsMap.get k m = Some v.
Proof. unfold JsMap.has. destruct (JsMap.get k m); eauto; discriminate. Qed.

Lemma get_has {V} k v (m : JsMap.t V) :
  JsMap.get k m = Some v -> JsMap.has k m = true.
Proof. unfold JsMap.has. now intros ->. Qed.

Lemma link_channels_has uid links maps clink :
  In clink links ->
  JsMap.has (channel_id_of clink)
    (fst (fold_left (link_channel uid) links maps)) = true
  /\ JsMap.has (link_key uid (channel_id_of clink))
       (snd (fold_left (link_channel uid) links maps)) = true.
Proof.
  revert maps. induction links as [|c links IH]; intros maps Hin; simpl.
  - destruct Hin.
  - destruct Hin as [->|Hin]; [|now apply IH].
    destruct (link_channel_has uid maps clink) as [H1 H2].
    apply has_get in H1 as [n Hn]. apply has_get in H2 as [l Hl].
    split.
    + eapply get_has. apply link_channels_get_node. exact Hn.
    + eapply get_has. apply link_channels_get_link. exact Hl.
Qed.

Lemma link_channels_present uid links maps :
  (forall clink, In clink links ->
     JsMap.has (channel_id_of clink) (fst maps) = true
     /\ JsMap.has (link_key uid (channel_id_of clink)) (snd maps) = true) ->
  fold_left (link_channel uid) links maps = maps.
Proof.
  induction links as [|c links IH]; intros H; simpl; [reflexivity|].
  rewrite link_channel_present; try apply H; try (now left).
  apply IH. intros clink Hin. apply H. now right.
Qed.

Lemma link_channels_ok uid links maps :
  maps_ok maps -> maps_ok (fold_left (link_channel uid) links maps).
Proof.
  intros H. apply fold_left_inv; [|exact H].
  intros a b. apply link_channel_ok.
Qed.

(** The working maps after an account event are a fixed point of it. *)
Lemma apply_account_idem update maps :
  maps_ok maps ->
  (exists data, update = user_found data \/ update = user_detail data) ->
  apply_update update (apply_update update maps) = apply_update update maps.
Proof.
  intros Hok [data [->| ->]]; simpl.
  - f_equal. destruct (observe_account_get data (fst maps)) as [n [G Hm]].
    eapply observe_account_fixed; eauto.
    now apply observe_account_ok, Hok.
  - destruct (observe_account_get data (fst maps)) as [n [G Hm]].
    assert (H1 : maps_ok (observe_account data (fst maps), snd maps)).
    { destruct Hok as [Hn Hl].
      split; [now apply observe_account_ok | exact Hl]. }
    destruct (UserData.channel_links data) as [links|].
    + set (uid := user_id_of (UserData.id data)) in *.
      set (r := fold_left (link_channel uid) links
                  (observe_account data (fst maps), snd maps)).
      assert (Hr : maps_ok r) by now apply link_channels_ok.
      assert (E : observe_account data (fst r) = fst r).
      { eapply observe_account_fixed.
        - apply Hr.
        - apply link_channels_get_node. exact G.
        - exact Hm. }
      rewrite E. replace (fst r, snd r) with r by now destruct r.
      apply link_channels_present. intros clink Hin.
      now apply link_channels_has.
    + simpl. f_equal. eapply observe_account_fixed; eauto. apply H1.
Qed.

(** ** The projection, record by record *)

Lemma link_effect_ext nm lbl lbl' k r l :
  (forall x, lbl x = lbl' x) ->
  link_effect nm lbl k r l = link_effect nm lbl' k r l.
Proof. intros H. unfold link_effect. now rewrite !H. Qed.

Lemma link_effect_label nm lbl k r l :
  ParsedUser.label (link_effect nm lbl k r l) = ParsedUser.label r.
Proof.
  unfold link_effect, ParsedUser.promote.
  repeat break_if; reflexivity.
Qed.

Lemma link_effect_id nm lbl k r l :
  ParsedUser.id (link_effect nm lbl k r l) = ParsedUser.id r.
Proof.
  unfold link_effect, ParsedUser.promote.
  repeat break_if; reflexivity.
Qed.

Lemma link_effect_discoveredFrom nm lbl k r l :
  ParsedUser.discoveredFrom (link_effect nm lbl k r l)
  = ParsedUser.discoveredFrom r.
Proof.
  unfold link_effect, ParsedUser.promote.
  repeat break_if; reflexivity.
Qed.

Lemma get_pool_link nm pool l k :
  JsMap.get k (pool_link nm pool l)
  = option_map (fun r => link_effect nm (pool_labels pool) k r l)
      (JsMap.get k pool).
Proof.
  unfold pool_link, link_effect, pool_labels.
  destruct (JsMap.get (GraphLink.source l) pool) as [sender|] eqn:Gs; simpl.
  2:{ now destruct (JsMap.get k pool). }
  destruct (Js.startsWith "c_" (GraphLink.target l)).
  - destruct (JsMap.get (GraphLink.target l) nm) as [ch|].
    + rewrite get_adjust.
      destruct (String.eqb k (GraphLink.source l));
        now destruct (JsMap.get k pool).
    + now destruct (JsMap.get k pool).
  - destruct (JsMap.get (GraphLink.target l) pool) as [receiver|] eqn:Gt;
      simpl.
    2:{ now destruct (JsMap.get k pool). }
    rewrite !get_adjust.
    destruct (String.eqb k (GraphLink.source l)),
             (String.eqb k (GraphLink.target l));
      now destruct (JsMap.get k pool).
Qed.

Lemma pool_labels_link nm pool l x :
  pool_labels (pool_link nm pool l) x = pool_labels pool x.
Proof.
  unfold pool_labels at 1. rewrite get_pool_link.
  unfold pool_labels at 2.
  destruct (JsMap.get x pool); simpl; [|reflexivity].
  now rewrite link_effect_label.
Qed.

Lemma keys_pool_link nm pool l :
  JsMap.keys (pool_link nm pool l) = JsMap.keys pool.
Proof.
  unfold pool_link. repeat break_if; rewrite ?keys_adjust; reflexivity.
Qed.

Lemma get_pool_links nm links : forall pool lbl k,
  (forall x, lbl x = pool_labels pool x) ->
  JsMap.get k (fold_left (pool_link nm) links pool)
  = option_map (fun r => fold_left (link_effect nm lbl k) links r)
      (JsMap.get k pool).
Proof.
  induction links as [|l links IH]; intros pool lbl k Hl; simpl.
  - now destruct (JsMap.get k pool).
  - rewrite (IH _ lbl).
    + rewrite get_pool_link. destruct (JsMap.get k pool); simpl; [|reflexivity].
      f_equal. f_equal. apply link_effect_ext. intros x. now rewrite Hl.
    + intros x. now rewrite pool_labels_link.
Qed.

Lemma keys_pool_links nm links : forall pool,
  JsMap.keys (fold_left (pool_link nm) links pool) = JsMap.keys pool.
Proof.
  induction links as [|l links IH]; intros pool; simpl; [reflexivity|].
  now rewrite IH, keys_pool_link.
Qed.

(** A map with the keys of another, and pointwise the image of its values,
    is its image. *)
Lemma map_by_get {V} (F : string -> V -> V) (p : JsMap.t V) :
  forall p' : JsMap.t V,
  NoDup (JsMap.keys p) ->
  JsMap.keys p' = JsMap.keys p ->
  (forall k, JsMap.get k p' = option_map (F k) (JsMap.get k p)) ->
  p' = map (fun e => (fst e, F (fst e) (snd e))) p.
Proof.
  induction p as [|[k0 v0] p IH]; intros p' Hnd Hk Hg.
  - destruct p'; [reflexivity | discriminate].
  - destruct p' as [|[k1 v1] p']; [discriminate|].
    simpl in Hk. injection Hk as -> Hk.
    inversion Hnd as [|? ? Hni Hnd']; subst.
    pose proof (Hg k0) as H0. simpl in H0. rewrite String.eqb_refl in H0.
    injection H0 as ->. simpl. f_equal.
    apply IH; try assumption.
    intros k. destruct (String.eqb k k0) eqn:E.
    + apply String.eqb_eq in E. subst k.
      assert (G : JsMap.get k0 p = None) by now apply get_None_keys.
      assert (G' : JsMap.get k0 p' = None)
        by (apply get_None_keys; now rewrite Hk).
      now rewrite G, G'.
    + specialize (Hg k). simpl in Hg. now rewrite E in Hg.
Qed.

(** The pool built from the nodes: one entry per node that is not of the
    channel group, in node order. *)
Lemma pool_of_nodes (nodes : list GraphNode.t) : forall acc,
  NoDup (JsMap.keys acc ++ map GraphNode.id nodes) ->
  fold_left pool_add nodes acc
  = (acc ++ map (fun n => (GraphNode.id n, pool_entry n))
              (filter (fun n => negb (is_channel n)) nodes))%list.
Proof.
  induction nodes as [|n nodes IH]; intros acc Hnd; simpl.
  - now rewrite app_nil_r.
  - unfold pool_add at 2. unfold is_channel at 1.
    destruct (String.eqb (GraphNode.group n) "channel"); simpl.
    + apply IH. simpl in Hnd. now apply NoDup_remove_1 in Hnd.
    + rewrite set_absent.
      * rewrite IH.
        -- now rewrite <- app_assoc.
        -- unfold JsMap.keys. rewrite map_app. simpl.
           rewrite <- app_assoc. exact Hnd.
      * apply get_None_keys. simpl in Hnd. apply NoDup_remove_2 in Hnd.
        intros Hin. apply Hnd. apply in_or_app. now left.
Qed.

Lemma NoDup_map_filter {A B} (f : A -> B) (g : A -> bool) (l : list A) :
  NoDup (map f l) -> NoDup (map f (filter g l)).
Proof.
  induction l as [|a l IH]; simpl; intros H; [constructor|].
  inversion H as [|? ? Hni Hnd]; subst.
  destruct (g a); simpl; [|now apply IH].
  constructor; [|now apply IH].
  intros Hin. apply Hni. apply in_map_iff in Hin as [x [Hx Hin]].
  apply filter_In in Hin as [Hin _]. rewrite <- Hx. now apply in_map.
Qed.

Lemma get_pool_entries nm k :
  JsMap.keyed GraphNode.id nm -> NoDup (JsMap.keys nm) ->
  JsMap.get k
    (map (fun n => (GraphNode.id n, pool_entry n))
       (filter (fun n => negb (is_channel n)) (JsMap.values nm)))
  = match JsMap.get k nm with
    | Some n => if is_channel n then None else Some (pool_entry n)
    | None => None
    end.
Proof.
  induction nm as [|[k0 n0] nm IH]; intros Hk Hnd; simpl; [reflexivity|].
  inversion Hk as [|? ? Hk0 Hk']; subst. simpl in Hk0. subst k0.
  inversion Hnd as [|? ? Hni Hnd']; subst.
  destruct (is_channel n0) eqn:Ec; simpl.
  - rewrite IH by assumption.
    destruct (String.eqb k (GraphNode.id n0)) eqn:E; [|reflexivity].
    apply String.eqb_eq in E. subst k.
    assert (G : JsMap.get (GraphNode.id n0) nm = None)
      by (apply get_None_keys; exact Hni).
    now rewrite G, Ec.
  - destruct (String.eqb k (GraphNode.id n0)) eqn:E.
    + now rewrite Ec.
    + now apply IH.
Qed.

(** The view, one record per node that is not of the channel group, in
    node order. *)
Lemma project_records nm lm :
  maps_ok (nm, lm) ->
  project nm lm
  = map (record_for nm lm)
      (filter (fun n => negb (is_channel n)) (JsMap.values nm)).
Proof.
  intros [[Hk Hnd] _]. simpl in Hk, Hnd.
  unfold project.
  assert (Hids : NoDup (map GraphNode.id (JsMap.values nm))).
  { rewrite <- (keyed_keys GraphNode.id) by assumption. exact Hnd. }
  rewrite (pool_of_nodes (JsMap.values nm) []) by exact Hids.
  simpl.
  set (pool0 := map (fun n => (GraphNode.id n, pool_entry n))
                  (filter (fun n => negb (is_channel n)) (JsMap.values nm))).
  assert (Hl : forall x, account_label nm x = pool_labels pool0 x).
  { intros x. unfold account_label, pool_labels, pool0.
    rewrite get_pool_entries by assumption.
    destruct (JsMap.get x nm) as [n|]; [|reflexivity].
    now destruct (is_channel n). }
  rewrite (map_by_get
             (fun k r => fold_left (link_effect nm (account_label nm) k)
                           (JsMap.values lm) r)
             pool0
             (fold_left (pool_link nm) (JsMap.values lm) pool0)).
  - unfold JsMap.values, pool0, record_for. rewrite !map_map. reflexivity.
  - unfold pool0, JsMap.keys. rewrite map_map. simpl.
    now apply NoDup_map_filter.
  - apply keys_pool_links.
  - intros k. now apply get_pool_links.
Qed.

(** ** What a link run does to one record *)

Lemma link_effect_sourceType nm lbl k r l :
  ParsedUser.sourceType (link_effect nm lbl k r l)
  = match ParsedUser.sourceType r with
    | discovered => if sends lbl k l then gifter else discovered
    | x => x
    end.
Proof.
  unfold link_effect, sends, counts_as_gift, ParsedUser.promote,
    ParsedUser.push_sent, ParsedUser.push_received, ParsedUser.push_channel.
  destruct (lbl (GraphLink.source l)); simpl.
  2:{ now destruct (ParsedUser.sourceType r). }
  destruct (Js.startsWith "c_" (GraphLink.target l)); simpl.
  - destruct (lbl (GraphLink.target l)), (JsMap.get _ nm),
      (String.eqb k (GraphLink.source l)); simpl;
      now destruct (ParsedUser.sourceType r).
  - destruct (lbl (GraphLink.target l)); simpl.
    2:{ now destruct (ParsedUser.sourceType r). }
    destruct (String.eqb k (GraphLink.source l)),
             (String.eqb k (GraphLink.target l)); simpl;
      now destruct (ParsedUser.sourceType r).
Qed.

Lemma link_effect_sent nm lbl k r l :
  ParsedUser.totalGiftsSent (link_effect nm lbl k r l)
  = ParsedUser.totalGiftsSent r
    + (if sends lbl k l then gift_count l else 0).
Proof.
  unfold link_effect, sends, counts_as_gift, ParsedUser.promote, gift_count,
    ParsedUser.push_sent, ParsedUser.push_received, ParsedUser.push_channel.
  destruct (lbl (GraphLink.source l)); simpl; [|lia].
  destruct (Js.startsWith "c_" (GraphLink.target l)); simpl.
  - destruct (lbl (GraphLink.target l)), (JsMap.get _ nm),
      (String.eqb k (GraphLink.source l)); simpl; lia.
  - destruct (lbl (GraphLink.target l)); simpl; [|lia].
    destruct (String.eqb k (GraphLink.source l)),
             (String.eqb k (GraphLink.target l)); simpl;
      repeat break_if; simpl; lia.
Qed.

Lemma link_effect_received nm lbl k r l :
  ParsedUser.totalGiftsReceived (link_effect nm lbl k r l)
  = ParsedUser.totalGiftsReceived r
    + (if receives lbl k l then gift_count l else 0).
Proof.
  unfold link_effect, receives, counts_as_gift, ParsedUser.promote,
    gift_count,
    ParsedUser.push_sent, ParsedUser.push_received, ParsedUser.push_channel.
  destruct (lbl (GraphLink.source l)); simpl; [|lia].
  destruct (Js.startsWith "c_" (GraphLink.target l)); simpl.
  - destruct (lbl (GraphLink.target l)), (JsMap.get _ nm),
      (String.eqb k (GraphLink.source l)); simpl; lia.
  - destruct (lbl (GraphLink.target l)); simpl; [|lia].
    destruct (String.eqb k (GraphLink.source l)),
             (String.eqb k (GraphLink.target l)); simpl;
      repeat break_if; simpl; lia.
Qed.

Section LinkRun.
Variable nm : JsMap.t GraphNode.t.
Variable lbl : string -> option string.
Variable k : string.

Let run := fold_left (link_effect nm lbl k).

Lemma run_id links : forall r,
  ParsedUser.id (run links r) = ParsedUser.id r.
Proof.
  induction links as [|l links IH]; intros r; simpl; [reflexivity|].
  unfold run in *. simpl. now rewrite IH, link_effect_id.
Qed.

Lemma run_label links : forall r,
  ParsedUser.label (run links r) = ParsedUser.label r.
Proof.
  induction links as [|l links IH]; intros r; simpl; [reflexivity|].
  unfold run in *. simpl. now rewrite IH, link_effect_label.
Qed.

Lemma run_discoveredFrom links : forall r,
  ParsedUser.discoveredFrom (run links r) = ParsedUser.discoveredFrom r.
Proof.
  induction links as [|l links IH]; intros r; simpl; [reflexivity|].
  unfold run in *. simpl. now rewrite IH, link_effect_discoveredFrom.
Qed.

Lemma run_sourceType links : forall r,
  ParsedUser.sourceType (run links r)
  = match ParsedUser.sourceType r with
    | discovered =>
        if existsb (sends lbl k) links then gifter else discovered
    | x => x
    end.
Proof.
  induction links as [|l links IH]; intros r; simpl.
  - now destruct (ParsedUser.sourceType r).
  - unfold run in *. simpl. rewrite IH, link_effect_sourceType.
    destruct (ParsedUser.sourceType r); try reflexivity.
    destruct (sends lbl k l); simpl; reflexivity.
Qed.

Lemma run_sent links : forall r,
  ParsedUser.totalGiftsSent (run links r)
  = ParsedUser.totalGiftsSent r + sent_sum lbl k links.
Proof.
  induction links as [|l links IH]; intros r; simpl; [lia|].
  unfold run in *. simpl. rewrite IH, link_effect_sent.
  unfold sends. destruct (_ && _); lia.
Qed.

Lemma run_received links : forall r,
  ParsedUser.totalGiftsReceived (run links r)
  = ParsedUser.totalGiftsReceived r + received_sum lbl k links.
Proof.
  induction links as [|l links IH]; intros r; simpl; [lia|].
  unfold run in *. simpl. rewrite IH, link_effect_received.
  unfold receives. destruct (_ && _); lia.
Qed.
End LinkRun.

(** ** The update as a whole *)

Lemma process_commit u s :
  (forall m, u <> log m) ->
  processScanUpdate u s = commit s (apply_update u (working_maps s)).
Proof.
  intros Hu. unfold processScanUpdate, commit, working_maps.
  destruct u; try (now destruct (apply_update _ _)).
  exfalso. now apply (Hu message).
Qed.

Lemma working_commit s maps :
  maps_ok maps -> working_maps (commit s maps) = maps.
Proof.
  intros H. destruct maps as [nm lm]. unfold working_maps, commit. simpl.
  destruct (reload_maps nm lm H) as [-> ->]. reflexivity.
Qed.

Lemma view_commit s maps :
  maps_ok maps ->
  AppState.parsedUsers (commit s maps)
  = view (AppState.graphData (commit s maps)).
Proof.
  intros H. destruct maps as [nm lm]. unfold view, commit. simpl.
  destruct (reload_maps nm lm H) as [-> ->]. reflexivity.
Qed.

Lemma node_of_commit s maps k :
  maps_ok maps -> node_of (commit s maps) k = JsMap.get k (fst maps).
Proof.
  intros H. destruct maps as [nm lm]. unfold node_of, commit. simpl.
  destruct (reload_maps nm lm H) as [-> _]. reflexivity.
Qed.

Lemma commit_commit s maps maps' :
  commit (commit s maps) maps' = commit s maps'.
Proof. reflexivity. Qed.

Lemma working_maps_ok s : maps_ok (working_maps s).
Proof. apply initial_maps_ok. Qed.

Lemma updated_maps_ok u s : maps_ok (apply_update u (working_maps s)).
Proof. apply apply_update_ok, working_maps_ok. Qed.

Lemma process_account_twice u s :
  (exists data, u = user_found data \/ u = user_detail data) ->
  processScanUpdate u (processScanUpdate u s) = processScanUpdate u s.
Proof.
  intros Hu.
  assert (Hn : forall m, u <> log m).
  { intros m. destruct Hu as [d [-> | ->]]; discriminate. }
  rewrite !process_commit by exact Hn.
  rewrite working_commit by apply updated_maps_ok.
  rewrite commit_commit.
  rewrite apply_account_idem; [reflexivity | apply working_maps_ok | exact Hu].
Qed.

(** C8.  Applying the same account-observed event ([user_found] or
    [user_detail], with or without channel links) twice in succession leaves
    the store exactly as applying it once: same nodes, same links, same
    projected view (and every other field of the state). *)
Theorem account_observed_idempotent (s : AppState.t) (data : UserData.t) :
  processScanUpdate (user_found data) (processScanUpdate (user_found data) s)
  = processScanUpdate (user_found data) s
  /\ processScanUpdate (user_detail data)
       (processScanUpdate (user_detail data) s)
     = processScanUpdate (user_detail data) s.
Proof.
  split; apply process_account_twice; exists data; auto.
Qed.

(** Records are only emitted for nodes that are not of the channel group. *)
Lemma view_records_accounts nm lm r :
  maps_ok (nm, lm) ->
  In r (project nm lm) ->
  exists n, In n (JsMap.values nm)
            /\ GraphNode.id n = ParsedUser.id r
            /\ GraphNode.group n <> "channel".
Proof.
  intros Hok Hin. rewrite project_records in Hin by exact Hok.
  apply in_map_iff in Hin as [n [<- Hin]].
  apply filter_In in Hin as [Hin Hc].
  exists n. repeat split; try assumption.
  - unfold record_for.
    now rewrite (run_id nm (account_label nm) (GraphNode.id n)).
  - unfold is_channel in Hc. intros E. rewrite E in Hc. discriminate.
Qed.

(** C9.  The view is a function of the graph snapshot alone, order
    included: two runs of the projection on states that hold the same
    snapshot emit the same list of records; running it again on its own
    result changes nothing; the view stored by any update is the view of the
    snapshot stored with it; and every emitted record belongs to a node that
    is not of the channel group. *)
Theorem projection_deterministic (s1 s2 : AppState.t) (ty1 ty2 : string) :
  AppState.graphData s1 = AppState.graphData s2 ->
  let r1 := processScanUpdate (other_type ty1) s1 in
  let r2 := processScanUpdate (other_type ty2) s2 in
  AppState.parsedUsers r1 = AppState.parsedUsers r2
  /\ AppState.parsedUsers r1 = view (AppState.graphData s1)
  /\ processScanUpdate (other_type ty1) r1 = r1
  /\ (forall u s, (forall m, u <> log m) ->
        AppState.parsedUsers (processScanUpdate u s)
        = view (AppState.graphData (processScanUpdate u s)))
  /\ Forall (fun r => exists n,
               In n (GraphData.nodes (AppState.graphData r1))
               /\ GraphNode.id n = ParsedUser.id r
               /\ GraphNode.group n <> "channel")
       (AppState.parsedUsers r1).
Proof.
  intros Hg r1 r2. subst r1 r2.
  assert (Ho : forall ty m, other_type ty <> log m) by discriminate.
  rewrite !process_commit by apply Ho.
  repeat split.
  - unfold commit, working_maps. simpl. now rewrite Hg.
  - rewrite working_commit by apply updated_maps_ok. reflexivity.
  - intros u s Hu. rewrite process_commit by exact Hu.
    apply view_commit, updated_maps_ok.
  - apply Forall_forall. intros r Hin. simpl in Hin.
    eapply view_records_accounts; [|exact Hin].
    apply working_maps_ok.
Qed.

Lemma projection_deterministic_witness :
  let s1 := processScanUpdate
              (user_found
                 (UserData.mk (Js.number 1) (Some "alice") None None None
                    None None None)) initialState in
  let s2 := addLog "x" s1 in
  AppState.parsedUsers (processScanUpdate (other_type "a") s1)
  = AppState.parsedUsers (processScanUpdate (other_type "b") s2).
Proof.
  intros s1 s2.
  exact (proj1 (projection_deterministic s1 s2 "a" "b" eq_refl)).
Defined.

(** ** The queue *)

(** C1, as the code has it.  When the stream of the current target
    completes while the scan is running, the close callback takes the next
    queued target; starting it goes through [startScan], which empties the
    graph and the view as for every scan start.  The graph built so far is
    kept only when nothing is started: the queue is empty (the scan stops)
    or the next id is the empty string.  This holds whatever list of
    custom targets the closure of the socket was made with. *)
Theorem queue_transition_restarts_graph (customScanTargets : list string)
  (chatId : string) (s : AppState.t) :
  AppState.isScanning s = true ->
  let s' := Scanner.stream_complete customScanTargets chatId s in
  match AppState.scanQueue s with
  | next :: rest =>
      AppState.scanQueue s' = rest
      /\ (next <> "" ->
          AppState.graphData s' = emptyGraph
          /\ AppState.parsedUsers s' = []
          /\ AppState.scanTargetChatId s' = next
          /\ AppState.isScanning s' = true)
      /\ (next = "" -> AppState.graphData s' = AppState.graphData s)
  | [] =>
      AppState.graphData s' = AppState.graphData s
      /\ AppState.parsedUsers s' = AppState.parsedUsers s
      /\ AppState.isScanning s' = false
  end.
Proof.
  intros Hs. unfold Scanner.stream_complete, Scanner.onclose,
    Scanner.onclose_timer, Scanner.onmessage_complete.
  simpl. rewrite Hs. simpl.
  destruct (AppState.scanQueue s) as [|next rest]; simpl.
  - auto.
  - unfold Scanner.startScanForId.
    destruct (String.eqb next "") eqn:E; simpl.
    + apply String.eqb_eq in E. repeat split; auto; congruence.
    + apply String.eqb_neq in E. repeat split; auto; congruence.
Qed.

Lemma queue_transition_restarts_graph_witness :
  AppState.isScanning first_target_scanned = true
  /\ AppState.graphData
       (Scanner.stream_complete [] "-1001" first_target_scanned)
     = emptyGraph.
Proof.
  split; [reflexivity|].
  destruct (queue_transition_restarts_graph [] "-1001" first_target_scanned
              eq_refl) as [_ [H _]].
  apply H. discriminate.
Defined.

(** C1 fails as stated: with the second target still queued, the node found
    under the first target is gone once the first stream has completed and
    the second scan has begun. *)
Lemma queue_continuity_counterexample :
  AppState.scanQueue first_target_scanned = ["-1002"]
  /\ map GraphNode.id
       (GraphData.nodes (AppState.graphData first_target_scanned)) = ["u_1"]
  /\ AppState.scanTargetChatId
       (Scanner.stream_complete [] "-1001" first_target_scanned) = "-1002"
  /\ AppState.graphData
       (Scanner.stream_complete [] "-1001" first_target_scanned)
     <> AppState.graphData first_target_scanned.
Proof.
  repeat split; try reflexivity.
  vm_compute. discriminate.
Qed.

(** ** What an update does to a node already in the graph *)

Lemma observe_account_node data nm k n :
  JsMap.get k nm = Some n ->
  JsMap.get k (observe_account data nm)
  = Some (if String.eqb k (user_id_of (UserData.id data))
          then merge_existing data n else n).
Proof.
  intros G. unfold observe_account.
  destruct (String.eqb k (user_id_of (UserData.id data))) eqn:E.
  - apply String.eqb_eq in E. subst k. rewrite G. apply get_set_eq.
  - destruct (JsMap.get (user_id_of (UserData.id data)) nm);
      rewrite get_set, E; exact G.
Qed.

Lemma observe_gift_node tid ru maps g k n :
  JsMap.get k (fst maps) = Some n ->
  JsMap.get k (fst (observe_gift tid ru maps g))
  = Some (gift_touch ru k n g).
Proof.
  destruct maps as [nm lm]. simpl. intros G.
  unfold observe_gift, gift_touch.
  destruct (Js.truthy_num (Gift.sender_id g)); simpl; [|exact G].
  destruct (String.eqb k (user_id_of (Gift.sender_id g))) eqn:E.
  - apply String.eqb_eq in E. subst k. rewrite G. apply get_set_eq.
  - destruct (JsMap.get (user_id_of (Gift.sender_id g)) nm);
      rewrite get_set, E; exact G.
Qed.

Lemma observe_gifts_node tid ru gifts : forall maps k n,
  JsMap.get k (fst maps) = Some n ->
  JsMap.get k (fst (fold_left (observe_gift tid ru) gifts maps))
  = Some (fold_left (gift_touch ru k) gifts n).
Proof.
  induction gifts as [|g gifts IH]; intros maps k n G; simpl; [exact G|].
  apply IH. now apply observe_gift_node.
Qed.

Lemma apply_update_node u maps k n :
  JsMap.get k (fst maps) = Some n ->
  JsMap.get k (fst (apply_update u maps)) = Some (node_after u k n).
Proof.
  intros G. destruct u as [m|data|data|d|ty]; simpl; try exact G.
  - now apply observe_account_node.
  - destruct (UserData.channel_links data).
    + apply link_channels_get_node. simpl. now apply observe_account_node.
    + simpl. now apply observe_account_node.
  - now apply observe_gifts_node.
Qed.

Lemma node_of_process u s k :
  (forall m, u <> log m) ->
  node_of (processScanUpdate u s) k
  = JsMap.get k (fst (apply_update u (working_maps s))).
Proof.
  intros Hu. rewrite process_commit by exact Hu.
  apply node_of_commit, updated_maps_ok.
Qed.

(** A node, once in the graph, stays, changed only as [node_after] says. *)
Lemma node_of_update u s k n :
  node_of s k = Some n ->
  node_of (processScanUpdate u s) k = Some (node_after u k n).
Proof.
  intros G. destruct u as [m|data|data|d|ty];
    try (rewrite node_of_process by discriminate;
         now apply apply_update_node).
  exact G.
Qed.

(** Labels. *)

Lemma upgrade_sender_resolved n rs :
  Js.startsWith "U_" (GraphNode.label n) = false ->
  upgrade_sender n rs = n.
Proof.
  intros H. unfold upgrade_sender. rewrite H. now destruct rs.
Qed.

Lemma gift_touch_resolved ru k gifts : forall n,
  Js.startsWith "U_" (GraphNode.label n) = false ->
  fold_left (gift_touch ru k) gifts n = n.
Proof.
  induction gifts as [|g gifts IH]; intros n H; simpl; [reflexivity|].
  unfold gift_touch at 2.
  destruct (_ && _); [rewrite upgrade_sender_resolved by exact H|];
    now apply IH.
Qed.

Lemma node_after_resolved u k n :
  Js.startsWith "U_" (GraphNode.label n) = false ->
  Js.startsWith "U_" (GraphNode.label (node_after u k n)) = false.
Proof.
  intros H. destruct u as [m|data|data|d|ty]; simpl; try exact H.
  1,2: destruct (String.eqb k _); [|exact H];
       rewrite merge_existing_label;
       destruct (UserData.username data) as [x|]; [|exact H];
       destruct (String.eqb x ""); [exact H | reflexivity].
  now rewrite gift_touch_resolved.
Qed.

(** ** Labels of existing nodes *)

(** C6, as the code has it.  On an account node that already exists, an
    account-observed event sets the label to ["@" ++ username] exactly when
    it carries a non-empty username, and leaves the label as it is
    otherwise, whatever first name it carries: on this path a first name
    never replaces a label, not even a placeholder.  The gift path is the
    one that looks at the label: a gift event whose sender is resolved
    replaces a label that starts with the placeholder prefix ["U_"] by the
    resolved username, else by the resolved first name, and leaves every
    other label alone.  And no update of any kind turns a label that does
    not start with ["U_"] into one that does: a resolved label is never
    downgraded to a placeholder. *)
Theorem label_upgrade_rule (s : AppState.t) (data : UserData.t)
  (n : GraphNode.t) :
  node_of s (user_id_of (UserData.id data)) = Some n ->
  (forall u, u = user_found data \/ u = user_detail data ->
     exists n',
       node_of (processScanUpdate u s) (user_id_of (UserData.id data))
       = Some n'
       /\ (forall x, UserData.username data = Some x -> x <> "" ->
           GraphNode.label n' = "@" ++ x)
       /\ (Js.truthy (UserData.username data) = false ->
           GraphNode.label n' = GraphNode.label n))
  /\ (forall R S ru m r,
        Js.truthy_num S = true ->
        node_of s (user_id_of S) = Some m ->
        resolved_sender ru S = Some r ->
        exists m',
          node_of (processScanUpdate (gift_event R S ru) s) (user_id_of S)
          = Some m'
          /\ GraphNode.label m'
             = if Js.startsWith "U_" (GraphNode.label m)
               then if Js.truthy (ResolvedUser.username r)
                    then "@" ++ Js.or_else (ResolvedUser.username r) ""
                    else if Js.truthy (ResolvedUser.first_name r)
                         then Js.or_else (ResolvedUser.first_name r) ""
                         else GraphNode.label m
               else GraphNode.label m)
  /\ (forall u k m,
        node_of s k = Some m ->
        Js.startsWith "U_" (GraphNode.label m) = false ->
        exists m',
          node_of (processScanUpdate u s) k = Some m'
          /\ Js.startsWith "U_" (GraphNode.label m') = false).
Proof.
  intros G. split; [|split].
  - intros u Hu. exists (node_after u (user_id_of (UserData.id data)) n).
    split; [now apply node_of_update|].
    assert (E : GraphNode.label
                  (node_after u (user_id_of (UserData.id data)) n)
                = match UserData.username data with
                  | Some x => if String.eqb x "" then GraphNode.label n
                              else "@" ++ x
                  | None => GraphNode.label n
                  end).
    { destruct Hu as [-> | ->]; simpl; rewrite String.eqb_refl;
        apply merge_existing_label. }
    rewrite E. split.
    + intros x -> Hx. apply String.eqb_neq in Hx. now rewrite Hx.
    + intros Hu0. unfold Js.truthy in Hu0.
      destruct (UserData.username data) as [x|]; [|reflexivity].
      destruct (String.eqb x ""); [reflexivity | discriminate].
  - intros R S ru m r HS Gm Hr.
    exists (node_after (gift_event R S ru) (user_id_of S) m).
    split; [now apply node_of_update|].
    unfold gift_event, node_after. cbn [GiftsData.gifts
      GiftsData.resolved_users fold_left].
    unfold gift_touch. cbn [Gift.sender_id].
    rewrite HS, String.eqb_refl, Hr. cbn [andb].
    unfold upgrade_sender, resolved_label.
    destruct (Js.startsWith "U_" (GraphNode.label m)); [|reflexivity].
    destruct (Js.truthy (ResolvedUser.username r)); [reflexivity|].
    destruct (ResolvedUser.first_name r) as [f|]; [|reflexivity].
    cbn [Js.truthy Js.or_else].
    destruct (String.eqb f ""); reflexivity.
  - intros u k m Gm Hm. exists (node_after u k m).
    split; [now apply node_of_update | now apply node_after_resolved].
Qed.

(** Account 5 is known under the placeholder ["U_5"]; it is observed
    again with a first name and no username, and keeps the placeholder. *)
Lemma label_upgrade_rule_witness :
  exists n',
    node_of (processScanUpdate (user_found five_first_name)
               (processScanUpdate (user_found found_via) initialState))
      "u_5" = Some n'
    /\ GraphNode.label n' = "U_5".
Proof.
  destruct (proj1 (label_upgrade_rule
                     (processScanUpdate (user_found found_via) initialState)
                     five_first_name
                     (GraphNode.mk "u_5" "U_5" "member" 4.5%Q (Some "") None
                        (Some false) (Some "@t"))
                     eq_refl)
              (user_found five_first_name) (or_introl eq_refl))
    as [n' [G [_ H]]].
  exists n'. split; [exact G|]. exact (H eq_refl).
Defined.

(** C6 fails as stated: a node whose label is still the placeholder keeps
    it when a first name arrives without a username. *)
Lemma label_upgrade_counterexample :
  let s := processScanUpdate gift_2_to_1 initialState in
  let s' := processScanUpdate (user_found bob_first_name) s in
  option_map GraphNode.label (node_of s "u_2")
  = Some (placeholder (Js.number 2))
  /\ UserData.first_name bob_first_name = Some "Bob"
  /\ option_map GraphNode.label (node_of s' "u_2") = Some "U_2"
  /\ option_map GraphNode.label (node_of s' "u_2") <> Some "Bob".
Proof.
  repeat split; try reflexivity. vm_compute. discriminate.
Qed.

(** ** Records and the nodes they come from *)

Lemma In_values_get {V} (key : V -> string) (m : JsMap.t V) v :
  JsMap.keyed key m -> NoDup (JsMap.keys m) ->
  In v (JsMap.values m) -> JsMap.get (key v) m = Some v.
Proof.
  intros Hk Hnd Hin. apply in_map_iff in Hin as [[k v'] [E Hin]].
  simpl in E. subst v'. apply In_get; [assumption|].
  unfold JsMap.keyed in Hk. rewrite Forall_forall in Hk.
  specialize (Hk _ Hin). simpl in Hk. now rewrite <- Hk.
Qed.

Lemma get_In_values {V} (m : JsMap.t V) k v :
  JsMap.get k m = Some v -> In v (JsMap.values m).
Proof.
  intros G. apply get_Some_In in G.
  change v with (snd (k, v)). now apply in_map.
Qed.

Lemma record_for_id nm lm n :
  ParsedUser.id (record_for nm lm n) = GraphNode.id n.
Proof. unfold record_for. now rewrite run_id. Qed.

Lemma record_for_discoveredFrom nm lm n :
  ParsedUser.discoveredFrom (record_for nm lm n) = GraphNode.discoveredFrom n.
Proof.
  unfold record_for. now rewrite run_discoveredFrom.
Qed.

Lemma record_for_sourceType nm lm n :
  ParsedUser.sourceType (record_for nm lm n)
  = if Js.truthy_flag (GraphNode.isTarget n) then target
    else if existsb (sends (account_label nm) (GraphNode.id n))
              (JsMap.values lm)
         then gifter else discovered.
Proof.
  unfold record_for. rewrite run_sourceType. simpl.
  now destruct (Js.truthy_flag (GraphNode.isTarget n)).
Qed.

Lemma record_for_sent nm lm n :
  ParsedUser.totalGiftsSent (record_for nm lm n)
  = sent_sum (account_label nm) (GraphNode.id n) (JsMap.values lm).
Proof. unfold record_for. now rewrite run_sent. Qed.

Lemma record_for_received nm lm n :
  ParsedUser.totalGiftsReceived (record_for nm lm n)
  = received_sum (account_label nm) (GraphNode.id n) (JsMap.values lm).
Proof. unfold record_for. now rewrite run_received. Qed.

(** Every record of the view is the record of the node stored under its
    id, and that node is not of the channel group. *)
Lemma project_record_node nm lm r :
  maps_ok (nm, lm) ->
  In r (project nm lm) ->
  exists n, JsMap.get (ParsedUser.id r) nm = Some n
            /\ is_channel n = false
            /\ r = record_for nm lm n.
Proof.
  intros Hok Hin. rewrite project_records in Hin by exact Hok.
  apply in_map_iff in Hin as [n [<- Hin]].
  apply filter_In in Hin as [Hin Hc].
  exists n. rewrite record_for_id. repeat split.
  - destruct Hok as [[Hk Hnd] _]. now apply (In_values_get GraphNode.id).
  - now destruct (is_channel n).
Qed.

(** Conversely every node that is not of the channel group has its
    record. *)
Lemma project_node_record nm lm k n :
  maps_ok (nm, lm) ->
  JsMap.get k nm = Some n -> is_channel n = false ->
  In (record_for nm lm n) (project nm lm).
Proof.
  intros Hok G Hc. rewrite project_records by exact Hok.
  apply in_map. apply filter_In. split.
  - eapply get_In_values; eauto.
  - now rewrite Hc.
Qed.

Lemma find_record nm lm k :
  maps_ok (nm, lm) ->
  find (fun r => String.eqb (ParsedUser.id r) k) (project nm lm)
  = match JsMap.get k nm with
    | Some n => if is_channel n then None else Some (record_for nm lm n)
    | None => None
    end.
Proof.
  intros Hok.
  destruct (find _ (project nm lm)) as [r|] eqn:F.
  - apply find_some in F as [Hin E]. apply String.eqb_eq in E.
    destruct (project_record_node nm lm r Hok Hin) as [n [G [Hc ->]]].
    rewrite E in G. now rewrite G, Hc.
  - destruct (JsMap.get k nm) as [n|] eqn:G; [|reflexivity].
    destruct (is_channel n) eqn:Hc; [reflexivity|].
    exfalso.
    pose proof (project_node_record nm lm k n Hok G Hc) as Hin.
    apply (find_none _ _ F) in Hin.
    rewrite record_for_id in Hin.
    destruct Hok as [[Hk _] _]. simpl in Hk.
    rewrite (keyed_get GraphNode.id k n nm Hk G) in Hin.
    now rewrite String.eqb_refl in Hin.
Qed.

(** The state after an update, in terms of its own working maps. *)
Lemma parsedUsers_process u s :
  (forall m, u <> log m) ->
  AppState.parsedUsers (processScanUpdate u s)
  = project (fst (working_maps (processScanUpdate u s)))
      (snd (working_maps (processScanUpdate u s))).
Proof.
  intros Hu. rewrite process_commit by exact Hu.
  rewrite working_commit by apply updated_maps_ok. reflexivity.
Qed.

Lemma working_maps_process u s :
  (forall m, u <> log m) ->
  working_maps (processScanUpdate u s) = apply_update u (working_maps s).
Proof.
  intros Hu. rewrite process_commit by exact Hu.
  apply working_commit, updated_maps_ok.
Qed.

(** ** Provenance and the target flag *)

Lemma merge_existing_discoveredFrom data n :
  Js.truthy (GraphNode.discoveredFrom n) = true ->
  GraphNode.discoveredFrom (merge_existing data n)
  = GraphNode.discoveredFrom n.
Proof.
  intros H. unfold merge_existing.
  repeat break_if; simpl in *; try reflexivity;
    rewrite H in *; simpl in *; rewrite ?andb_false_r in *; discriminate.
Qed.



Lemma upgrade_sender_rest n rs :
  GraphNode.discoveredFrom (upgrade_sender n rs) = GraphNode.discoveredFrom n
  /\ GraphNode.isTarget (upgrade_sender n rs) = GraphNode.isTarget n
  /\ GraphNode.group (upgrade_sender n rs) = GraphNode.group n.
Proof. unfold upgrade_sender. repeat break_if; auto. Qed.

Lemma gift_touch_rest ru k gifts : forall n,
  let n' := fold_left (gift_touch ru k) gifts n in
  GraphNode.discoveredFrom n' = GraphNode.discoveredFrom n
  /\ GraphNode.isTarget n' = GraphNode.isTarget n
  /\ GraphNode.group n' = GraphNode.group n.
Proof.
  induction gifts as [|g gifts IH]; intros n; simpl; [auto|].
  destruct (IH (gift_touch ru k n g)) as [H1 [H2 H3]].
  rewrite H1, H2, H3. unfold gift_touch.
  destruct (_ && _); [apply upgrade_sender_rest | auto].
Qed.

Lemma node_after_discoveredFrom u k n :
  Js.truthy (GraphNode.discoveredFrom n) = true ->
  GraphNode.discoveredFrom (node_after u k n) = GraphNode.discoveredFrom n.
Proof.
  intros H. destruct u as [m|data|data|d|ty]; simpl; try reflexivity.
  1,2: destruct (String.eqb k _); [|reflexivity];
       now apply merge_existing_discoveredFrom.
  apply gift_touch_rest.
Qed.

Lemma node_after_isTarget u k n :
  GraphNode.isTarget n = Some true ->
  GraphNode.isTarget (node_after u k n) = Some true.
Proof.
  intros H. destruct u as [m|data|data|d|ty]; simpl; try exact H.
  1,2: destruct (String.eqb k _); [|exact H];
       rewrite merge_existing_isTarget, H; reflexivity.
  now rewrite (proj1 (proj2 (gift_touch_rest _ _ _ _))).
Qed.

(** Over a run of updates: a node stays, and a provenance that is set
    stays what it is. *)
Lemma processAll_provenance us : forall s k n,
  node_of s k = Some n ->
  Js.truthy (GraphNode.discoveredFrom n) = true ->
  exists n', node_of (processAll us s) k = Some n'
             /\ GraphNode.discoveredFrom n' = GraphNode.discoveredFrom n.
Proof.
  induction us as [|u us IH]; intros s k n G H; simpl.
  - now exists n.
  - destruct (IH (processScanUpdate u s) k (node_after u k n)) as [n' [G' E]].
    + now apply node_of_update.
    + now rewrite node_after_discoveredFrom.
    + exists n'. split; [exact G'|].
      now rewrite E, node_after_discoveredFrom.
Qed.

Lemma first_account_node e data s :
  e = user_found data \/ e = user_detail data ->
  node_of s (user_id_of (UserData.id data)) = None ->
  node_of (processScanUpdate e s) (user_id_of (UserData.id data))
  = Some (new_account data).
Proof.
  intros He G.
  assert (Hn : forall m, e <> log m).
  { intros m. destruct He as [-> | ->]; discriminate. }
  rewrite node_of_process by exact Hn.
  assert (G1 : JsMap.get (user_id_of (UserData.id data))
                 (observe_account data (fst (working_maps s)))
               = Some (new_account data)).
  { unfold observe_account. unfold node_of in G. simpl. rewrite G.
    apply get_set_eq. }
  destruct He as [-> | ->]; simpl; [exact G1|].
  destruct (UserData.channel_links data); [|exact G1].
  now apply link_channels_get_node.
Qed.

Lemma truthy_Some p : p <> "" -> Js.truthy (Some p) = true.
Proof. intros H. simpl. apply String.eqb_neq in H. now rewrite H. Qed.

(** The record emitted for an id after an update carries the provenance
    of its node, and is a target exactly when the node's flag is set. *)
Lemma record_of_node u s r :
  (forall m, u <> log m) ->
  In r (AppState.parsedUsers (processScanUpdate u s)) ->
  exists n,
    node_of (processScanUpdate u s) (ParsedUser.id r) = Some n
    /\ is_channel n = false
    /\ r = record_for (fst (working_maps (processScanUpdate u s)))
             (snd (working_maps (processScanUpdate u s))) n.
Proof.
  intros Hu Hin. rewrite parsedUsers_process in Hin by exact Hu.
  apply project_record_node in Hin; [exact Hin|].
  apply working_maps_ok.
Qed.

(** ** Roles *)

Lemma graph_process u s :
  (forall m, u <> log m) ->
  AppState.graphData (processScanUpdate u s)
  = GraphData.mk (JsMap.values (fst (working_maps (processScanUpdate u s))))
      (JsMap.values (snd (working_maps (processScanUpdate u s)))).
Proof.
  intros Hu. rewrite process_commit by exact Hu.
  rewrite working_commit by apply updated_maps_ok. reflexivity.
Qed.

Lemma classify_record u s r :
  (forall m, u <> log m) ->
  In r (AppState.parsedUsers (processScanUpdate u s)) ->
  classify (AppState.graphData (processScanUpdate u s)) (ParsedUser.id r)
  = Some (ParsedUser.sourceType r).
Proof.
  intros Hu Hin.
  destruct (record_of_node u s r Hu Hin) as [n [G [Hc E]]].
  set (s' := processScanUpdate u s) in *.
  assert (Hid : ParsedUser.id r = GraphNode.id n).
  { rewrite E. apply record_for_id. }
  assert (Hl : GraphData.links (AppState.graphData s')
               = JsMap.values (snd (working_maps s'))).
  { unfold s'. rewrite (graph_process u s Hu) at 1. reflexivity. }
  assert (Hst : ParsedUser.sourceType r
                = if Js.truthy_flag (GraphNode.isTarget n) then target
                  else if existsb
                            (sends (account_label (fst (working_maps s')))
                               (GraphNode.id n))
                            (JsMap.values (snd (working_maps s')))
                       then gifter else discovered).
  { rewrite E. apply record_for_sourceType. }
  unfold classify. unfold node_of in G. rewrite G, Hc, Hst, Hl, Hid.
  reflexivity.
Qed.

Lemma existsb_sends lbl k links :
  lbl k <> None ->
  existsb (sends lbl k) links = true
  <-> exists l, In l links
                /\ GraphLink.source l = k
                /\ Js.startsWith "c_" (GraphLink.target l) = false
                /\ lbl (GraphLink.target l) <> None.
Proof.
  intros Hk. rewrite existsb_exists. unfold sends, counts_as_gift.
  split.
  - intros [l [Hin H]]. exists l. split; [exact Hin|].
    apply andb_true_iff in H as [H E]. apply String.eqb_eq in E.
    subst k. split; [reflexivity|].
    destruct (lbl (GraphLink.source l)); [|discriminate].
    destruct (lbl (GraphLink.target l)); [|discriminate].
    apply negb_true_iff in H. split; [exact H | discriminate].
  - intros [l [Hin [E [Hc Ht]]]]. exists l. split; [exact Hin|].
    subst k. rewrite String.eqb_refl, andb_true_r.
    destruct (lbl (GraphLink.source l)); [|congruence].
    destruct (lbl (GraphLink.target l)); [|congruence].
    now rewrite Hc.
Qed.

(** ** Link keys determine their ends *)

Lemma split_at_dash a : forall b t t',
  dashfree a = true -> dashfree b = true ->
  a ++ "-" ++ t = b ++ "-" ++ t' -> a = b /\ t = t'.
Proof.
  induction a as [|c a IH]; intros [|d b] t t' Ha Hb E; simpl in *.
  - injection E as E. auto.
  - injection E as <- E. discriminate.
  - injection E as -> E. discriminate.
  - injection E as -> E.
    apply andb_true_iff in Ha as [_ Ha]. apply andb_true_iff in Hb as [_ Hb].
    destruct (IH b t t' Ha Hb E) as [-> ->]. auto.
Qed.

Lemma id_text_key a b t t' :
  id_text a -> id_text b ->
  a ++ "-" ++ t = b ++ "-" ++ t' -> a = b /\ t = t'.
Proof.
  intros [sa [ba [-> [Hsa [Hna Hda]]]]] [sb [bb [-> [Hsb [Hnb Hdb]]]]] E.
  destruct Hsa as [-> | ->], Hsb as [-> | ->]; simpl in *.
  - now apply split_at_dash.
  - destruct ba as [|c ba]; [congruence|]. simpl in *.
    injection E as -> E. discriminate.
  - destruct bb as [|c bb]; [congruence|]. simpl in *.
    injection E as <- E. discriminate.
  - injection E as E. destruct (split_at_dash ba bb t t' Hda Hdb E) as [-> ->].
    auto.
Qed.

Lemma uint_text_dashfree d : dashfree (NilEmpty.string_of_uint d) = true.
Proof. induction d; simpl; auto. Qed.

Lemma uint_text d :
  NilZero.string_of_uint d <> "" /\ dashfree (NilZero.string_of_uint d) = true.
Proof.
  destruct d; simpl; split; try discriminate; try reflexivity;
    apply uint_text_dashfree.
Qed.

Lemma str_id_text i : id_text (Js.str i).
Proof.
  destruct i as [| |z]; simpl.
  - exists "", "undefined". repeat split; auto. discriminate.
  - exists "", "null". repeat split; auto. discriminate.
  - unfold Js.num_str. destruct (Z.to_int z) as [d|d]; simpl.
    + exists "", (NilZero.string_of_uint d).
      destruct (uint_text d). auto.
    + exists "-", (NilZero.string_of_uint d).
      destruct (uint_text d). auto.
Qed.

Lemma link_key_inj i j t t' :
  link_key (user_id_of i) t = link_key (user_id_of j) t' ->
  user_id_of i = user_id_of j /\ t = t'.
Proof.
  unfold link_key, user_id_of. intros E.
  cbn [append] in E. injection E as E.
  destruct (id_text_key _ _ _ _ (str_id_text i) (str_id_text j) E)
    as [-> ->].
  auto.
Qed.

(** ** What holds in every reachable state *)

Lemma Forall_values_set {V} (P : V -> Prop) k v (m : JsMap.t V) :
  Forall P (JsMap.values m) -> P v -> Forall P (JsMap.values (JsMap.set k v m)).
Proof.
  intros Hm Hv. induction m as [|[k' v'] m IH]; simpl.
  - now repeat constructor.
  - inversion Hm as [|? ? Hh Ht]; subst.
    destruct (String.eqb k k'); simpl; constructor; auto.
Qed.

Lemma Forall_values_get {V} (P : V -> Prop) k v (m : JsMap.t V) :
  Forall P (JsMap.values m) -> JsMap.get k m = Some v -> P v.
Proof.
  intros Hm G. rewrite Forall_forall in Hm. apply Hm.
  eapply get_In_values; eauto.
Qed.

Lemma has_set_mono {V} k k' (v : V) m :
  JsMap.has k m = true -> JsMap.has k (JsMap.set k' v m) = true.
Proof. intros H. rewrite has_set, H. apply orb_true_r. Qed.

Lemma link_ok_mono nm nm' l :
  (forall k, JsMap.has k nm = true -> JsMap.has k nm' = true) ->
  link_ok nm l -> link_ok nm' l.
Proof. intros Hm [H1 [H2 H3]]. repeat split; auto. Qed.

Lemma links_ok_mono nm nm' links :
  (forall k, JsMap.has k nm = true -> JsMap.has k nm' = true) ->
  Forall (link_ok nm) links -> Forall (link_ok nm') links.
Proof.
  intros Hm H. eapply Forall_impl; [|exact H].
  intros l. now apply link_ok_mono.
Qed.

Lemma observe_account_has data nm k :
  JsMap.has k nm = true -> JsMap.has k (observe_account data nm) = true.
Proof.
  intros H. unfold observe_account.
  destruct (JsMap.get _ nm); now apply has_set_mono.
Qed.

Lemma observe_account_has_uid data nm :
  JsMap.has (user_id_of (UserData.id data)) (observe_account data nm) = true.
Proof.
  destruct (observe_account_get data nm) as [n [G _]].
  eapply get_has; eauto.
Qed.

Lemma observe_account_inv data maps :
  graph_inv maps -> graph_inv (observe_account data (fst maps), snd maps).
Proof.
  intros [[Hn Hl] Hf]. split; [split|]; simpl.
  - now apply observe_account_ok.
  - exact Hl.
  - eapply links_ok_mono; [|exact Hf].
    intros k. apply observe_account_has.
Qed.

Lemma link_channel_inv uid maps clink :
  (exists i, uid = user_id_of i) ->
  graph_inv maps /\ JsMap.has uid (fst maps) = true ->
  graph_inv (link_channel uid maps clink)
  /\ JsMap.has uid (fst (link_channel uid maps clink)) = true.
Proof.
  intros [i Hi] [[Hok Hf] Hu].
  assert (Hm : forall k, JsMap.has k (fst maps) = true ->
                 JsMap.has k (fst (link_channel uid maps clink)) = true).
  { intros k Hk. apply has_get in Hk as [n Hn].
    eapply get_has. apply link_channel_get_node. exact Hn. }
  split; [|now apply Hm]. split; [now apply link_channel_ok|].
  assert (Hf' : Forall (link_ok (fst (link_channel uid maps clink)))
                  (JsMap.values (snd maps))).
  { eapply links_ok_mono; [exact Hm | exact Hf]. }
  pose proof (Hm uid Hu) as Hu'.
  destruct maps as [nm lm]. unfold link_channel in *. simpl in *.
  destruct (negb (JsMap.has (link_key uid (channel_id_of clink)) lm)).
  - apply Forall_values_set; [exact Hf'|].
    split; [|split]; simpl.
    + now exists i.
    + exists 1. split; [reflexivity | lia].
    + exact Hu'.
  - exact Hf'.
Qed.

Lemma observe_gift_has tid ru maps g k :
  JsMap.has k (fst maps) = true ->
  JsMap.has k (fst (observe_gift tid ru maps g)) = true.
Proof.
  intros H. apply has_get in H as [n Hn].
  eapply get_has. apply observe_gift_node. exact Hn.
Qed.

Lemma observe_gift_inv tid ru maps g :
  graph_inv maps -> graph_inv (observe_gift tid ru maps g).
Proof.
  intros [Hok Hf]. split; [now apply observe_gift_ok|].
  pose proof (observe_gift_has tid ru maps g) as Hm.
  destruct maps as [nm lm]. simpl in *.
  unfold observe_gift in *.
  destruct (negb (Js.truthy_num (Gift.sender_id g))); [exact Hf|].
  simpl in *.
  set (srcId := user_id_of (Gift.sender_id g)) in *.
  set (nm' := match JsMap.get srcId nm with
              | Some existingNode => _
              | None => _
              end) in *.
  assert (Hs : JsMap.has srcId nm' = true).
  { unfold nm'. destruct (JsMap.get srcId nm);
      rewrite has_set, String.eqb_refl; reflexivity. }
  destruct (JsMap.get (link_key srcId tid) lm) as [l|] eqn:G.
  - apply Forall_values_set.
    + eapply links_ok_mono; [exact Hm | exact Hf].
    + destruct (Forall_values_get _ _ _ _ Hf G) as [H1 [[v [Hv Hv1]] H3]].
      repeat split; simpl.
      * exact H1.
      * eexists. split; [reflexivity|]. rewrite Hv. simpl.
        destruct (v =? 0); lia.
      * now apply Hm.
  - apply Forall_values_set.
    + eapply links_ok_mono; [exact Hm | exact Hf].
    + repeat split; simpl.
      * now exists (Gift.sender_id g).
      * exists 1. split; [reflexivity | lia].
      * exact Hs.
Qed.

Lemma apply_update_inv u maps :
  graph_inv maps -> graph_inv (apply_update u maps).
Proof.
  intros H. destruct u as [m|data|data|d|ty]; simpl; try exact H.
  - now apply observe_account_inv.
  - destruct (UserData.channel_links data) as [links|].
    + apply (fold_left_inv
               (fun maps =>
                  graph_inv maps
                  /\ JsMap.has (user_id_of (UserData.id data)) (fst maps)
                     = true)).
      * intros a b. apply link_channel_inv. now exists (UserData.id data).
      * split; [now apply observe_account_inv|].
        apply observe_account_has_uid.
    + now apply observe_account_inv.
  - apply fold_left_inv; [|exact H].
    intros a b. apply observe_gift_inv.
Qed.

Lemma user_id_not_channel i : Js.startsWith "c_" (user_id_of i) = false.
Proof. reflexivity. Qed.

Lemma channel_id_is_channel clink :
  Js.startsWith "c_" (channel_id_of clink) = true.
Proof. unfold channel_id_of, Js.startsWith. simpl. now destruct clink. Qed.

Lemma node_ok_account n i : GraphNode.id n = user_id_of i -> node_ok n.
Proof.
  intros E H. rewrite E, user_id_not_channel in H. discriminate.
Qed.

Lemma observe_account_nodes data maps :
  nodes_inv maps -> nodes_inv (observe_account data (fst maps), snd maps).
Proof.
  intros [Hk Hf]. unfold nodes_inv. simpl. unfold observe_account.
  destruct (JsMap.get _ (fst maps)) as [n|] eqn:G; split;
    try (apply keyed_set; [exact Hk|]);
    try (apply Forall_values_set; [exact Hf|]).
  - rewrite merge_existing_id. symmetry. eapply keyed_get; eauto.
  - apply (node_ok_account _ (UserData.id data)).
    rewrite merge_existing_id. eapply keyed_get; eauto.
  - reflexivity.
  - now apply (node_ok_account _ (UserData.id data)).
Qed.

Lemma link_channel_nodes uid maps clink :
  nodes_inv maps -> nodes_inv (link_channel uid maps clink).
Proof.
  destruct maps as [nm lm]. intros [Hk Hf].
  unfold nodes_inv, link_channel. simpl in *.
  destruct (negb (JsMap.has (channel_id_of clink) nm)); simpl;
    [|now split].
  split.
  - now apply keyed_set.
  - apply Forall_values_set; [exact Hf|]. intros _. reflexivity.
Qed.

Lemma observe_gift_nodes tid ru maps g :
  nodes_inv maps -> nodes_inv (observe_gift tid ru maps g).
Proof.
  destruct maps as [nm lm]. intros [Hk Hf].
  unfold nodes_inv, observe_gift. simpl in *.
  destruct (negb (Js.truthy_num (Gift.sender_id g))); simpl; [now split|].
  destruct (JsMap.get _ nm) as [n|] eqn:G; split;
    try (apply keyed_set; [exact Hk|]);
    try (apply Forall_values_set; [exact Hf|]).
  - rewrite upgrade_sender_id. symmetry. eapply keyed_get; eauto.
  - apply (node_ok_account _ (Gift.sender_id g)).
    rewrite upgrade_sender_id. eapply keyed_get; eauto.
  - reflexivity.
  - now apply (node_ok_account _ (Gift.sender_id g)).
Qed.

Lemma apply_update_nodes u maps :
  nodes_inv maps -> nodes_inv (apply_update u maps).
Proof.
  intros H. destruct u as [m|data|data|d|ty]; simpl; try exact H.
  - now apply observe_account_nodes.
  - destruct (UserData.channel_links data) as [links|].
    + apply fold_left_inv; [|now apply observe_account_nodes].
      intros a b. apply link_channel_nodes.
    + now apply observe_account_nodes.
  - apply fold_left_inv; [|exact H].
    intros a b. apply observe_gift_nodes.
Qed.

Lemma state_inv_init : state_inv initialState.
Proof.
  repeat split; simpl; constructor.
Qed.

Lemma state_inv_update u s : state_inv s -> state_inv (processScanUpdate u s).
Proof.
  intros [[Hg Hn] [Hd Hp]].
  destruct u as [m|data|data|d|ty];
    try (rewrite process_commit by discriminate;
         unfold state_inv;
         rewrite working_commit by apply updated_maps_ok;
         split; [split; [now apply apply_update_inv
                        | now apply apply_update_nodes]
                | split; reflexivity]).
  split; [split; [exact Hg | exact Hn] | split; [exact Hd | exact Hp]].
Qed.

Lemma state_inv_startScan s : state_inv (startScan s).
Proof. repeat split; simpl; constructor. Qed.

Lemma Reachable_inv s : Reachable s -> state_inv s.
Proof.
  induction 1
    as [|u s _ IH|s _ IH|s _ IH|msg s _ IH|q s _ IH|c s _ IH|t s _ IH].
  - apply state_inv_init.
  - now apply state_inv_update.
  - apply state_inv_startScan.
  - exact IH.
  - exact IH.
  - exact IH.
  - exact IH.
  - exact IH.
Qed.

(** ** Membership *)

Lemma filter_none {A} (f : A -> bool) (l : list A) :
  (forall x, In x l -> f x = false) -> filter f l = [].
Proof.
  induction l as [|a l IH]; intros H; simpl; [reflexivity|].
  rewrite (H a) by now left. apply IH. intros x Hx. apply H. now right.
Qed.

Lemma filter_unique {A} (key : A -> string) (l : list A) x :
  NoDup (map key l) -> In x l ->
  filter (fun y => String.eqb (key y) (key x)) l = [x].
Proof.
  induction l as [|a l IH]; simpl; [tauto|].
  intros Hnd Hin. inversion Hnd as [|? ? Hni Hnd']; subst.
  destruct Hin as [->|Hin].
  - rewrite String.eqb_refl. f_equal.
    apply filter_none.
    intros y Hy. apply String.eqb_neq. intros E. apply Hni.
    rewrite <- E. now apply in_map.
  - destruct (String.eqb (key a) (key x)) eqn:E.
    + apply String.eqb_eq in E. exfalso. apply Hni. rewrite E.
      now apply in_map.
    + now apply IH.
Qed.

(** In a graph whose links leave account ids, the links between two ids
    are the links stored under their key. *)
Lemma links_between_key (links : list GraphLink.t) i t :
  Forall (fun l => exists j, GraphLink.source l = user_id_of j) links ->
  filter (fun l => String.eqb (GraphLink.source l) (user_id_of i)
                   && String.eqb (GraphLink.target l) t) links
  = filter (fun l => String.eqb (linkKey l) (link_key (user_id_of i) t))
      links.
Proof.
  intros Hf. apply filter_ext_in. intros l Hin.
  rewrite Forall_forall in Hf. destruct (Hf l Hin) as [j Hj].
  destruct (String.eqb (linkKey l) _) eqn:E.
  - apply String.eqb_eq in E. unfold linkKey in E. rewrite Hj in E.
    apply link_key_inj in E as [E1 E2].
    rewrite Hj, E1, E2, !String.eqb_refl. reflexivity.
  - apply andb_false_iff.
    destruct (String.eqb (GraphLink.source l) (user_id_of i)) eqn:E1;
      [|now left].
    destruct (String.eqb (GraphLink.target l) t) eqn:E2; [|now right].
    apply String.eqb_eq in E1, E2. unfold linkKey in E.
    rewrite E1, E2, String.eqb_refl in E. discriminate.
Qed.

Lemma state_inv_sources s :
  state_inv s ->
  Forall (fun l => exists j, GraphLink.source l = user_id_of j)
    (GraphData.links (AppState.graphData s)).
Proof.
  intros [[[_ Hf] _] [Hd _]]. rewrite Hd. simpl.
  eapply Forall_impl; [|exact Hf]. intros l [H _]. exact H.
Qed.

(** The one link stored under a key, seen from the state. *)
Lemma links_between_one s i t l :
  state_inv s ->
  JsMap.get (link_key (user_id_of i) t) (snd (working_maps s)) = Some l ->
  links_between s (user_id_of i) t = [l].
Proof.
  intros Hs G. unfold links_between.
  rewrite links_between_key by now apply state_inv_sources.
  destruct Hs as [[[[_ [Hk Hnd]] _] _] [Hd _]]. rewrite Hd. simpl.
  rewrite <- (keyed_get linkKey _ _ _ Hk G).
  apply filter_unique.
  - rewrite <- (keyed_keys linkKey) by exact Hk. exact Hnd.
  - eapply get_In_values; eauto.
Qed.

Lemma links_between_none s i t :
  state_inv s ->
  JsMap.get (link_key (user_id_of i) t) (snd (working_maps s)) = None ->
  links_between s (user_id_of i) t = [].
Proof.
  intros Hs G. unfold links_between.
  rewrite links_between_key by now apply state_inv_sources.
  destruct Hs as [[[[_ [Hk Hnd]] _] _] [Hd _]]. rewrite Hd. simpl.
  apply filter_none.
  intros l Hin. apply String.eqb_neq. intros E.
  apply (In_values_get linkKey _ _ Hk Hnd) in Hin.
  rewrite E in Hin. congruence.
Qed.

Lemma nodes_with_id_one s k n :
  state_inv s ->
  node_of s k = Some n ->
  nodes_with_id s k = [n].
Proof.
  intros [[[[[Hk Hnd] _] _] _] [Hd _]] G. unfold nodes_with_id.
  rewrite Hd. simpl. unfold node_of in G.
  rewrite <- (keyed_get GraphNode.id _ _ _ Hk G).
  apply filter_unique.
  - rewrite <- (keyed_keys GraphNode.id) by exact Hk. exact Hnd.
  - eapply get_In_values; eauto.
Qed.

Lemma Reachable_iter u n s :
  Reachable s -> Reachable (Nat.iter n (processScanUpdate u) s).
Proof.
  intros H. induction n as [|n IH]; simpl; [exact H|].
  now apply reach_update.
Qed.

(** C7.  From any reachable state, applying an account-channel-links event
    (a [user_detail] carrying channel links) that names the pair
    (account, channel) any number of times, once or more, leaves exactly
    one membership link from the account to the channel and exactly one
    node under the channel's id, of the channel group; applying the event
    once more changes nothing in the store. *)
Theorem membership_idempotent (s : AppState.t) (data : UserData.t)
  (links : list string) (clink : string) (n : nat) :
  Reachable s ->
  UserData.channel_links data = Some links ->
  In clink links ->
  (1 <= n)%nat ->
  let sn := Nat.iter n (processScanUpdate (user_detail data)) s in
  let uid := user_id_of (UserData.id data) in
  let cid := channel_id_of clink in
  (exists l, links_between sn uid cid = [l]
             /\ GraphLink.source l = uid /\ GraphLink.target l = cid)
  /\ (exists c, nodes_with_id sn cid = [c]
                /\ GraphNode.id c = cid /\ GraphNode.group c = "channel")
  /\ processScanUpdate (user_detail data) sn = sn.
Proof.
  intros Hr Hl Hin Hn sn uid cid.
  destruct n as [|m]; [lia|].
  set (s0 := Nat.iter m (processScanUpdate (user_detail data)) s).
  assert (Hsn : sn = processScanUpdate (user_detail data) s0) by reflexivity.
  assert (Hr0 : Reachable s0) by now apply Reachable_iter.
  assert (Hi : state_inv sn).
  { rewrite Hsn. now apply Reachable_inv, reach_update. }
  assert (Hw : working_maps sn
               = fold_left (link_channel uid) links
                   (observe_account data (fst (working_maps s0)),
                    snd (working_maps s0))).
  { rewrite Hsn, working_maps_process by discriminate. simpl.
    now rewrite Hl. }
  destruct (link_channels_has uid links
              (observe_account data (fst (working_maps s0)),
               snd (working_maps s0)) clink Hin) as [H1 H2].
  rewrite <- Hw in H1, H2. fold cid in H1, H2.
  apply has_get in H1 as [c Hc]. apply has_get in H2 as [l Hl2].
  repeat split.
  - exists l. split; [now apply links_between_one|].
    destruct Hi as [[[[_ [Hk _]] Hf] _] _].
    pose proof (keyed_get linkKey _ _ _ Hk Hl2) as E.
    destruct (Forall_values_get _ _ _ _ Hf Hl2) as [[j Hj] _].
    unfold linkKey in E. rewrite Hj in E.
    apply link_key_inj in E as [E1 E2]. rewrite Hj. auto.
  - exists c. split; [now apply nodes_with_id_one|].
    destruct Hi as [[_ [Hk Hf]] _].
    pose proof (keyed_get GraphNode.id _ _ _ Hk Hc) as E.
    split; [exact E|].
    apply (Forall_values_get _ _ _ _ Hf Hc). rewrite E.
    apply channel_id_is_channel.
  - rewrite Hsn. apply process_account_twice. exists data. auto.
Qed.

Lemma membership_idempotent_witness :
  exists l,
    links_between
      (Nat.iter 2 (processScanUpdate (user_detail alice_links))
         (processScanUpdate alice_found initialState))
      "u_1" "c_newschannel" = [l]
    /\ GraphLink.source l = "u_1" /\ GraphLink.target l = "c_newschannel".
Proof.
  exact (proj1 (membership_idempotent
                  (processScanUpdate alice_found initialState)
                  alice_links ["newschannel"] "newschannel" 2
                  (reach_update _ _ reach_init) eq_refl
                  (or_introl eq_refl) ltac:(lia))).
Defined.

(** ** Senders created by gift events *)


Lemma observe_gift_has_link tid ru maps g k :
  JsMap.has k (snd maps) = true ->
  JsMap.has k (snd (observe_gift tid ru maps g)) = true.
Proof.
  destruct maps as [nm lm]. simpl. intros H. unfold observe_gift.
  destruct (negb (Js.truthy_num (Gift.sender_id g))); simpl; [exact H|].
  destruct (JsMap.get _ lm); now apply has_set_mono.
Qed.

Lemma apply_update_has_link u maps k :
  JsMap.has k (snd maps) = true ->
  JsMap.has k (snd (apply_update u maps)) = true.
Proof.
  intros H. destruct u as [m|data|data|d|ty]; simpl; try exact H.
  - destruct (UserData.channel_links data) as [links|]; [|exact H].
    apply has_get in H as [l0 Hl0]. eapply get_has.
    apply link_channels_get_link. exact Hl0.
  - apply fold_left_inv; [|exact H].
    intros a b. apply observe_gift_has_link.
Qed.

Lemma new_sender_born srcId i rs : gift_born (new_sender srcId i rs).
Proof. repeat split. Qed.

Lemma gift_touch_born ru k g n : gift_born n -> gift_born (gift_touch ru k n g).
Proof.
  intros [H1 [H2 H3]]. unfold gift_touch, gift_born.
  destruct (_ && _); [|auto].
  destruct (upgrade_sender_rest n
              (resolved_sender ru (Gift.sender_id g))) as [E1 [E2 E3]].
  now rewrite E1, E2, E3.
Qed.

Lemma gift_touches_born ru k gifts : forall n,
  gift_born n -> gift_born (fold_left (gift_touch ru k) gifts n).
Proof.
  induction gifts as [|g gifts IH]; intros n Hb; simpl; [exact Hb|].
  apply IH. now apply gift_touch_born.
Qed.

(** One gift entry of the sender: afterwards the sender has a node, born
    of a gift if it is new, and its link to the recipient is there. *)
Lemma observe_gift_sender tid ru maps g :
  Js.truthy_num (Gift.sender_id g) = true ->
  let sid := user_id_of (Gift.sender_id g) in
  (JsMap.get sid (fst maps) = None
   \/ exists n, JsMap.get sid (fst maps) = Some n /\ gift_born n) ->
  (exists n, JsMap.get sid (fst (observe_gift tid ru maps g)) = Some n
             /\ gift_born n)
  /\ JsMap.has (link_key sid tid) (snd (observe_gift tid ru maps g)) = true.
Proof.
  destruct maps as [nm lm]. simpl. intros Ht H.
  unfold observe_gift. rewrite Ht. simpl. split.
  - destruct H as [G | [n [G Hb]]]; rewrite G.
    + eexists. split; [apply get_set_eq | apply new_sender_born].
    + eexists. split; [apply get_set_eq|].
      pose proof (gift_touch_born ru (user_id_of (Gift.sender_id g)) g n Hb)
        as Hb'.
      unfold gift_touch in Hb'. now rewrite Ht, String.eqb_refl in Hb'.
  - destruct (JsMap.get _ lm); rewrite has_set, String.eqb_refl; reflexivity.
Qed.

Lemma observe_gift_keeps_born tid ru maps g k :
  (JsMap.get k (fst maps) = None
   \/ exists n, JsMap.get k (fst maps) = Some n /\ gift_born n) ->
  JsMap.get k (fst (observe_gift tid ru maps g)) = None
  \/ exists n, JsMap.get k (fst (observe_gift tid ru maps g)) = Some n
               /\ gift_born n.
Proof.
  intros [G | [n [G Hb]]].
  - destruct maps as [nm lm]. simpl in *. unfold observe_gift.
    destruct (negb (Js.truthy_num (Gift.sender_id g))); simpl; [now left|].
    destruct (String.eqb k (user_id_of (Gift.sender_id g))) eqn:E.
    + apply String.eqb_eq in E. subst k. rewrite G. right.
      eexists. split; [apply get_set_eq | apply new_sender_born].
    + left. destruct (JsMap.get (user_id_of (Gift.sender_id g)) nm);
        rewrite get_set, E; exact G.
  - right. exists (gift_touch ru k n g). split.
    + now apply observe_gift_node.
    + now apply gift_touch_born.
Qed.

Lemma observe_gifts_sender tid ru gifts g : forall maps,
  In g gifts ->
  Js.truthy_num (Gift.sender_id g) = true ->
  let sid := user_id_of (Gift.sender_id g) in
  (JsMap.get sid (fst maps) = None
   \/ exists n, JsMap.get sid (fst maps) = Some n /\ gift_born n) ->
  (exists n,
     JsMap.get sid (fst (fold_left (observe_gift tid ru) gifts maps)) = Some n
     /\ gift_born n)
  /\ JsMap.has (link_key sid tid)
       (snd (fold_left (observe_gift tid ru) gifts maps)) = true.
Proof.
  induction gifts as [|g0 gifts IH]; intros maps Hin Ht sid H; [destruct Hin|].
  simpl. destruct Hin as [-> | Hin].
  - destruct (observe_gift_sender tid ru maps g Ht H) as [[n [G Hb]] Hl].
    fold sid in G, Hl. split.
    + exists (fold_left (gift_touch ru sid) gifts n). split.
      * now apply observe_gifts_node.
      * now apply gift_touches_born.
    + apply fold_left_inv; [|exact Hl].
      intros a b. apply observe_gift_has_link.
  - apply IH; try assumption. now apply observe_gift_keeps_born.
Qed.

Lemma node_after_born u k n :
  observes_account k u = false -> gift_born n -> gift_born (node_after u k n).
Proof.
  intros Hu Hb. destruct u as [m|data|data|d|ty]; try exact Hb.
  - unfold node_after. unfold observes_account in Hu.
    now rewrite String.eqb_sym, Hu.
  - unfold node_after. unfold observes_account in Hu.
    now rewrite String.eqb_sym, Hu.
  - unfold node_after. now apply gift_touches_born.
Qed.

Lemma has_link_update u s k :
  JsMap.has k (snd (working_maps s)) = true ->
  JsMap.has k (snd (working_maps (processScanUpdate u s))) = true.
Proof.
  intros H. destruct u as [m|data|data|d|ty];
    try (rewrite working_maps_process by discriminate;
         now apply apply_update_has_link).
  exact H.
Qed.

Lemma sender_run us k lkey : forall s n,
  Forall (fun u => observes_account k u = false) us ->
  node_of s k = Some n -> gift_born n ->
  JsMap.has lkey (snd (working_maps s)) = true ->
  (exists n', node_of (processAll us s) k = Some n' /\ gift_born n')
  /\ JsMap.has lkey (snd (working_maps (processAll us s))) = true.
Proof.
  induction us as [|u us IH]; intros s n Hus G Hb Hl; simpl.
  - split; [now exists n | exact Hl].
  - inversion Hus as [|? ? Hu Hus']; subst.
    apply (IH (processScanUpdate u s) (node_after u k n)).
    + exact Hus'.
    + now apply node_of_update.
    + now apply node_after_born.
    + now apply has_link_update.
Qed.

Lemma Reachable_processAll us : forall s,
  Reachable s -> Reachable (processAll us s).
Proof.
  induction us as [|u us IH]; intros s H; simpl; [exact H|].
  apply IH. now apply reach_update.
Qed.

Lemma record_of_inv s k :
  state_inv s ->
  record_of s k
  = match node_of s k with
    | Some n =>
        if is_channel n then None
        else Some (record_for (fst (working_maps s)) (snd (working_maps s)) n)
    | None => None
    end.
Proof.
  intros [[[Hok _] _] [_ Hp]]. unfold record_of. rewrite Hp.
  unfold node_of. apply find_record.
  now destruct (working_maps s).
Qed.

Lemma record_label s k :
  state_inv s ->
  record_of s k <> None ->
  account_label (fst (working_maps s)) k <> None.
Proof.
  intros Hs H. rewrite record_of_inv in H by exact Hs.
  unfold account_label. unfold node_of in H. unfold working_maps. simpl.
  destruct (JsMap.get k _) as [n|]; [|congruence].
  destruct (is_channel n); congruence.
Qed.

Lemma label_record s k :
  state_inv s ->
  account_label (fst (working_maps s)) k <> None ->
  record_of s k <> None.
Proof.
  intros Hs H. rewrite record_of_inv by exact Hs.
  unfold account_label in H. unfold node_of. simpl in H.
  destruct (JsMap.get k _) as [n|]; [|congruence].
  destruct (is_channel n); congruence.
Qed.

Lemma born_not_channel n : gift_born n -> is_channel n = false.
Proof. intros [_ [_ H]]. unfold is_channel. now rewrite H. Qed.

Lemma record_not_channel_id s k :
  state_inv s -> record_of s k <> None -> Js.startsWith "c_" k = false.
Proof.
  intros Hs H. rewrite record_of_inv in H by exact Hs.
  destruct (node_of s k) as [n|] eqn:G; [|congruence].
  destruct (is_channel n) eqn:Hc; [congruence|].
  destruct Hs as [[_ [Hk Hn]] _].
  unfold node_of in G.
  change (nodeMap_of (AppState.graphData s)) with (fst (working_maps s)) in G.
  pose proof (keyed_get GraphNode.id _ _ _ Hk G) as E.
  pose proof (Forall_values_get _ _ _ _ Hn G) as Hok.
  unfold node_ok in Hok. rewrite E in Hok.
  destruct (Js.startsWith "c_" k); [|reflexivity].
  unfold is_channel in Hc. rewrite (Hok eq_refl) in Hc. discriminate.
Qed.

(** C10, as the code has it.  Let a gift event create the node of a sender
    that was not in the graph, and let any updates follow, none of them an
    account-observed event for that sender.  The sender has a projected
    record; its role is never target; its discovered-via field is absent.
    Its role is gifter exactly when one of its links reaches an account
    that has a record of its own in the view, in particular whenever the
    recipient of the gift has one; it is discovered exactly when none of
    its links does. *)
Theorem gift_sender_role (s : AppState.t) (d : GiftsData.t) (g : Gift.t)
  (us : list Update) :
  Reachable s ->
  In g (GiftsData.gifts d) ->
  Js.truthy_num (Gift.sender_id g) = true ->
  let sid := user_id_of (Gift.sender_id g) in
  let rid := user_id_of (GiftsData.user_id d) in
  node_of s sid = None ->
  Forall (fun u => observes_account sid u = false) us ->
  let s' := processAll us (processScanUpdate (user_gifts d) s) in
  exists r,
    record_of s' sid = Some r
    /\ ParsedUser.sourceType r <> target
    /\ ParsedUser.discoveredFrom r = None
    /\ (record_of s' rid <> None -> ParsedUser.sourceType r = gifter)
    /\ (ParsedUser.sourceType r = gifter
        <-> exists l,
              In l (GraphData.links (AppState.graphData s'))
              /\ GraphLink.source l = sid
              /\ record_of s' (GraphLink.target l) <> None)
    /\ (ParsedUser.sourceType r = discovered
        <-> forall l,
              In l (GraphData.links (AppState.graphData s')) ->
              GraphLink.source l = sid ->
              record_of s' (GraphLink.target l) = None).
Proof.
  intros Hr Hin Ht sid rid G0 Hus s'.
  set (s1 := processScanUpdate (user_gifts d) s).
  assert (H1 : (exists n, node_of s1 sid = Some n /\ gift_born n)
               /\ JsMap.has (link_key sid rid) (snd (working_maps s1)) = true).
  { unfold s1. unfold node_of at 1.
    change (nodeMap_of (AppState.graphData ?x)) with (fst (working_maps x)).
    rewrite working_maps_process by discriminate. simpl.
    apply observe_gifts_sender; auto. }
  destruct H1 as [[n1 [G1 Hb1]] Hl1].
  destruct (sender_run us sid (link_key sid rid) s1 n1 Hus G1 Hb1 Hl1)
    as [[n [G Hb]] Hl].
  change (processAll us s1) with s' in G, Hl.
  assert (Hi : state_inv s').
  { apply Reachable_inv, Reachable_processAll. now apply reach_update. }
  assert (Hid : GraphNode.id n = sid).
  { destruct Hi as [[[[[Hkn _] _] _] _] _].
    eapply (keyed_get GraphNode.id); [exact Hkn | exact G]. }
  assert (La : account_label (fst (working_maps s')) sid <> None).
  { unfold account_label. unfold node_of in G.
    change (fst (working_maps s'))
      with (nodeMap_of (AppState.graphData s')).
    rewrite G, born_not_channel by exact Hb. discriminate. }
  assert (Hlinks : GraphData.links (AppState.graphData s')
                   = JsMap.values (snd (working_maps s'))).
  { destruct Hi as [_ [Hd _]]. rewrite Hd at 1. reflexivity. }
  assert (Hst : ParsedUser.sourceType
                  (record_for (fst (working_maps s'))
                     (snd (working_maps s')) n)
                = if existsb (sends (account_label (fst (working_maps s')))
                                sid)
                       (JsMap.values (snd (working_maps s')))
                  then gifter else discovered).
  { rewrite record_for_sourceType, Hid.
    destruct Hb as [Hb _]. now rewrite Hb. }
  assert (Hex : existsb (sends (account_label (fst (working_maps s'))) sid)
                  (JsMap.values (snd (working_maps s'))) = true
                <-> exists l,
                      In l (GraphData.links (AppState.graphData s'))
                      /\ GraphLink.source l = sid
                      /\ record_of s' (GraphLink.target l) <> None).
  { rewrite (existsb_sends _ _ _ La), Hlinks. split.
    - intros [l [Hl1' [Hl2 [_ Hl4]]]]. exists l.
      repeat split; try assumption. now apply label_record.
    - intros [l [Hl1' [Hl2 Hl3]]]. exists l.
      repeat split; try assumption.
      + now apply (record_not_channel_id s').
      + now apply record_label. }
  exists (record_for (fst (working_maps s')) (snd (working_maps s')) n).
  rewrite Hst.
  split; [|split; [|split; [|split; [|split]]]].
  - rewrite record_of_inv by exact Hi. now rewrite G, born_not_channel.
  - now destruct (existsb _ _).
  - rewrite record_for_discoveredFrom. apply Hb.
  - intros Hrec.
    apply has_get in Hl as [l Hl].
    destruct Hi as [[[[_ [Hk _]] Hf] _] Hrest].
    pose proof (keyed_get linkKey _ _ _ Hk Hl) as E.
    destruct (Forall_values_get _ _ _ _ Hf Hl) as [[j Hj] _].
    unfold linkKey in E. rewrite Hj in E.
    apply link_key_inj in E as [E1 E2].
    assert (Hs : existsb (sends (account_label (fst (working_maps s'))) sid)
                   (JsMap.values (snd (working_maps s'))) = true).
    { apply Hex. exists l. rewrite Hlinks. split.
      - eapply get_In_values; eauto.
      - split; [now rewrite Hj, E1 | now rewrite E2]. }
    now rewrite Hs.
  - rewrite <- Hex. destruct (existsb _ _); split; congruence.
  - split.
    + intros Hd l Hl1' Hl2.
      destruct (record_of s' (GraphLink.target l)) eqn:Hrec; [|reflexivity].
      exfalso.
      assert (Hs : existsb (sends (account_label (fst (working_maps s')))
                              sid)
                     (JsMap.values (snd (working_maps s'))) = true).
      { apply Hex. exists l. repeat split; try assumption.
        rewrite Hrec. discriminate. }
      rewrite Hs in Hd. discriminate.
    + intros Hall.
      assert (Hn : existsb (sends (account_label (fst (working_maps s')))
                              sid)
                     (JsMap.values (snd (working_maps s'))) = false).
      { apply not_true_is_false. intros Hs.
        apply Hex in Hs as [l [Hl1' [Hl2 Hl3]]].
        apply Hl3. now apply Hall. }
      now rewrite Hn.
Qed.

Lemma gift_sender_role_witness :
  exists r,
    record_of
      (processAll [user_found found_via]
         (processScanUpdate gift_2_to_1
            (processScanUpdate alice_found initialState))) "u_2" = Some r
    /\ ParsedUser.sourceType r <> target
    /\ ParsedUser.discoveredFrom r = None.
Proof.
  destruct (gift_sender_role (processScanUpdate alice_found initialState)
              (GiftsData.mk (Js.number 1) [Gift.mk (Js.number 2)] None)
              (Gift.mk (Js.number 2)) [user_found found_via]
              (reach_update _ _ reach_init) (or_introl eq_refl) eq_refl
              eq_refl ltac:(constructor; [reflexivity | constructor]))
    as [r [H1 [H2 [H3 _]]]].
  exists r. auto.
Defined.

(** C10 fails as stated: a sender created by a gift event whose recipient
    has no record is discovered, not gifter. *)
Lemma gift_sender_counterexample :
  let s := processScanUpdate gift_2_to_1 initialState in
  node_of initialState "u_2" = None
  /\ option_map GraphNode.group (node_of s "u_2") = Some "potential_gifter"
  /\ option_map ParsedUser.sourceType (record_of s "u_2") = Some discovered
  /\ option_map ParsedUser.discoveredFrom (record_of s "u_2") = Some None.
Proof. repeat split. Qed.

(** ** An account first observed with a found-via value *)

Lemma record_of_process u s k :
  (forall m, u <> log m) ->
  record_of (processScanUpdate u s) k
  = match node_of (processScanUpdate u s) k with
    | Some n =>
        if is_channel n then None
        else Some (record_for (fst (working_maps (processScanUpdate u s)))
                     (snd (working_maps (processScanUpdate u s))) n)
    | None => None
    end.
Proof.
  intros Hu. unfold record_of. rewrite parsedUsers_process by exact Hu.
  unfold node_of. apply find_record.
  pose proof (working_maps_ok (processScanUpdate u s)) as H.
  now destruct (working_maps (processScanUpdate u s)).
Qed.

Lemma link_channel_get_none uid maps clink k :
  Js.startsWith "c_" k = false ->
  JsMap.get k (fst maps) = None ->
  JsMap.get k (fst (link_channel uid maps clink)) = None.
Proof.
  destruct maps as [nm lm]. simpl. intros Hk G.
  destruct (negb (JsMap.has (channel_id_of clink) nm)); simpl; [|exact G].
  rewrite get_set.
  destruct (String.eqb k (channel_id_of clink)) eqn:E; [|exact G].
  apply String.eqb_eq in E. subst k.
  now rewrite channel_id_is_channel in Hk.
Qed.

Lemma link_channels_get_none uid links : forall maps k,
  Js.startsWith "c_" k = false ->
  JsMap.get k (fst maps) = None ->
  JsMap.get k (fst (fold_left (link_channel uid) links maps)) = None.
Proof.
  induction links as [|c links IH]; intros maps k Hk G; simpl; [exact G|].
  apply IH; [exact Hk|]. now apply link_channel_get_none.
Qed.

Lemma observe_gifts_keeps_born tid ru gifts k : forall maps,
  (JsMap.get k (fst maps) = None
   \/ exists n, JsMap.get k (fst maps) = Some n /\ gift_born n) ->
  JsMap.get k (fst (fold_left (observe_gift tid ru) gifts maps)) = None
  \/ exists n,
       JsMap.get k (fst (fold_left (observe_gift tid ru) gifts maps)) = Some n
       /\ gift_born n.
Proof.
  induction gifts as [|g gifts IH]; intros maps H; simpl; [exact H|].
  apply IH. now apply observe_gift_keeps_born.
Qed.

(** An account that no account-observed event has named has no node, or
    the node a gift event made for it. *)
Lemma unobserved_step u s i :
  observes_account (user_id_of i) u = false ->
  (node_of s (user_id_of i) = None
   \/ exists n, node_of s (user_id_of i) = Some n /\ gift_born n) ->
  node_of (processScanUpdate u s) (user_id_of i) = None
  \/ exists n, node_of (processScanUpdate u s) (user_id_of i) = Some n
               /\ gift_born n.
Proof.
  intros Hu [G | [n [G Hb]]].
  - destruct u as [m|data|data|d|ty].
    + left. exact G.
    + left. rewrite node_of_process by discriminate.
      unfold observes_account in Hu. rewrite String.eqb_sym in Hu.
      cbn [apply_update fst]. unfold observe_account.
      destruct (JsMap.get (user_id_of (UserData.id data)) _);
        rewrite get_set, Hu; exact G.
    + left. rewrite node_of_process by discriminate.
      unfold observes_account in Hu. rewrite String.eqb_sym in Hu.
      cbn [apply_update fst snd].
      assert (G1 : JsMap.get (user_id_of i)
                     (observe_account data (fst (working_maps s))) = None).
      { unfold observe_account.
        destruct (JsMap.get (user_id_of (UserData.id data)) _);
          rewrite get_set, Hu; exact G. }
      destruct (UserData.channel_links data); [|exact G1].
      apply link_channels_get_none; [apply user_id_not_channel | exact G1].
    + rewrite node_of_process by discriminate. simpl.
      apply observe_gifts_keeps_born. now left.
    + left. rewrite node_of_process by discriminate. exact G.
  - right. exists (node_after u (user_id_of i) n). split.
    + now apply node_of_update.
    + now apply node_after_born.
Qed.

Lemma unobserved_run us i : forall s,
  Forall (fun u => observes_account (user_id_of i) u = false) us ->
  (node_of s (user_id_of i) = None
   \/ exists n, node_of s (user_id_of i) = Some n /\ gift_born n) ->
  node_of (processAll us s) (user_id_of i) = None
  \/ exists n, node_of (processAll us s) (user_id_of i) = Some n
               /\ gift_born n.
Proof.
  induction us as [|u us IH]; intros s Hus H; simpl; [exact H|].
  inversion Hus as [|? ? Hu Hus']; subst.
  apply IH; [exact Hus'|]. now apply unobserved_step.
Qed.

(** The first account-observed event of such an account records the
    found-via value it carries. *)
Lemma first_account_provenance e data s p :
  e = user_found data \/ e = user_detail data ->
  (node_of s (user_id_of (UserData.id data)) = None
   \/ exists n, node_of s (user_id_of (UserData.id data)) = Some n
                /\ gift_born n) ->
  UserData.discovered_from data = Some p -> p <> "" ->
  exists n,
    node_of (processScanUpdate e s) (user_id_of (UserData.id data)) = Some n
    /\ GraphNode.discoveredFrom n = Some p
    /\ Js.truthy_flag (GraphNode.isTarget n) = false.
Proof.
  intros He [G | [n [G [Hb1 [Hb2 _]]]]] Hp Hne.
  - exists (new_account data). split; [now apply first_account_node|].
    unfold new_account, Js.or_null. simpl. rewrite Hp.
    rewrite truthy_Some by exact Hne. auto.
  - exists (merge_existing data n). split.
    + rewrite (node_of_update e s _ n G).
      destruct He as [-> | ->]; simpl; now rewrite String.eqb_refl.
    + rewrite merge_existing_provenance, merge_existing_isTarget.
      rewrite Hp, Hb1, Hb2, truthy_Some by exact Hne. auto.
Qed.

(** C2, as the code has it.  Let account A have no node, and let updates
    arrive of which none is an account-observed event for A (gift events
    may create A's node as a sender).  Let A's first account-observed event
    carry a found-via value [p]; let any updates follow; then let an
    account-observed event for A arrive without a found-via value.  A's
    discovered-via field is not cleared: it is still [p], in the graph and
    in A's projected record.  But the event sets A's target flag, and A's
    projected record, which exists unless A's node is of the channel group,
    has role target.  More generally no update changes a discovered-via
    value that is set, and none unsets a target flag that is set. *)
Theorem provenance_stability (s0 : AppState.t) (us0 us : list Update)
  (d1 d2 : UserData.t) (e1 e2 : Update) (p : string) :
  let uid := user_id_of (UserData.id d1) in
  node_of s0 uid = None ->
  Forall (fun u => observes_account uid u = false) us0 ->
  e1 = user_found d1 \/ e1 = user_detail d1 ->
  UserData.discovered_from d1 = Some p -> p <> "" ->
  UserData.id d2 = UserData.id d1 ->
  e2 = user_found d2 \/ e2 = user_detail d2 ->
  Js.truthy (UserData.discovered_from d2) = false ->
  let s' :=
    processScanUpdate e2
      (processAll us (processScanUpdate e1 (processAll us0 s0))) in
  (exists n,
     node_of s' uid = Some n
     /\ GraphNode.discoveredFrom n = Some p
     /\ GraphNode.isTarget n = Some true
     /\ (if is_channel n then record_of s' uid = None
         else exists r,
                record_of s' uid = Some r
                /\ ParsedUser.id r = uid
                /\ ParsedUser.discoveredFrom r = Some p
                /\ ParsedUser.sourceType r = target)
     /\ forall r, In r (AppState.parsedUsers s') -> ParsedUser.id r = uid ->
          ParsedUser.discoveredFrom r = Some p
          /\ ParsedUser.sourceType r = target)
  /\ (forall u s k n,
        node_of s k = Some n ->
        exists n', node_of (processScanUpdate u s) k = Some n'
          /\ (Js.truthy (GraphNode.discoveredFrom n) = true ->
              GraphNode.discoveredFrom n' = GraphNode.discoveredFrom n)
          /\ (GraphNode.isTarget n = Some true ->
              GraphNode.isTarget n' = Some true)).
Proof.
  intros uid G0 Hus0 He1 Hp Hne Hid He2 Hf s'. split.
  - pose proof (unobserved_run us0 (UserData.id d1) s0 Hus0 (or_introl G0))
      as H0.
    destruct (first_account_provenance e1 d1 _ p He1 H0 Hp Hne)
      as [n1 [G1 [Hd1 _]]].
    destruct (processAll_provenance us _ _ _ G1) as [n2 [G2 E2]].
    { rewrite Hd1. now apply truthy_Some. }
    rewrite Hd1 in E2.
    set (s2 := processAll us (processScanUpdate e1 (processAll us0 s0))) in *.
    assert (G3 : node_of s' uid = Some (merge_existing d2 n2)).
    { unfold s'. rewrite (node_of_update e2 s2 uid n2 G2).
      f_equal. destruct He2 as [-> | ->]; simpl; unfold uid;
        rewrite Hid, String.eqb_refl; reflexivity. }
    assert (D3 : GraphNode.discoveredFrom (merge_existing d2 n2) = Some p).
    { rewrite merge_existing_discoveredFrom; [exact E2|].
      rewrite E2. now apply truthy_Some. }
    assert (T3 : GraphNode.isTarget (merge_existing d2 n2) = Some true).
    { rewrite merge_existing_isTarget, Hf. simpl.
      destruct (GraphNode.isTarget n2) as [[|]|]; reflexivity. }
    assert (Hn : forall m, e2 <> log m).
    { intros m. destruct He2 as [-> | ->]; discriminate. }
    exists (merge_existing d2 n2).
    split; [exact G3|]. split; [exact D3|]. split; [exact T3|]. split.
    + pose proof (record_of_process e2 s2 uid Hn) as Hrec.
      fold s' in Hrec. rewrite G3 in Hrec.
      destruct (is_channel (merge_existing d2 n2)); [exact Hrec|].
      eexists. split; [exact Hrec|].
      rewrite record_for_id, record_for_discoveredFrom,
        record_for_sourceType, T3.
      repeat split; [|exact D3].
      eapply (keyed_get GraphNode.id); [|exact G3].
      apply (working_maps_ok s').
    + intros r Hin Hr.
      destruct (record_of_node e2 s2 r Hn Hin) as [n [Gn [_ ->]]].
      rewrite record_for_id in Hr.
      rewrite record_for_id in Gn. rewrite Hr in Gn.
      fold s' in Gn. rewrite G3 in Gn. injection Gn as <-.
      split.
      * now rewrite record_for_discoveredFrom.
      * now rewrite record_for_sourceType, T3.
  - intros u s k n G. exists (node_after u k n).
    split; [now apply node_of_update|]. split.
    + apply node_after_discoveredFrom.
    + apply node_after_isTarget.
Qed.

(** Account 5 gets its node as the sender of a gift; its first
    account-observed event carries the found-via value ["@t"], a later one
    carries none. *)
Lemma provenance_stability_witness :
  exists n,
    node_of (processScanUpdate (user_found found_again)
               (processAll [gift_2_to_1]
                  (processScanUpdate (user_found found_via)
                     (processAll [gift_5_to_1] initialState))))
      "u_5" = Some n
    /\ GraphNode.discoveredFrom n = Some "@t"
    /\ GraphNode.isTarget n = Some true.
Proof.
  destruct (proj1 (provenance_stability initialState [gift_5_to_1]
                     [gift_2_to_1] found_via found_again
                     (user_found found_via) (user_found found_again) "@t"
                     eq_refl
                     ltac:(constructor; [reflexivity | constructor])
                     (or_introl eq_refl) eq_refl
                     ltac:(discriminate) eq_refl (or_introl eq_refl)
                     eq_refl))
    as [n [H1 [H2 [H3 _]]]].
  exists n. auto.
Defined.

(** C2 fails as stated: the later event without a found-via value does
    reclassify the account as target (its discovered-via field is kept). *)
Lemma provenance_counterexample :
  let s1 := processScanUpdate (user_found found_via) initialState in
  let s2 := processScanUpdate (user_found found_again) s1 in
  map ParsedUser.sourceType (AppState.parsedUsers s1) = [discovered]
  /\ map ParsedUser.discoveredFrom (AppState.parsedUsers s1) = [Some "@t"]
  /\ map ParsedUser.id (AppState.parsedUsers s2) = ["u_5"]
  /\ map ParsedUser.discoveredFrom (AppState.parsedUsers s2) = [Some "@t"]
  /\ map ParsedUser.sourceType (AppState.parsedUsers s2) = [target].
Proof. repeat split. Qed.

(** ** Roles, and how the target flag comes about *)

Lemma gift_creates_sender d g s :
  In g (GiftsData.gifts d) ->
  Js.truthy_num (Gift.sender_id g) = true ->
  node_of s (user_id_of (Gift.sender_id g)) = None ->
  exists n,
    node_of (processScanUpdate (user_gifts d) s)
      (user_id_of (Gift.sender_id g)) = Some n
    /\ gift_born n.
Proof.
  intros Hin Ht G0. rewrite node_of_process by discriminate.
  cbn [apply_update].
  now apply observe_gifts_sender; [| |left].
Qed.

Lemma born_run us k : forall s n,
  Forall (fun u => observes_account k u = false) us ->
  node_of s k = Some n -> gift_born n ->
  exists n', node_of (processAll us s) k = Some n' /\ gift_born n'.
Proof.
  induction us as [|u us IH]; intros s n Hus G Hb; simpl.
  - now exists n.
  - inversion Hus as [|? ? Hu Hus']; subst.
    apply (IH (processScanUpdate u s) (node_after u k n)).
    + exact Hus'.
    + now apply node_of_update.
    + now apply node_after_born.
Qed.

Lemma node_after_unobserved u k n :
  observes_account k u = false ->
  GraphNode.isTarget (node_after u k n) = GraphNode.isTarget n.
Proof.
  intros Hu. destruct u as [m|data|data|d|ty]; try reflexivity.
  - unfold node_after. unfold observes_account in Hu.
    now rewrite String.eqb_sym, Hu.
  - unfold node_after. unfold observes_account in Hu.
    now rewrite String.eqb_sym, Hu.
  - unfold node_after. apply gift_touch_rest.
Qed.

Lemma merge_existing_flag data n :
  Js.truthy_flag (GraphNode.isTarget (merge_existing data n))
  = Js.truthy_flag (GraphNode.isTarget n)
    || negb (Js.truthy (UserData.discovered_from data)).
Proof.
  rewrite merge_existing_isTarget.
  destruct (GraphNode.isTarget n) as [[|]|]; simpl; try reflexivity;
    now destruct (Js.truthy (UserData.discovered_from data)).
Qed.

Lemma account_node_after e data s n :
  e = user_found data \/ e = user_detail data ->
  node_of s (user_id_of (UserData.id data)) = Some n ->
  node_of (processScanUpdate e s) (user_id_of (UserData.id data))
  = Some (merge_existing data n).
Proof.
  intros He G. rewrite (node_of_update e s _ n G).
  destruct He as [-> | ->]; simpl; now rewrite String.eqb_refl.
Qed.

(** C3, as the code has it.  The role of every emitted record is a function
    of the stored graph ([classify]), hence the same whatever the arrival
    order of the events that built it.  The precedence is: a node whose
    target flag is set is a target, with or without provenance and gift
    links; otherwise it is a gifter exactly when some link leaves it for an
    id that is not a channel id and that has a record of its own; otherwise
    it is discovered.  The flag, not the absence of provenance, makes a
    target.  An account-observed event that creates the node sets the flag
    exactly when it carries no found-via value; one that finds the node
    there sets the flag when it carries none, and leaves the flag as it is
    when it carries one; no other update touches the flag.  A node that a
    gift event creates for a sender has no provenance and no flag: it is
    not a target as long as no account-observed event names it, and the
    first one that does makes it a target exactly when it carries no
    found-via value. *)
Theorem role_classification (u : Update) (s : AppState.t)
  (r : ParsedUser.t) :
  (forall m, u <> log m) ->
  In r (AppState.parsedUsers (processScanUpdate u s)) ->
  let s' := processScanUpdate u s in
  let g := AppState.graphData s' in
  classify g (ParsedUser.id r) = Some (ParsedUser.sourceType r)
  /\ (exists n,
        node_of s' (ParsedUser.id r) = Some n
        /\ (Js.truthy_flag (GraphNode.isTarget n) = true ->
            ParsedUser.sourceType r = target)
        /\ (Js.truthy_flag (GraphNode.isTarget n) = false ->
            (ParsedUser.sourceType r = gifter
             <-> exists l,
                   In l (GraphData.links g)
                   /\ GraphLink.source l = ParsedUser.id r
                   /\ Js.startsWith "c_" (GraphLink.target l) = false
                   /\ account_label (nodeMap_of g) (GraphLink.target l)
                      <> None)
            /\ (ParsedUser.sourceType r = gifter
                \/ ParsedUser.sourceType r = discovered)))
  /\ (forall u2 s2 r2,
        (forall m, u2 <> log m) ->
        In r2 (AppState.parsedUsers (processScanUpdate u2 s2)) ->
        AppState.graphData (processScanUpdate u2 s2) = g ->
        ParsedUser.id r2 = ParsedUser.id r ->
        ParsedUser.sourceType r2 = ParsedUser.sourceType r)
  /\ (forall e data s0,
        e = user_found data \/ e = user_detail data ->
        let uid := user_id_of (UserData.id data) in
        match node_of s0 uid with
        | None =>
            exists n,
              node_of (processScanUpdate e s0) uid = Some n
              /\ GraphNode.isTarget n
                 = Some (negb (Js.truthy (UserData.discovered_from data)))
        | Some n0 =>
            exists n,
              node_of (processScanUpdate e s0) uid = Some n
              /\ Js.truthy_flag (GraphNode.isTarget n)
                 = Js.truthy_flag (GraphNode.isTarget n0)
                   || negb (Js.truthy (UserData.discovered_from data))
        end)
  /\ (forall e s0 k n0,
        observes_account k e = false ->
        node_of s0 k = Some n0 ->
        exists n,
          node_of (processScanUpdate e s0) k = Some n
          /\ GraphNode.isTarget n = GraphNode.isTarget n0)
  /\ (forall d g0 us e data s0,
        Reachable s0 ->
        In g0 (GiftsData.gifts d) ->
        Js.truthy_num (Gift.sender_id g0) = true ->
        let sid := user_id_of (Gift.sender_id g0) in
        node_of s0 sid = None ->
        Forall (fun u0 => observes_account sid u0 = false) us ->
        e = user_found data \/ e = user_detail data ->
        user_id_of (UserData.id data) = sid ->
        let s1 := processAll us (processScanUpdate (user_gifts d) s0) in
        (exists n1,
           node_of s1 sid = Some n1
           /\ GraphNode.isTarget n1 = None
           /\ GraphNode.discoveredFrom n1 = None
           /\ forall r1, record_of s1 sid = Some r1 ->
                ParsedUser.sourceType r1 <> target)
        /\ (exists n2,
              node_of (processScanUpdate e s1) sid = Some n2
              /\ Js.truthy_flag (GraphNode.isTarget n2)
                 = negb (Js.truthy (UserData.discovered_from data)))).
Proof.
  intros Hu Hin s' g.
  pose proof (classify_record u s r Hu Hin) as Hc. fold s' g in Hc.
  split; [exact Hc|]. split; [|split; [|split; [|split]]].
  - destruct (record_of_node u s r Hu Hin) as [n [G [Hch E]]].
    fold s' in G. exists n. split; [exact G|].
    unfold classify in Hc. unfold node_of in G. fold g in G.
    rewrite G, Hch in Hc. injection Hc as Hc.
    assert (Hl : account_label (nodeMap_of g) (ParsedUser.id r) <> None).
    { unfold account_label. now rewrite G, Hch. }
    split.
    + intros Ht. rewrite Ht in Hc. auto.
    + intros Ht. rewrite Ht in Hc.
      rewrite <- (existsb_sends _ _ _ Hl).
      destruct (existsb _ _); rewrite <- Hc; split; auto;
        split; congruence.
  - intros u2 s2 r2 Hu2 Hin2 Hg Hid.
    pose proof (classify_record u2 s2 r2 Hu2 Hin2) as Hc2.
    rewrite Hg, Hid, Hc in Hc2. now injection Hc2.
  - intros e data s0 He uid.
    destruct (node_of s0 uid) as [n0|] eqn:G0.
    + exists (merge_existing data n0). split.
      * now apply account_node_after.
      * apply merge_existing_flag.
    + exists (new_account data). split.
      * now apply first_account_node.
      * reflexivity.
  - intros e s0 k n0 He G0. exists (node_after e k n0). split.
    + now apply node_of_update.
    + now apply node_after_unobserved.
  - intros d g0 us e data s0 Hr0 Hg0 Ht sid G0 Hus He Hid s1.
    destruct (gift_creates_sender d g0 s0 Hg0 Ht G0) as [n [G Hb]].
    destruct (born_run us sid _ n Hus G Hb) as [n1 [G1 [B1 [B2 B3]]]].
    fold sid in G1. change (processAll us _) with s1 in G1.
    split.
    + exists n1. split; [exact G1|]. split; [exact B1|].
      split; [exact B2|].
      intros r1 Hr1.
      assert (Hi : state_inv s1).
      { apply Reachable_inv, Reachable_processAll. now apply reach_update. }
      rewrite record_of_inv, G1 in Hr1 by exact Hi.
      destruct (is_channel n1); [discriminate|].
      injection Hr1 as <-. rewrite record_for_sourceType, B1.
      simpl. now destruct (existsb _ _).
    + exists (merge_existing data n1). split.
      * rewrite <- Hid. apply account_node_after; [exact He|].
        now rewrite Hid.
      * rewrite merge_existing_flag, B1. reflexivity.
Qed.

Lemma role_classification_witness :
  classify
    (AppState.graphData
       (processScanUpdate gift_2_to_1
          (processScanUpdate alice_found initialState))) "u_2"
  = Some gifter.
Proof.
  exact (proj1 (role_classification gift_2_to_1
                  (processScanUpdate alice_found initialState)
                  (ParsedUser.mk "u_2" "U_2" None [] gifter 0
                     [GiftRef.mk "u_1" "@alice" 1] [] 1 0 None)
                  ltac:(discriminate)
                  (or_intror (or_introl eq_refl)))).
Defined.

(** C3 fails as stated.  A sender created by a gift event has no
    provenance and is a gifter, not a target; and an account with
    provenance and an outgoing gift link is still discovered while the
    recipient has no record, and a target once its flag is set. *)
Lemma role_precedence_counterexample :
  let s1 := processScanUpdate gift_2_to_1
              (processScanUpdate alice_found initialState) in
  let s2 := processScanUpdate gift_2_to_1
              (processScanUpdate (user_found two_found_via) initialState) in
  let s3 := processScanUpdate (user_found bob_first_name) s2 in
  (option_map GraphNode.discoveredFrom (node_of s1 "u_2") = Some None
   /\ option_map ParsedUser.sourceType (record_of s1 "u_2") = Some gifter)
  /\ (option_map GraphNode.discoveredFrom (node_of s2 "u_2")
      = Some (Some "@t")
      /\ map GraphLink.source (links_between s2 "u_2" "u_1") = ["u_2"]
      /\ option_map ParsedUser.sourceType (record_of s2 "u_2")
         = Some discovered)
  /\ (option_map GraphNode.discoveredFrom (node_of s3 "u_2")
      = Some (Some "@t")
      /\ option_map ParsedUser.sourceType (record_of s3 "u_2")
         = Some target).
Proof. repeat split. Qed.

(** ** Gift counts *)

Lemma set_split {V} k (v : V) m :
  JsMap.get k m = Some v ->
  exists pre post,
    m = (pre ++ (k, v) :: post)%list
    /\ forall v', JsMap.set k v' m = (pre ++ (k, v') :: post)%list.
Proof.
  induction m as [|[k0 v0] m IH]; simpl; [discriminate|].
  destruct (String.eqb k k0) eqn:E.
  - apply String.eqb_eq in E. subst k0. intros [= ->].
    exists [], m. split; [reflexivity|]. intros v'. reflexivity.
  - intros G. destruct (IH G) as [pre [post [Hm Hs]]].
    exists ((k0, v0) :: pre), post. split.
    + simpl. now rewrite <- Hm.
    + intros v'. simpl. now rewrite Hs.
Qed.

Lemma sent_sum_app lbl k l1 l2 :
  sent_sum lbl k (l1 ++ l2) = sent_sum lbl k l1 + sent_sum lbl k l2.
Proof.
  induction l1 as [|l l1 IH]; simpl; [reflexivity|].
  destruct (_ && _); lia.
Qed.

Lemma received_sum_app lbl k l1 l2 :
  received_sum lbl k (l1 ++ l2)
  = received_sum lbl k l1 + received_sum lbl k l2.
Proof.
  induction l1 as [|l l1 IH]; simpl; [reflexivity|].
  destruct (_ && _); lia.
Qed.

Lemma sent_sum_cons lbl k l links :
  sent_sum lbl k (l :: links)
  = (if sends lbl k l then gift_count l else 0) + sent_sum lbl k links.
Proof.
  change (sent_sum lbl k (l :: links))
    with (if sends lbl k l then gift_count l + sent_sum lbl k links
          else sent_sum lbl k links).
  destruct (sends lbl k l); lia.
Qed.

Lemma received_sum_cons lbl k l links :
  received_sum lbl k (l :: links)
  = (if receives lbl k l then gift_count l else 0)
    + received_sum lbl k links.
Proof.
  change (received_sum lbl k (l :: links))
    with (if receives lbl k l then gift_count l + received_sum lbl k links
          else received_sum lbl k links).
  destruct (receives lbl k l); lia.
Qed.

Lemma sent_sum_ext lbl lbl' k links :
  (forall l, In l links -> GraphLink.source l = k ->
     counts_as_gift lbl l = counts_as_gift lbl' l) ->
  sent_sum lbl k links = sent_sum lbl' k links.
Proof.
  induction links as [|l links IH]; intros H; simpl; [reflexivity|].
  rewrite IH by (intros l0 Hin; apply H; now right).
  destruct (String.eqb k (GraphLink.source l)) eqn:E.
  - apply String.eqb_eq in E. rewrite (H l); auto. now left.
  - now rewrite !andb_false_r.
Qed.

Lemma received_sum_ext lbl lbl' k links :
  (forall l, In l links -> GraphLink.target l = k ->
     counts_as_gift lbl l = counts_as_gift lbl' l) ->
  received_sum lbl k links = received_sum lbl' k links.
Proof.
  induction links as [|l links IH]; intros H; simpl; [reflexivity|].
  rewrite IH by (intros l0 Hin; apply H; now right).
  destruct (String.eqb k (GraphLink.target l)) eqn:E.
  - apply String.eqb_eq in E. rewrite (H l); auto. now left.
  - now rewrite !andb_false_r.
Qed.

Lemma sent_sum_absent lbl k links : lbl k = None -> sent_sum lbl k links = 0.
Proof.
  intros H. induction links as [|l links IH]; simpl; [reflexivity|].
  rewrite IH.
  destruct (String.eqb k (GraphLink.source l)) eqn:E.
  - apply String.eqb_eq in E. unfold counts_as_gift. now rewrite <- E, H.
  - now rewrite andb_false_r.
Qed.

Lemma counts_ends lbl l :
  Js.startsWith "c_" (GraphLink.target l) = false ->
  counts_as_gift lbl l
  = both_labelled lbl (GraphLink.source l) (GraphLink.target l).
Proof.
  intros Hc. unfold counts_as_gift, both_labelled. rewrite Hc.
  destruct (lbl (GraphLink.source l)), (lbl (GraphLink.target l));
    reflexivity.
Qed.

Lemma counts_kept lbl lbl' l :
  (lbl (GraphLink.source l) = None <-> lbl' (GraphLink.source l) = None) ->
  (lbl (GraphLink.target l) = None <-> lbl' (GraphLink.target l) = None) ->
  counts_as_gift lbl l = counts_as_gift lbl' l.
Proof.
  intros Hs Ht. unfold counts_as_gift.
  destruct (lbl (GraphLink.source l)), (lbl' (GraphLink.source l)),
    (lbl (GraphLink.target l)), (lbl' (GraphLink.target l));
    try reflexivity;
    try (destruct Hs as [Hs1 Hs2];
         (now discriminate Hs1) || (now discriminate Hs2));
    try (destruct Ht as [Ht1 Ht2];
         (now discriminate Ht1) || (now discriminate Ht2)).
Qed.

Lemma received_sum_absent lbl k links :
  lbl k = None -> received_sum lbl k links = 0.
Proof.
  intros H. induction links as [|l links IH]; simpl; [reflexivity|].
  rewrite IH.
  destruct (String.eqb k (GraphLink.target l)) eqn:E.
  - apply String.eqb_eq in E. unfold counts_as_gift. rewrite <- E, H.
    now destruct (lbl (GraphLink.source l)).
  - now rewrite andb_false_r.
Qed.

Lemma has_record_label s k :
  state_inv s ->
  has_record s k
  = match account_label (fst (working_maps s)) k with
    | Some _ => true
    | None => false
    end.
Proof.
  intros Hs. unfold has_record. rewrite record_of_inv by exact Hs.
  unfold account_label, node_of. simpl.
  destruct (JsMap.get k _) as [n|]; [|reflexivity].
  now destruct (is_channel n).
Qed.

Lemma has_record_node s k :
  state_inv s ->
  has_record s k
  = match node_of s k with
    | Some n => negb (is_channel n)
    | None => false
    end.
Proof.
  intros Hs. unfold has_record. rewrite record_of_inv by exact Hs.
  destruct (node_of s k) as [n|]; [|reflexivity].
  now destruct (is_channel n).
Qed.

(** The totals of a record are the sums over the stored links, and 0 for
    an id without a record. *)
Lemma total_sent_links s k :
  state_inv s ->
  total_sent s k
  = sent_sum (account_label (fst (working_maps s))) k
      (JsMap.values (snd (working_maps s))).
Proof.
  intros Hs. unfold total_sent.
  pose proof (record_of_inv s k Hs) as E.
  destruct (node_of s k) as [n|] eqn:G.
  - destruct (is_channel n) eqn:Hc; rewrite E.
    + symmetry. apply sent_sum_absent.
      unfold account_label. unfold node_of in G. simpl. now rewrite G, Hc.
    + rewrite record_for_sent. f_equal.
      destruct Hs as [[[[[Hk _] _] _] _] _].
      eapply (keyed_get GraphNode.id); eauto.
  - rewrite E. symmetry. apply sent_sum_absent.
    unfold account_label. unfold node_of in G. simpl. now rewrite G.
Qed.

Lemma total_received_links s k :
  state_inv s ->
  total_received s k
  = received_sum (account_label (fst (working_maps s))) k
      (JsMap.values (snd (working_maps s))).
Proof.
  intros Hs. unfold total_received.
  pose proof (record_of_inv s k Hs) as E.
  destruct (node_of s k) as [n|] eqn:G.
  - destruct (is_channel n) eqn:Hc; rewrite E.
    + symmetry. apply received_sum_absent.
      unfold account_label. unfold node_of in G. simpl. now rewrite G, Hc.
    + rewrite record_for_received. f_equal.
      destruct Hs as [[[[[Hk _] _] _] _] _].
      eapply (keyed_get GraphNode.id); eauto.
  - rewrite E. symmetry. apply received_sum_absent.
    unfold account_label. unfold node_of in G. simpl. now rewrite G.
Qed.

Section GiftStep.
Variable nm : JsMap.t GraphNode.t.
Variable lm : JsMap.t GraphLink.t.
Variables R S : Js.num.
Variable ru : option (JsMap.t ResolvedUser.t).

Let sid := user_id_of S.
Let rid := user_id_of R.
Let lkey := link_key sid rid.

Hypothesis Hinv : graph_inv (nm, lm).
Hypothesis HS : Js.truthy_num S = true.

Let nm' := fst (observe_gift rid ru (nm, lm) (Gift.mk S)).
Let lm' := snd (observe_gift rid ru (nm, lm) (Gift.mk S)).

Lemma step_nodes :
  nm' = match JsMap.get sid nm with
        | None =>
            JsMap.set sid (new_sender sid S (resolved_sender ru S)) nm
        | Some n =>
            JsMap.set sid (upgrade_sender n (resolved_sender ru S)) nm
        end.
Proof. unfold nm', observe_gift. simpl. rewrite HS. reflexivity. Qed.

Lemma step_links :
  lm' = match JsMap.get lkey lm with
        | Some l =>
            JsMap.set lkey
              (GraphLink.mk (GraphLink.source l) (GraphLink.target l)
                 (Some (Js.num_or (GraphLink.value l) 0 + 1))
                 (Some (gifts_label (Js.num_or (GraphLink.value l) 0 + 1))))
              lm
        | None =>
            JsMap.set lkey (GraphLink.mk sid rid (Some 1) (Some "1 GIFT")) lm
        end.
Proof. unfold lm', observe_gift. simpl. rewrite HS. reflexivity. Qed.

Lemma step_label_other x :
  x <> sid -> account_label nm' x = account_label nm x.
Proof.
  intros Hx. unfold account_label. rewrite step_nodes.
  destruct (JsMap.get sid nm); now rewrite get_set_neq.
Qed.

(** The sender has a record afterwards unless its node is of the channel
    group. *)
Lemma step_label_sender :
  account_label nm' sid
  = match JsMap.get sid nm with
    | Some n =>
        if is_channel n then None
        else Some (GraphNode.label
                     (upgrade_sender n (resolved_sender ru S)))
    | None => Some (GraphNode.label
                      (new_sender sid S (resolved_sender ru S)))
    end.
Proof.
  unfold account_label. rewrite step_nodes.
  destruct (JsMap.get sid nm) as [n|] eqn:G; rewrite get_set_eq.
  - unfold is_channel.
    now rewrite (proj2 (proj2 (upgrade_sender_rest n _))).
  - reflexivity.
Qed.

(** Which ids have a record changes for the sender alone, and only when
    its node is new. *)
Lemma step_label_kept x :
  x <> sid \/ JsMap.get sid nm <> None ->
  account_label nm x = None <-> account_label nm' x = None.
Proof.
  intros H. destruct (String.eqb x sid) eqn:E.
  - apply String.eqb_eq in E. subst x.
    destruct H as [H | H]; [congruence|].
    rewrite step_label_sender. unfold account_label.
    destruct (JsMap.get sid nm) as [n|]; [|congruence].
    destruct (is_channel n); split; congruence.
  - apply String.eqb_neq in E. rewrite step_label_other by exact E.
    reflexivity.
Qed.

Lemma step_source l0 :
  In l0 (JsMap.values lm) -> JsMap.get (GraphLink.source l0) nm <> None.
Proof.
  intros Hin. destruct Hinv as [_ Hf]. simpl in Hf.
  rewrite Forall_forall in Hf. destruct (Hf l0 Hin) as [_ [_ Hh]].
  unfold JsMap.has in Hh.
  destruct (JsMap.get (GraphLink.source l0) nm); congruence.
Qed.

Lemma step_counts l0 :
  In l0 (JsMap.values lm) ->
  GraphLink.target l0 <> sid \/ JsMap.get sid nm <> None ->
  counts_as_gift (account_label nm') l0
  = counts_as_gift (account_label nm) l0.
Proof.
  intros Hin Ht. symmetry. apply counts_kept; apply step_label_kept.
  - destruct (String.eqb (GraphLink.source l0) sid) eqn:E.
    + apply String.eqb_eq in E. right. rewrite <- E.
      now apply step_source.
    + apply String.eqb_neq in E. now left.
  - exact Ht.
Qed.

Lemma step_sent_ext links :
  incl links (JsMap.values lm) ->
  sent_sum (account_label nm') sid links
  = sent_sum (account_label nm) sid links.
Proof.
  intros Hi. apply sent_sum_ext. intros l Hin Hs.
  apply step_counts; [now apply Hi|].
  right. rewrite <- Hs. apply step_source. now apply Hi.
Qed.

Lemma step_received_ext links :
  rid <> sid \/ JsMap.get sid nm <> None
  \/ (forall l, In l (JsMap.values lm) -> GraphLink.target l <> rid) ->
  incl links (JsMap.values lm) ->
  received_sum (account_label nm') rid links
  = received_sum (account_label nm) rid links.
Proof.
  intros Hside Hi. apply received_sum_ext. intros l Hin Ht.
  apply step_counts; [now apply Hi|].
  destruct Hside as [H | [H | H]].
  - left. congruence.
  - now right.
  - exfalso. apply (H l); [now apply Hi | exact Ht].
Qed.

(** The link already stored under the key, if there is one. *)
Lemma step_old_link l :
  JsMap.get lkey lm = Some l ->
  In l (JsMap.values lm)
  /\ GraphLink.source l = sid /\ GraphLink.target l = rid
  /\ (exists v, GraphLink.value l = Some v /\ 1 <= v)
  /\ JsMap.get sid nm <> None.
Proof.
  intros G. destruct Hinv as [[_ [Hk _]] Hf]. simpl in Hk, Hf.
  pose proof (keyed_get linkKey _ _ _ Hk G) as E.
  destruct (Forall_values_get _ _ _ _ Hf G) as [[j Hj] [Hv Hh]].
  unfold linkKey in E. rewrite Hj in E.
  apply link_key_inj in E as [E1 E2].
  assert (Hin : In l (JsMap.values lm)) by (eapply get_In_values; eauto).
  rewrite Hj, E1 in *. repeat split; auto.
  fold sid in Hh. unfold JsMap.has in Hh.
  destruct (JsMap.get sid nm); congruence.
Qed.

Lemma step_counted l :
  GraphLink.source l = sid -> GraphLink.target l = rid ->
  counts_as_gift (account_label nm') l
  = both_labelled (account_label nm') sid rid.
Proof.
  intros Es Et. rewrite counts_ends; [now rewrite Es, Et|].
  rewrite Et. apply user_id_not_channel.
Qed.

(** One more gift from the sender to the recipient adds one to the sum of
    what the sender sent and to the sum of what the recipient received
    when both have a record afterwards, and nothing otherwise. *)
Lemma step_sums :
  sent_sum (account_label nm') sid (JsMap.values lm')
  = sent_sum (account_label nm) sid (JsMap.values lm)
    + (if both_labelled (account_label nm') sid rid then 1 else 0)
  /\ (rid <> sid \/ JsMap.get sid nm <> None
      \/ (forall l, In l (JsMap.values lm) -> GraphLink.target l <> rid) ->
      received_sum (account_label nm') rid (JsMap.values lm')
      = received_sum (account_label nm) rid (JsMap.values lm)
        + (if both_labelled (account_label nm') sid rid then 1 else 0)).
Proof.
  rewrite step_links.
  destruct (JsMap.get lkey lm) as [l|] eqn:G.
  - destruct (step_old_link l G) as [Hin [Es [Et [[v [Ev Hv]] Hn]]]].
    destruct (set_split _ _ _ G) as [pre [post [Hm Hset]]].
    rewrite Hset.
    set (l' := GraphLink.mk (GraphLink.source l) (GraphLink.target l)
                 (Some (Js.num_or (GraphLink.value l) 0 + 1))
                 (Some (gifts_label (Js.num_or (GraphLink.value l) 0 + 1)))).
    assert (Es' : GraphLink.source l' = sid) by exact Es.
    assert (Et' : GraphLink.target l' = rid) by exact Et.
    assert (Hg : gift_count l' = gift_count l + 1).
    { unfold gift_count, l'. cbn [GraphLink.value]. rewrite Ev.
      unfold Js.num_or.
      destruct (v =? 0) eqn:E0; [lia|].
      destruct (v + 1 =? 0) eqn:E1; lia. }
    assert (Hc' : counts_as_gift (account_label nm') l'
                  = both_labelled (account_label nm') sid rid)
      by now apply step_counted.
    assert (Hc : counts_as_gift (account_label nm) l
                 = both_labelled (account_label nm') sid rid).
    { rewrite <- (step_counts l Hin) by now right.
      now apply step_counted. }
    clearbody l'.
    assert (Hvals : JsMap.values lm
                    = (JsMap.values pre ++ l :: JsMap.values post)%list).
    { rewrite Hm. unfold JsMap.values. now rewrite map_app. }
    assert (Hvals' : JsMap.values (pre ++ (lkey, l') :: post)%list
                     = (JsMap.values pre ++ l' :: JsMap.values post)%list).
    { unfold JsMap.values. now rewrite map_app. }
    assert (Hpre : incl (JsMap.values pre) (JsMap.values lm)).
    { rewrite Hvals. apply incl_appl, incl_refl. }
    assert (Hpost : incl (JsMap.values post) (JsMap.values lm)).
    { rewrite Hvals. apply incl_appr, incl_tl, incl_refl. }
    rewrite Hvals'. split.
    + rewrite Hvals.
      rewrite !sent_sum_app, !sent_sum_cons.
      rewrite !step_sent_ext by assumption.
      unfold sends. rewrite Hc', Hc, Es, Es', String.eqb_refl, !andb_true_r.
      destruct (both_labelled (account_label nm') sid rid); lia.
    + intros _. rewrite Hvals.
      rewrite !received_sum_app, !received_sum_cons.
      rewrite !step_received_ext by (auto || assumption).
      unfold receives.
      rewrite Hc', Hc, Et, Et', String.eqb_refl, !andb_true_r.
      destruct (both_labelled (account_label nm') sid rid); lia.
  - rewrite set_absent by exact G.
    set (l' := GraphLink.mk sid rid (Some 1) (Some "1 GIFT")).
    assert (Es' : GraphLink.source l' = sid) by reflexivity.
    assert (Et' : GraphLink.target l' = rid) by reflexivity.
    assert (Hg : gift_count l' = 1) by reflexivity.
    assert (Hc' : counts_as_gift (account_label nm') l'
                  = both_labelled (account_label nm') sid rid)
      by now apply step_counted.
    clearbody l'.
    assert (Hvals' : JsMap.values (lm ++ [(lkey, l')])%list
                     = (JsMap.values lm ++ [l'])%list).
    { unfold JsMap.values. now rewrite map_app. }
    rewrite Hvals'. split.
    + rewrite !sent_sum_app, !sent_sum_cons.
      rewrite !step_sent_ext by apply incl_refl.
      unfold sends. rewrite Hc', Es', String.eqb_refl, !andb_true_r.
      change (sent_sum (account_label nm') sid []) with 0.
      destruct (both_labelled (account_label nm') sid rid); lia.
    + intros Hside.
      rewrite !received_sum_app, !received_sum_cons.
      rewrite !step_received_ext by (exact Hside || apply incl_refl).
      unfold receives. rewrite Hc', Et', String.eqb_refl, !andb_true_r.
      change (received_sum (account_label nm') rid []) with 0.
      destruct (both_labelled (account_label nm') sid rid); lia.
Qed.

Lemma step_link :
  exists l',
    JsMap.get lkey lm' = Some l'
    /\ GraphLink.value l'
       = Some (match JsMap.get lkey lm with
               | Some l => Js.num_or (GraphLink.value l) 0
               | None => 0
               end + 1).
Proof.
  rewrite step_links.
  destruct (JsMap.get lkey lm) as [l|] eqn:G;
    eexists; (split; [apply get_set_eq | reflexivity]).
Qed.
End GiftStep.

Lemma weight_key s i t :
  state_inv s ->
  weight s (user_id_of i) t
  = match JsMap.get (link_key (user_id_of i) t) (snd (working_maps s)) with
    | Some l => Js.num_or (GraphLink.value l) 0
    | None => 0
    end.
Proof.
  intros Hs. unfold weight.
  destruct (JsMap.get _ _) as [l|] eqn:G.
  - rewrite (links_between_one s i t l Hs G). simpl. lia.
  - now rewrite (links_between_none s i t Hs G).
Qed.

Lemma weight_nonneg s i t : state_inv s -> 0 <= weight s (user_id_of i) t.
Proof.
  intros Hs. rewrite weight_key by exact Hs.
  destruct (JsMap.get _ _) as [l|] eqn:G; [|lia].
  destruct Hs as [[[_ Hf] _] _].
  destruct (Forall_values_get _ _ _ _ Hf G) as [_ [[v [Hv Hv1]] _]].
  rewrite Hv. simpl. destruct (v =? 0); lia.
Qed.

(** One gift-observed event with a single entry: the link. *)
Lemma gift_once_link s R S ru :
  state_inv s ->
  Js.truthy_num S = true ->
  let sid := user_id_of S in
  let rid := user_id_of R in
  let s' := processScanUpdate (gift_event R S ru) s in
  state_inv s'
  /\ (exists l, links_between s' sid rid = [l]
                /\ GraphLink.value l = Some (weight s sid rid + 1))
  /\ weight s' sid rid = weight s sid rid + 1.
Proof.
  intros Hs HS sid rid s'.
  assert (Hs' : state_inv s') by now apply state_inv_update.
  assert (Hw : working_maps s'
               = observe_gift rid ru (fst (working_maps s),
                                      snd (working_maps s)) (Gift.mk S)).
  { unfold s', gift_event. rewrite working_maps_process by discriminate.
    simpl. now destruct (working_maps s). }
  pose proof (step_link (fst (working_maps s)) (snd (working_maps s))
                R S ru HS) as [l' [Gl' Hv']].
  rewrite <- (weight_key s S (user_id_of R) Hs) in Hv'.
  fold rid sid in Gl', Hv'. rewrite <- Hw in Gl'.
  split; [exact Hs'|]. split.
  - exists l'. split; [now apply links_between_one | exact Hv'].
  - unfold sid at 1. rewrite weight_key by exact Hs'. fold sid.
    rewrite Gl', Hv'. unfold Js.num_or.
    pose proof (weight_nonneg s S rid Hs) as Hw0. fold sid in Hw0.
    destruct (weight s sid rid + 1 =? 0) eqn:E; lia.
Qed.

(** ** Events without an id, and events without a payload *)

Lemma observe_gift_no_sender tid ru maps g :
  Js.truthy_num (Gift.sender_id g) = false ->
  observe_gift tid ru maps g = maps.
Proof. intros H. destruct maps. unfold observe_gift. now rewrite H. Qed.

(** C4, as the code has it.  An event of an account-observed or
    gift-observed type that arrives without its payload makes the update
    engine throw a [TypeError] before anything is written: the store is
    left exactly as it was, and the socket callback, which has no handler,
    leaves it so (nothing is logged).  An account-observed event whose
    payload is there but whose id is missing is not rejected and no error
    is reported: it is merged like any other, under the node id
    ["u_undefined"] (["u_null"] when the id is [null]), which is in the
    graph after the call (created if it was not there, so that the graph
    then differs from what it was) and has a record in the view unless it
    is of the channel group; the update engine leaves the log as it was,
    and the socket callback logs the account as found.  A gift-observed
    event whose recipient id is missing is not rejected either: it links
    the sender to the id ["u_undefined"] or ["u_null"].  Gift entries
    without a sender id (missing, [null] or 0) are passed over without
    any change to the working maps. *)
Theorem missing_id_not_rejected (s : AppState.t) :
  (forall ty,
     Raw.processScanUpdate (Raw.without_data ty) s = Raw.TypeError s
     /\ forall chatId,
          ScannerView.onmessage chatId (ScannerView.msg_no_data ty) s = s)
  /\ (forall data u,
        UserData.id data = Js.undefined \/ UserData.id data = Js.null ->
        u = user_found data \/ u = user_detail data ->
        let uid := user_id_of (UserData.id data) in
        let s' := processScanUpdate u s in
        Raw.processScanUpdate (Raw.with_data u) s = Raw.returned s'
        /\ (UserData.id data = Js.undefined -> uid = "u_undefined")
        /\ (UserData.id data = Js.null -> uid = "u_null")
        /\ (exists n,
              node_of s' uid = Some n
              /\ GraphNode.id n = uid
              /\ if is_channel n then record_of s' uid = None
                 else exists r, record_of s' uid = Some r
                                /\ ParsedUser.id r = uid)
        /\ (node_of s uid = None ->
            AppState.graphData s' <> AppState.graphData s)
        /\ AppState.logs s' = AppState.logs s
        /\ (Js.truthy (UserData.username data) = false ->
            forall chatId,
              AppState.logs
                (ScannerView.onmessage chatId
                   (ScannerView.msg_update (user_found data)) s)
              = (AppState.logs s
                 ++ [("Found: " ++ Js.str (UserData.id data))%string])%list))
  /\ (forall R S ru,
        Reachable s ->
        R = Js.undefined \/ R = Js.null ->
        Js.truthy_num S = true ->
        let s' := processScanUpdate (gift_event R S ru) s in
        Raw.processScanUpdate (Raw.with_data (gift_event R S ru)) s
        = Raw.returned s'
        /\ (exists l,
              links_between s' (user_id_of S) (user_id_of R) = [l]
              /\ (GraphLink.target l = "u_undefined"
                  \/ GraphLink.target l = "u_null"))
        /\ AppState.logs s' = AppState.logs s)
  /\ (forall tid ru maps g,
        Js.truthy_num (Gift.sender_id g) = false ->
        observe_gift tid ru maps g = maps).
Proof.
  split; [intros ty; split; reflexivity|].
  split; [|split; [|apply observe_gift_no_sender]].
  - intros data u Hid Hu uid s'.
    assert (Hn : forall m, u <> log m).
    { intros m. destruct Hu as [-> | ->]; discriminate. }
    split; [reflexivity|].
    split; [intros E; unfold uid; now rewrite E|].
    split; [intros E; unfold uid; now rewrite E|].
    assert (Hnode : exists n, node_of s' uid = Some n /\ GraphNode.id n = uid).
    { unfold s'. rewrite node_of_process by exact Hn.
      destruct (observe_account_get data (fst (working_maps s)))
        as [n [G _]].
      fold uid in G.
      assert (G' : JsMap.get uid (fst (apply_update u (working_maps s)))
                   = Some n).
      { destruct Hu as [-> | ->]; simpl; [exact G|].
        destruct (UserData.channel_links data); [|exact G].
        now apply link_channels_get_node. }
      exists n. split; [exact G'|].
      eapply (keyed_get GraphNode.id); [|exact G'].
      apply (updated_maps_ok u s). }
    destruct Hnode as [n [G Hidn]].
    split; [|split].
    + exists n. split; [exact G|]. split; [exact Hidn|].
      pose proof (record_of_process u s uid Hn) as Hrec.
      fold s' in Hrec. rewrite G in Hrec.
      destruct (is_channel n); [exact Hrec|].
      eexists. split; [exact Hrec|].
      now rewrite record_for_id.
    + intros G0 E. unfold node_of in G, G0. rewrite E in G. congruence.
    + split; [unfold s'; rewrite process_commit by exact Hn; reflexivity|].
      intros Hname chatId. cbn [ScannerView.onmessage].
      unfold ScannerView.found_name. rewrite Hname.
      rewrite process_commit by discriminate. reflexivity.
  - intros R S ru Hr HR HS s'.
    split; [reflexivity|]. split.
    + destruct (gift_once_link s R S ru (Reachable_inv s Hr) HS)
        as [_ [[l [Hl _]] _]].
      fold s' in Hl. exists l. split; [exact Hl|].
      assert (Hin : In l (links_between s' (user_id_of S) (user_id_of R)))
        by (rewrite Hl; now left).
      apply filter_In in Hin as [_ Hb].
      apply andb_true_iff in Hb as [_ E]. apply String.eqb_eq in E.
      rewrite E. destruct HR as [-> | ->]; auto.
    + unfold s', gift_event. rewrite process_commit by discriminate.
      reflexivity.
Qed.

Lemma missing_id_not_rejected_witness :
  exists n,
    node_of (processScanUpdate (user_found no_id) initialState) "u_undefined"
    = Some n
    /\ GraphNode.id n = "u_undefined".
Proof.
  destruct (proj1 (proj2 (missing_id_not_rejected initialState))
              no_id (user_found no_id) (or_introl eq_refl)
              (or_introl eq_refl))
    as [_ [_ [_ [[n [H1 [H2 _]]] _]]]].
  exists n. split; [exact H1 | exact H2].
Defined.

(** C4 fails as stated: an account-observed event with no id changes the
    graph (a node is created for it) and the view, and so does one whose
    id is [null]. *)
Lemma malformed_event_counterexample :
  let s' := processScanUpdate (user_found no_id) initialState in
  let s'' := processScanUpdate (user_found null_id) initialState in
  UserData.id no_id = Js.undefined
  /\ map GraphNode.id (GraphData.nodes (AppState.graphData s'))
     = ["u_undefined"]
  /\ map ParsedUser.label (AppState.parsedUsers s') = ["U_undefined"]
  /\ AppState.graphData s' <> AppState.graphData initialState
  /\ AppState.logs s' = AppState.logs initialState
  /\ map GraphNode.id (GraphData.nodes (AppState.graphData s''))
     = ["u_null"]
  /\ AppState.graphData s'' <> AppState.graphData initialState.
Proof.
  repeat split; try reflexivity; vm_compute; discriminate.
Qed.

(** One gift-observed event with a single entry: the totals. *)
Lemma gift_once s R S ru :
  state_inv s ->
  Js.truthy_num S = true ->
  let sid := user_id_of S in
  let rid := user_id_of R in
  let s' := processScanUpdate (gift_event R S ru) s in
  let counted := has_record s' sid && has_record s' rid in
  total_sent s' sid = total_sent s sid + (if counted then 1 else 0)
  /\ (rid <> sid \/ node_of s sid <> None
      \/ (forall l, In l (GraphData.links (AppState.graphData s)) ->
            GraphLink.target l <> rid) ->
      total_received s' rid
      = total_received s rid + (if counted then 1 else 0))
  /\ has_record s' sid
     = match node_of s sid with
       | Some n => negb (is_channel n)
       | None => true
       end
  /\ has_record s' rid
     = (if String.eqb rid sid then has_record s' sid else has_record s rid)
  /\ node_of s' sid <> None.
Proof.
  intros Hs HS sid rid s' counted.
  assert (Hs' : state_inv s') by now apply state_inv_update.
  assert (Hw : working_maps s'
               = observe_gift rid ru (fst (working_maps s),
                                      snd (working_maps s)) (Gift.mk S)).
  { unfold s', gift_event. rewrite working_maps_process by discriminate.
    simpl. now destruct (working_maps s). }
  assert (Hl : GraphData.links (AppState.graphData s)
               = JsMap.values (snd (working_maps s))).
  { destruct Hs as [_ [Hd _]]. rewrite Hd at 1. reflexivity. }
  set (nm := fst (working_maps s)) in *.
  set (lm := snd (working_maps s)) in *.
  assert (Hinv : graph_inv (nm, lm)).
  { destruct Hs as [[Hg _] _]. unfold nm, lm. now destruct (working_maps s). }
  pose proof (step_sums nm lm R S ru Hinv HS) as [Hsent Hrecv].
  pose proof (step_label_sender nm lm R S ru HS) as Ls.
  fold rid sid in Hsent, Hrecv, Ls.
  rewrite <- Hw in Hsent, Hrecv, Ls.
  assert (Hc : both_labelled (account_label (fst (working_maps s'))) sid rid
               = counted).
  { unfold counted. rewrite !has_record_label by exact Hs'.
    unfold both_labelled.
    destruct (account_label _ sid), (account_label _ rid); reflexivity. }
  rewrite Hc in Hsent, Hrecv.
  assert (Hsid : has_record s' sid
                 = match node_of s sid with
                   | Some n => negb (is_channel n)
                   | None => true
                   end).
  { rewrite has_record_label by exact Hs'. rewrite Ls.
    change (JsMap.get sid nm) with (node_of s sid).
    destruct (node_of s sid) as [n|]; [|reflexivity].
    now destruct (is_channel n). }
  split; [|split; [|split; [|split]]].
  - rewrite (total_sent_links s' sid Hs'), (total_sent_links s sid Hs).
    exact Hsent.
  - intros Hside.
    rewrite (total_received_links s' rid Hs'), (total_received_links s rid Hs).
    apply Hrecv. rewrite Hl in Hside. exact Hside.
  - exact Hsid.
  - destruct (String.eqb rid sid) eqn:E.
    + apply String.eqb_eq in E. now rewrite E.
    + apply String.eqb_neq in E.
      rewrite !has_record_label by assumption.
      pose proof (step_label_other nm lm R S ru HS rid E) as Ho.
      fold rid sid in Ho. rewrite <- Hw in Ho. now rewrite Ho.
  - unfold node_of.
    change (nodeMap_of (AppState.graphData s')) with (fst (working_maps s')).
    pose proof (step_nodes nm lm R S ru HS) as Hn.
    fold rid sid in Hn. rewrite <- Hw in Hn. rewrite Hn.
    destruct (JsMap.get sid nm); rewrite get_set_eq; discriminate.
Qed.

(** Once the sender has its node, a further gift leaves the records where
    they are. *)
Lemma gift_again s R S ru :
  state_inv s ->
  Js.truthy_num S = true ->
  let sid := user_id_of S in
  let rid := user_id_of R in
  let s' := processScanUpdate (gift_event R S ru) s in
  node_of s sid <> None ->
  has_record s' sid = has_record s sid
  /\ has_record s' rid = has_record s rid.
Proof.
  intros Hs HS sid rid s' Hn.
  destruct (gift_once s R S ru Hs HS) as [_ [_ [H1 [H2 _]]]].
  fold sid rid s' in H1, H2.
  assert (E : has_record s' sid = has_record s sid).
  { rewrite H1, (has_record_node s sid Hs).
    destruct (node_of s sid); congruence. }
  split; [exact E|].
  rewrite H2. destruct (String.eqb rid sid) eqn:Er; [|reflexivity].
  apply String.eqb_eq in Er. now rewrite Er.
Qed.

Lemma empty_graph_totals s k :
  state_inv s ->
  AppState.graphData s = emptyGraph ->
  node_of s k = None /\ total_sent s k = 0 /\ total_received s k = 0.
Proof.
  intros Hs He.
  assert (G : node_of s k = None) by (unfold node_of; now rewrite He).
  split; [exact G|].
  unfold total_sent, total_received.
  rewrite record_of_inv, G by exact Hs. auto.
Qed.

(** C5, as the code has it.  From any reachable state, applying a
    gift-observed event with recipient R and sender S three times leaves
    exactly one link from S to R, whose count is 3 more than before (3 if
    there was none): each observation increments the one link.  In the
    projected records S's total-sent and R's total-received are each 3 more
    than before when both S and R have a record after the events, and are
    what they were otherwise: the projector counts a link only between two
    accounts that both have records.  S has a record afterwards unless its
    node is of the channel group; R has one only if it had one before, or
    if R is S and the events created the node: a gift event creates the
    sender's node but never the recipient's.  (When a gift of S to itself
    creates the node, links that already pointed at S start to count too;
    the statement on total-received leaves that case out.)  From a state
    with an empty graph the totals therefore stay 0 when R is not S, and
    are both 3 when it is. *)
Theorem gift_accumulation (s : AppState.t) (R S : Js.num)
  (ru : option (JsMap.t ResolvedUser.t)) :
  Reachable s ->
  Js.truthy_num S = true ->
  let sid := user_id_of S in
  let rid := user_id_of R in
  let e := gift_event R S ru in
  let s3 := processScanUpdate e (processScanUpdate e (processScanUpdate e s)) in
  let counted := has_record s3 sid && has_record s3 rid in
  (exists l, links_between s3 sid rid = [l]
             /\ GraphLink.source l = sid /\ GraphLink.target l = rid
             /\ GraphLink.value l = Some (weight s sid rid + 3))
  /\ total_sent s3 sid = total_sent s sid + (if counted then 3 else 0)
  /\ (rid <> sid \/ node_of s sid <> None
      \/ (forall l, In l (GraphData.links (AppState.graphData s)) ->
            GraphLink.target l <> rid) ->
      total_received s3 rid
      = total_received s rid + (if counted then 3 else 0))
  /\ (has_record s3 sid = true
      <-> node_of s sid = None \/ record_of s sid <> None)
  /\ (has_record s3 rid = true
      <-> record_of s rid <> None \/ (rid = sid /\ node_of s sid = None))
  /\ (AppState.graphData s = emptyGraph ->
      total_sent s3 sid = (if String.eqb rid sid then 3 else 0)
      /\ total_received s3 rid = (if String.eqb rid sid then 3 else 0)).
Proof.
  intros Hr HS sid rid e s3 counted.
  pose proof (Reachable_inv s Hr) as Hs.
  destruct (gift_once_link s R S ru Hs HS) as [Hs1 [_ W1]].
  fold sid rid e in Hs1, W1.
  destruct (gift_once s R S ru Hs HS) as [T1 [V1 [P1 [Q1 N1]]]].
  fold sid rid e in T1, V1, P1, Q1, N1.
  set (s1 := processScanUpdate e s) in *.
  destruct (gift_once_link s1 R S ru Hs1 HS) as [Hs2 [_ W2]].
  fold sid rid e in Hs2, W2.
  destruct (gift_once s1 R S ru Hs1 HS) as [T2 [V2 [_ [_ N2]]]].
  destruct (gift_again s1 R S ru Hs1 HS N1) as [A2 B2].
  fold sid rid e in T2, V2, N2, A2, B2.
  set (s2 := processScanUpdate e s1) in *.
  destruct (gift_once_link s2 R S ru Hs2 HS) as [Hs3 [[l [Hl Hv]] _]].
  fold sid rid e in Hs3, Hl, Hv.
  destruct (gift_once s2 R S ru Hs2 HS) as [T3 [V3 _]].
  destruct (gift_again s2 R S ru Hs2 HS N2) as [A3 B3].
  fold sid rid e in T3, V3, A3, B3. fold s3 in Hs3, Hl, Hv, T3, V3, A3, B3.
  assert (C3 : has_record s3 sid && has_record s3 rid = counted)
    by reflexivity.
  assert (C2 : has_record s2 sid && has_record s2 rid = counted)
    by (unfold counted; now rewrite A3, B3).
  assert (C1 : has_record s1 sid && has_record s1 rid = counted)
    by (rewrite <- C2; now rewrite A2, B2).
  rewrite C1 in T1, V1. rewrite C2 in T2, V2. rewrite C3 in T3, V3.
  assert (Psid : has_record s3 sid = true
                 <-> node_of s sid = None \/ record_of s sid <> None).
  { rewrite A3, A2, P1. rewrite (record_of_inv s sid Hs).
    destruct (node_of s sid) as [n|].
    - destruct (is_channel n); simpl; split; intros H;
        try discriminate; try reflexivity.
      + destruct H as [H | H]; congruence.
      + right. discriminate.
    - split; auto. }
  assert (Prid : has_record s3 rid = true
                 <-> record_of s rid <> None
                     \/ (rid = sid /\ node_of s sid = None)).
  { rewrite B3, B2, Q1.
    destruct (String.eqb rid sid) eqn:E.
    - apply String.eqb_eq in E. rewrite P1, E.
      rewrite (record_of_inv s sid Hs).
      destruct (node_of s sid) as [n|].
      + destruct (is_channel n); simpl; split; intros H;
          try discriminate; try reflexivity.
        * destruct H as [H | [_ H]]; congruence.
        * left. discriminate.
      + split; auto.
    - apply String.eqb_neq in E. unfold has_record.
      destruct (record_of s rid); split; intros H;
        try discriminate; try reflexivity.
      + left. discriminate.
      + destruct H as [H | [H _]]; congruence. }
  assert (Tsent : total_sent s3 sid
                  = total_sent s sid + (if counted then 3 else 0)).
  { destruct counted; lia. }
  assert (Trecv : rid <> sid \/ node_of s sid <> None
                  \/ (forall l, In l (GraphData.links (AppState.graphData s)) ->
                        GraphLink.target l <> rid) ->
                  total_received s3 rid
                  = total_received s rid + (if counted then 3 else 0)).
  { intros Hside.
    specialize (V1 Hside).
    specialize (V2 (or_intror (or_introl N1))).
    specialize (V3 (or_intror (or_introl N2))).
    destruct counted; lia. }
  split; [|split; [exact Tsent|split; [exact Trecv|split;
    [exact Psid|split; [exact Prid|]]]]].
  - exists l. split; [exact Hl|].
    assert (Hin : In l (links_between s3 sid rid)) by (rewrite Hl; now left).
    apply filter_In in Hin as [_ Hb].
    apply andb_true_iff in Hb as [E1 E2].
    apply String.eqb_eq in E1, E2.
    repeat split; try assumption. rewrite Hv. f_equal. lia.
  - intros He.
    destruct (empty_graph_totals s sid Hs He) as [Gs [Zs _]].
    destruct (empty_graph_totals s rid Hs He) as [Gr [_ Zr]].
    assert (Hside : rid <> sid \/ node_of s sid <> None
                    \/ (forall l,
                          In l (GraphData.links (AppState.graphData s)) ->
                          GraphLink.target l <> rid)).
    { right. right. rewrite He. intros l0 []. }
    rewrite Tsent, (Trecv Hside), Zs, Zr.
    assert (Hc : counted = String.eqb rid sid).
    { unfold counted.
      destruct (String.eqb rid sid) eqn:E.
      - apply String.eqb_eq in E.
        assert (H1 : has_record s3 sid = true) by (apply Psid; now left).
        assert (H2 : has_record s3 rid = true)
          by (apply Prid; right; now split).
        now rewrite H1, H2.
      - apply String.eqb_neq in E.
        assert (H2 : has_record s3 rid = false).
        { apply not_true_is_false. intros H.
          apply Prid in H as [H | [H _]]; [|congruence].
          apply H. rewrite (record_of_inv s rid Hs). now rewrite Gr. }
        now rewrite H2, andb_false_r. }
    rewrite Hc. destruct (String.eqb rid sid); auto.
Qed.

(** Account 1 has a record; three gifts to it from the new sender 2. *)
Lemma gift_accumulation_witness :
  let s := processScanUpdate alice_found initialState in
  let e := gift_event (Js.number 1) (Js.number 2) None in
  let s3 := processScanUpdate e (processScanUpdate e (processScanUpdate e s)) in
  total_sent s3 "u_2" = total_sent s "u_2" + 3
  /\ total_received s3 "u_1" = total_received s "u_1" + 3.
Proof.
  destruct (gift_accumulation
              (processScanUpdate alice_found initialState)
              (Js.number 1) (Js.number 2) None
              (reach_update _ _ reach_init) eq_refl)
    as [_ [H1 [H2 _]]].
  split; [exact H1|].
  apply H2. left. discriminate.
Defined.

(** C5 fails as stated: from the empty state the three events leave one
    link of count 3, but the recipient has no node, so it has no record and
    the sender's total-sent stays 0. *)
Lemma gift_accumulation_counterexample :
  let e := gift_event (Js.number 1) (Js.number 2) None in
  let s3 := processScanUpdate e
              (processScanUpdate e (processScanUpdate e initialState)) in
  map GraphLink.value (links_between s3 "u_2" "u_1") = [Some 3]
  /\ map ParsedUser.id (AppState.parsedUsers s3) = ["u_2"]
  /\ record_of s3 "u_1" = None
  /\ total_sent s3 "u_2" = 0
  /\ total_received s3 "u_1" = 0
  /\ total_sent s3 "u_2" <> 3.
Proof. repeat split. vm_compute. discriminate. Qed.

(** Three gifts of account 2 to itself, from the empty state: account 2
    is then both sender and recipient, and both its totals are 3. *)
Lemma self_gift_from_empty :
  let e := gift_event (Js.number 2) (Js.number 2) None in
  let s3 := processScanUpdate e
              (processScanUpdate e (processScanUpdate e initialState)) in
  total_sent s3 "u_2" = 3 /\ total_received s3 "u_2" = 3.
Proof. split; reflexivity. Qed.

(** * Further properties of the store and of the panels that use it *)

(** ** Updates keep what is there *)

Lemma continues_refl {A} (l : list A) : continues l l.
Proof. exists []. now rewrite app_nil_r. Qed.

Lemma continues_trans {A} (l1 l2 l3 : list A) :
  continues l1 l2 -> continues l2 l3 -> continues l1 l3.
Proof.
  intros [a ->] [b ->]. exists (a ++ b)%list. now rewrite app_assoc.
Qed.

Lemma values_set_continues {V A} (f : V -> A) k v (m : JsMap.t V) :
  (forall v0, JsMap.get k m = Some v0 -> f v0 = f v) ->
  continues (map f (JsMap.values m)) (map f (JsMap.values (JsMap.set k v m))).
Proof.
  induction m as [|[k' v'] m IH]; intros H.
  - now exists [f v].
  - simpl in *. destruct (String.eqb k k') eqn:E.
    + exists []. simpl. rewrite app_nil_r. f_equal. symmetry. now apply H.
    + destruct (IH H) as [more Hm]. exists more.
      unfold JsMap.values in *. simpl. now rewrite Hm.
Qed.

Lemma fold_continues {S B A} (g : S -> list A) (step : S -> B -> S) l :
  (forall s b, continues (g s) (g (step s b))) ->
  forall s, continues (g s) (g (fold_left step l s)).
Proof.
  intros H. induction l as [|b l IH]; intros s; simpl.
  - apply continues_refl.
  - eapply continues_trans; [apply H | apply IH].
Qed.

Lemma observe_account_continues data nm :
  continues (map GraphNode.id (JsMap.values nm))
    (map GraphNode.id (JsMap.values (observe_account data nm))).
Proof.
  unfold observe_account.
  destruct (JsMap.get (user_id_of (UserData.id data)) nm) eqn:G.
  - apply values_set_continues. intros v0 E. rewrite G in E.
    injection E as <-. now rewrite merge_existing_id.
  - apply values_set_continues. intros v0 E. congruence.
Qed.

Lemma link_channel_continues uid maps clink :
  continues (node_ids maps) (node_ids (link_channel uid maps clink))
  /\ continues (link_pairs maps) (link_pairs (link_channel uid maps clink)).
Proof.
  destruct maps as [nm lm]. unfold link_channel, node_ids, link_pairs.
  split; simpl.
  - unfold JsMap.has.
    destruct (JsMap.get (channel_id_of clink) nm) eqn:G; simpl.
    + apply continues_refl.
    + apply values_set_continues. intros v0 E. congruence.
  - unfold JsMap.has.
    destruct (JsMap.get (link_key uid (channel_id_of clink)) lm) eqn:G; simpl.
    + apply continues_refl.
    + apply values_set_continues. intros v0 E. congruence.
Qed.

Lemma observe_gift_continues tid ru maps g :
  continues (node_ids maps) (node_ids (observe_gift tid ru maps g))
  /\ continues (link_pairs maps) (link_pairs (observe_gift tid ru maps g)).
Proof.
  destruct maps as [nm lm]. unfold observe_gift, node_ids, link_pairs.
  destruct (negb (Js.truthy_num (Gift.sender_id g))).
  { split; apply continues_refl. }
  split; simpl.
  - destruct (JsMap.get (user_id_of (Gift.sender_id g)) nm) eqn:G.
    + apply values_set_continues. intros v0 E. rewrite G in E.
      injection E as <-. now rewrite upgrade_sender_id.
    + apply values_set_continues. intros v0 E. congruence.
  - destruct (JsMap.get (link_key (user_id_of (Gift.sender_id g)) tid) lm)
      eqn:G.
    + apply values_set_continues. intros v0 E. rewrite G in E.
      now injection E as <-.
    + apply values_set_continues. intros v0 E. congruence.
Qed.

Lemma apply_update_continues u maps :
  continues (node_ids maps) (node_ids (apply_update u maps))
  /\ continues (link_pairs maps) (link_pairs (apply_update u maps)).
Proof.
  destruct u as [m|data|data|d|ty]; simpl;
    try (split; apply continues_refl).
  - split; [apply observe_account_continues | apply continues_refl].
  - assert (H0 : continues (node_ids maps)
                   (node_ids (observe_account data (fst maps), snd maps))
                 /\ continues (link_pairs maps)
                      (link_pairs (observe_account data (fst maps), snd maps))).
    { split; [apply observe_account_continues | apply continues_refl]. }
    destruct (UserData.channel_links data) as [links|]; [|exact H0].
    destruct H0 as [Ha Hb]. split.
    + eapply continues_trans; [exact Ha|].
      apply (fold_continues node_ids). intros. apply link_channel_continues.
    + eapply continues_trans; [exact Hb|].
      apply (fold_continues link_pairs). intros. apply link_channel_continues.
  - split.
    + apply (fold_continues node_ids). intros. apply observe_gift_continues.
    + apply (fold_continues link_pairs). intros. apply observe_gift_continues.
Qed.

Lemma state_graph s :
  state_inv s ->
  GraphData.nodes (AppState.graphData s) = JsMap.values (fst (working_maps s))
  /\ GraphData.links (AppState.graphData s)
     = JsMap.values (snd (working_maps s)).
Proof.
  intros [_ [E _]]. rewrite E at 1 2. now split.
Qed.

(** X1.  In every state the store can reach, an update keeps every node
    and every link where it stands in the stored graph: the node ids
    after the update are the node ids before it, in the same order,
    followed by the new ones, and the same holds of the links' ends.
    Nothing is removed and nothing is reordered. *)
Theorem update_keeps_places (u : Update) (s : AppState.t) :
  Reachable s ->
  continues (map GraphNode.id (GraphData.nodes (AppState.graphData s)))
    (map GraphNode.id
       (GraphData.nodes (AppState.graphData (processScanUpdate u s))))
  /\ continues (map link_ends (GraphData.links (AppState.graphData s)))
       (map link_ends
          (GraphData.links (AppState.graphData (processScanUpdate u s)))).
Proof.
  intros Hr.
  destruct (state_graph s (Reachable_inv s Hr)) as [En El].
  destruct (state_graph _ (Reachable_inv _ (reach_update u s Hr)))
    as [En' El'].
  destruct u as [m|data|data|d|ty];
    try (rewrite En, El, En', El', working_maps_process by discriminate;
         apply apply_update_continues).
  simpl. split; apply continues_refl.
Qed.

Lemma update_keeps_places_witness :
  continues
    (map GraphNode.id (GraphData.nodes (AppState.graphData sample_scan)))
    (map GraphNode.id
       (GraphData.nodes
          (AppState.graphData (processScanUpdate gift_2_to_1 sample_scan)))).
Proof.
  exact (proj1 (update_keeps_places gift_2_to_1 sample_scan sample_reachable)).
Defined.

(** ** Counts only grow *)

Lemma count_kept_refl lm : count_kept lm lm.
Proof. intros k l H. exists l. split; [exact H | lia]. Qed.

Lemma count_kept_trans a b c :
  count_kept a b -> count_kept b c -> count_kept a c.
Proof.
  intros H1 H2 k l G. destruct (H1 k l G) as [l1 [G1 L1]].
  destruct (H2 k l1 G1) as [l2 [G2 L2]]. exists l2. split; [exact G2 | lia].
Qed.

Lemma fold_count_kept {B} (step : JsMap.t GraphNode.t * JsMap.t GraphLink.t
                                  -> B -> _) l :
  (forall s b, count_kept (snd s) (snd (step s b))) ->
  forall s, count_kept (snd s) (snd (fold_left step l s)).
Proof.
  intros H. induction l as [|b l IH]; intros s; simpl.
  - apply count_kept_refl.
  - eapply count_kept_trans; [apply H | apply IH].
Qed.

Lemma link_channel_count uid maps clink :
  count_kept (snd maps) (snd (link_channel uid maps clink)).
Proof.
  destruct maps as [nm lm]. unfold link_channel. simpl.
  unfold JsMap.has.
  destruct (JsMap.get (link_key uid (channel_id_of clink)) lm) eqn:G; simpl.
  - apply count_kept_refl.
  - intros k l H. exists l. split; [|lia].
    rewrite get_set_neq; [exact H|]. intros ->. congruence.
Qed.

Lemma observe_gift_count tid ru maps g :
  count_kept (snd maps) (snd (observe_gift tid ru maps g)).
Proof.
  destruct maps as [nm lm]. unfold observe_gift.
  destruct (negb (Js.truthy_num (Gift.sender_id g)));
    [apply count_kept_refl|].
  simpl. set (lkey := link_key (user_id_of (Gift.sender_id g)) tid).
  intros k l H.
  destruct (String.eqb_spec k lkey) as [->|N].
  - rewrite H. rewrite get_set_eq. eexists. split; [reflexivity|].
    unfold link_count. simpl.
    destruct (Js.num_or (GraphLink.value l) 0 + 1 =? 0) eqn:E; lia.
  - exists l. split; [|lia].
    destruct (JsMap.get lkey lm); now rewrite get_set_neq.
Qed.

Lemma apply_update_count u maps :
  count_kept (snd maps) (snd (apply_update u maps)).
Proof.
  destruct u as [m|data|data|d|ty]; simpl; try apply count_kept_refl.
  - destruct (UserData.channel_links data) as [links|];
      [|apply count_kept_refl].
    apply (fold_count_kept
             (link_channel (user_id_of (UserData.id data))) links
             (fun s b => link_channel_count _ s b)
             (observe_account data (fst maps), snd maps)).
  - apply (fold_count_kept _ _ (fun s b => observe_gift_count _ _ s b)).
Qed.

Lemma weight_sources s a b :
  state_inv s -> weight s a b = 0 \/ exists i, a = user_id_of i.
Proof.
  intros Hs. unfold weight.
  destruct (links_between s a b) as [|l ls] eqn:E; [now left|right].
  assert (Hin : In l (links_between s a b)) by (rewrite E; now left).
  unfold links_between in Hin. apply filter_In in Hin as [Hin Hb].
  apply andb_true_iff in Hb as [Hb _]. apply String.eqb_eq in Hb.
  pose proof (state_inv_sources s Hs) as Hf.
  rewrite Forall_forall in Hf. destruct (Hf l Hin) as [j Hj].
  exists j. congruence.
Qed.

Lemma weight_nonneg_any s a b : state_inv s -> 0 <= weight s a b.
Proof.
  intros Hs. destruct (weight_sources s a b Hs) as [->|[i ->]]; [lia|].
  now apply weight_nonneg.
Qed.

(** X2.  In every state the store can reach, no update lowers the count
    recorded from one id to another. *)
Theorem weight_never_decreases (u : Update) (s : AppState.t)
  (src tgt : string) :
  Reachable s ->
  weight s src tgt <= weight (processScanUpdate u s) src tgt.
Proof.
  intros Hr.
  pose proof (Reachable_inv s Hr) as Hs.
  pose proof (Reachable_inv _ (reach_update u s Hr)) as Hs'.
  destruct (weight_sources s src tgt Hs) as [->|[i ->]];
    [now apply weight_nonneg_any|].
  assert (Hu : (exists m, u = log m) \/ (forall m, u <> log m)).
  { destruct u; try (right; discriminate). left. now eexists. }
  destruct Hu as [[m ->]|Hn].
  { simpl. unfold weight, links_between. simpl. lia. }
  rewrite (weight_key s i tgt Hs), (weight_key _ i tgt Hs').
  rewrite working_maps_process by exact Hn.
  destruct (JsMap.get (link_key (user_id_of i) tgt) (snd (working_maps s)))
    as [l|] eqn:G.
  - destruct (apply_update_count u (working_maps s) _ _ G) as [l' [G' L]].
    rewrite G'. exact L.
  - rewrite <- working_maps_process by exact Hn.
    rewrite <- (weight_key _ i tgt Hs'). now apply weight_nonneg.
Qed.

Lemma weight_never_decreases_witness :
  weight sample_scan "u_2" "u_1"
  <= weight (processScanUpdate gift_2_to_1 sample_scan) "u_2" "u_1".
Proof.
  exact (weight_never_decreases gift_2_to_1 sample_scan "u_2" "u_1"
           sample_reachable).
Defined.

(** ** Totals and gift lists *)

Lemma sum_of_app {A} (f : A -> Z) (l1 l2 : list A) :
  sum_of f (l1 ++ l2) = sum_of f l1 + sum_of f l2.
Proof.
  induction l1 as [|x l1 IH]; simpl; [reflexivity|].
  unfold sum_of in *. simpl. rewrite IH. lia.
Qed.

Lemma push_sent_totals g r :
  totals_ok r -> totals_ok (ParsedUser.push_sent g r).
Proof.
  intros [H1 H2]. split; simpl; [|exact H2].
  rewrite sum_of_app, H1. unfold sum_of. simpl. lia.
Qed.

Lemma push_received_totals g r :
  totals_ok r -> totals_ok (ParsedUser.push_received g r).
Proof.
  intros [H1 H2]. split; simpl; [exact H1|].
  rewrite sum_of_app, H2. unfold sum_of. simpl. lia.
Qed.

Lemma promote_totals r : totals_ok r -> totals_ok (ParsedUser.promote r).
Proof.
  intros H. unfold ParsedUser.promote.
  destruct (ParsedUser.sourceType r); exact H.
Qed.

Lemma link_effect_totals nm lbl k r l :
  totals_ok r -> totals_ok (link_effect nm lbl k r l).
Proof.
  intros H. unfold link_effect.
  destruct (lbl (GraphLink.source l)); [|exact H].
  destruct (Js.startsWith "c_" (GraphLink.target l)).
  - destruct (JsMap.get (GraphLink.target l) nm); [|exact H].
    destruct (String.eqb k (GraphLink.source l)); exact H.
  - destruct (lbl (GraphLink.target l)); [|exact H].
    destruct (String.eqb k (GraphLink.source l));
      destruct (String.eqb k (GraphLink.target l));
      repeat first [ apply promote_totals | apply push_received_totals
                   | apply push_sent_totals ]; exact H.
Qed.

Lemma record_for_totals nm lm n : totals_ok (record_for nm lm n).
Proof.
  unfold record_for. apply fold_left_inv.
  - intros r l. apply link_effect_totals.
  - split; reflexivity.
Qed.

Lemma state_view s :
  state_inv s ->
  AppState.parsedUsers s
  = map (record_for (fst (working_maps s)) (snd (working_maps s)))
      (filter (fun n => negb (is_channel n))
         (GraphData.nodes (AppState.graphData s))).
Proof.
  intros Hs. destruct (state_graph s Hs) as [En _].
  destruct Hs as [_ [_ E]]. rewrite E, En.
  apply project_records. apply working_maps_ok.
Qed.

Lemma link_effect_sentTo nm lbl k r l :
  ParsedUser.giftsSentTo (link_effect nm lbl k r l)
  = (ParsedUser.giftsSentTo r
     ++ if sends lbl k l then [sent_ref lbl l] else [])%list.
Proof.
  unfold link_effect, sends, counts_as_gift, sent_ref, gift_count.
  destruct (lbl (GraphLink.source l)) as [sl|]; simpl;
    [|now rewrite app_nil_r].
  destruct (Js.startsWith "c_" (GraphLink.target l)); simpl.
  - destruct (lbl (GraphLink.target l)); simpl;
      destruct (JsMap.get (GraphLink.target l) nm);
      try destruct (String.eqb k (GraphLink.source l));
      simpl; now rewrite app_nil_r.
  - destruct (lbl (GraphLink.target l)) as [tl|]; simpl;
      [|now rewrite app_nil_r].
    destruct (String.eqb k (GraphLink.source l)),
      (String.eqb k (GraphLink.target l)); simpl;
      unfold ParsedUser.promote; simpl;
      repeat match goal with
             | |- context [match ?x with target => _ | _ => _ end] =>
                 destruct x
             end; simpl; try reflexivity; now rewrite app_nil_r.
Qed.

Lemma link_effect_receivedFrom nm lbl k r l :
  ParsedUser.giftsReceivedFrom (link_effect nm lbl k r l)
  = (ParsedUser.giftsReceivedFrom r
     ++ if receives lbl k l then [received_ref lbl l] else [])%list.
Proof.
  unfold link_effect, receives, counts_as_gift, received_ref, gift_count.
  destruct (lbl (GraphLink.source l)) as [sl|]; simpl;
    [|now rewrite app_nil_r].
  destruct (Js.startsWith "c_" (GraphLink.target l)); simpl.
  - destruct (lbl (GraphLink.target l)); simpl;
      destruct (JsMap.get (GraphLink.target l) nm);
      try destruct (String.eqb k (GraphLink.source l));
      simpl; now rewrite app_nil_r.
  - destruct (lbl (GraphLink.target l)) as [tl|]; simpl;
      [|now rewrite app_nil_r].
    destruct (String.eqb k (GraphLink.source l)),
      (String.eqb k (GraphLink.target l)); simpl;
      unfold ParsedUser.promote; simpl;
      repeat match goal with
             | |- context [match ?x with target => _ | _ => _ end] =>
                 destruct x
             end; simpl; try reflexivity; now rewrite app_nil_r.
Qed.

Lemma run_sentTo nm lbl k links : forall r,
  ParsedUser.giftsSentTo (fold_left (link_effect nm lbl k) links r)
  = (ParsedUser.giftsSentTo r
     ++ map (sent_ref lbl) (filter (sends lbl k) links))%list.
Proof.
  induction links as [|l links IH]; intros r; simpl.
  - now rewrite app_nil_r.
  - rewrite IH, link_effect_sentTo.
    destruct (sends lbl k l); simpl; now rewrite <- app_assoc.
Qed.

Lemma run_receivedFrom nm lbl k links : forall r,
  ParsedUser.giftsReceivedFrom (fold_left (link_effect nm lbl k) links r)
  = (ParsedUser.giftsReceivedFrom r
     ++ map (received_ref lbl) (filter (receives lbl k) links))%list.
Proof.
  induction links as [|l links IH]; intros r; simpl.
  - now rewrite app_nil_r.
  - rewrite IH, link_effect_receivedFrom.
    destruct (receives lbl k l); simpl; now rewrite <- app_assoc.
Qed.

Lemma record_for_label nm lm n :
  ParsedUser.label (record_for nm lm n) = GraphNode.label n.
Proof. unfold record_for. now rewrite run_label. Qed.

Lemma label_in_account s k :
  state_inv s -> account_label (fst (working_maps s)) k = label_in s k.
Proof.
  intros Hs. unfold label_in. rewrite (record_of_inv s k Hs).
  unfold account_label, node_of. simpl.
  destruct (JsMap.get k (nodeMap_of (AppState.graphData s))) as [n|];
    [|reflexivity].
  destruct (is_channel n); [reflexivity|]. simpl.
  now rewrite record_for_label.
Qed.

Lemma record_for_lists nm lm n :
  ParsedUser.giftsSentTo (record_for nm lm n)
  = map (sent_ref (account_label nm))
      (filter (sends (account_label nm) (GraphNode.id n)) (JsMap.values lm))
  /\ ParsedUser.giftsReceivedFrom (record_for nm lm n)
     = map (received_ref (account_label nm))
         (filter (receives (account_label nm) (GraphNode.id n))
            (JsMap.values lm)).
Proof.
  unfold record_for. now rewrite run_sentTo, run_receivedFrom.
Qed.

Lemma lists_ext lbl lbl' k links :
  (forall x, lbl x = lbl' x) ->
  map (sent_ref lbl) (filter (sends lbl k) links)
  = map (sent_ref lbl') (filter (sends lbl' k) links)
  /\ map (received_ref lbl) (filter (receives lbl k) links)
     = map (received_ref lbl') (filter (receives lbl' k) links).
Proof.
  intros H. split.
  - rewrite (filter_ext (sends lbl k) (sends lbl' k)).
    + apply map_ext. intros l. unfold sent_ref. now rewrite H.
    + intros l. unfold sends, counts_as_gift. now rewrite !H.
  - rewrite (filter_ext (receives lbl k) (receives lbl' k)).
    + apply map_ext. intros l. unfold received_ref. now rewrite H.
    + intros l. unfold receives, counts_as_gift. now rewrite !H.
Qed.

Lemma gift_count_pos nm l : link_ok nm l -> 1 <= gift_count l.
Proof.
  intros [_ [[v [Ev Hv]] _]]. unfold gift_count. rewrite Ev. simpl.
  destruct (v =? 0) eqn:E; lia.
Qed.

Lemma record_for_counts nm lm n :
  Forall (link_ok nm) (JsMap.values lm) ->
  Forall (fun g => 1 <= GiftRef.count g)
    (ParsedUser.giftsSentTo (record_for nm lm n)
     ++ ParsedUser.giftsReceivedFrom (record_for nm lm n)).
Proof.
  intros Hf. destruct (record_for_lists nm lm n) as [-> ->].
  apply Forall_app. split; apply Forall_forall; intros g Hg;
    apply in_map_iff in Hg as [l [<- Hl]];
    apply filter_In in Hl as [Hl _];
    rewrite Forall_forall in Hf; simpl;
    exact (gift_count_pos nm l (Hf l Hl)).
Qed.

(** X8.  In every state the store can reach, each record's total of gifts
    sent is the sum of the counts in its gifts-sent list, its total of
    gifts received is the sum of the counts in its gifts-received list, and
    every entry of the two lists counts at least one gift. *)
Theorem totals_are_list_sums (s : AppState.t) (r : ParsedUser.t) :
  Reachable s ->
  In r (AppState.parsedUsers s) ->
  ParsedUser.totalGiftsSent r = sum_of GiftRef.count (ParsedUser.giftsSentTo r)
  /\ ParsedUser.totalGiftsReceived r
     = sum_of GiftRef.count (ParsedUser.giftsReceivedFrom r)
  /\ Forall (fun g => 1 <= GiftRef.count g)
       (ParsedUser.giftsSentTo r ++ ParsedUser.giftsReceivedFrom r).
Proof.
  intros Hr Hin. pose proof (Reachable_inv s Hr) as Hs.
  rewrite (state_view s Hs) in Hin.
  apply in_map_iff in Hin as [n [<- _]].
  destruct (record_for_totals (fst (working_maps s)) (snd (working_maps s)) n)
    as [H1 H2].
  split; [exact H1|]. split; [exact H2|].
  apply record_for_counts. now destruct Hs as [[[_ Hf] _] _].
Qed.

Lemma totals_are_list_sums_witness :
  ParsedUser.totalGiftsReceived sample_alice
  = sum_of GiftRef.count (ParsedUser.giftsReceivedFrom sample_alice).
Proof.
  exact (proj1 (proj2 (totals_are_list_sums sample_scan sample_alice
                         sample_reachable
                         (or_introl eq_refl)))).
Defined.

(** X9.  In every state the store can reach, the gifts-sent list of a
    record has one entry for each stored link that leaves the record's id
    for an id that has a record and is not a channel id, in link order,
    with the link's target, the label of the target's record and the link's
    count; the gifts-received list is the same for the links that arrive at
    the record's id. *)
Theorem gift_lists_mirror_links (s : AppState.t) (r : ParsedUser.t) :
  Reachable s ->
  In r (AppState.parsedUsers s) ->
  ParsedUser.giftsSentTo r
  = map (sent_ref (label_in s))
      (filter (sends (label_in s) (ParsedUser.id r))
         (GraphData.links (AppState.graphData s)))
  /\ ParsedUser.giftsReceivedFrom r
     = map (received_ref (label_in s))
         (filter (receives (label_in s) (ParsedUser.id r))
            (GraphData.links (AppState.graphData s))).
Proof.
  intros Hr Hin. pose proof (Reachable_inv s Hr) as Hs.
  rewrite (state_view s Hs) in Hin.
  apply in_map_iff in Hin as [n [<- _]].
  destruct (state_graph s Hs) as [_ ->].
  rewrite record_for_id.
  destruct (lists_ext _ _ (GraphNode.id n)
              (JsMap.values (snd (working_maps s)))
              (fun x => label_in_account s x Hs)) as [<- <-].
  apply record_for_lists.
Qed.

Lemma gift_lists_mirror_links_witness :
  ParsedUser.giftsReceivedFrom sample_alice
  = map (received_ref (label_in sample_scan))
      (filter (receives (label_in sample_scan) "u_1")
         (GraphData.links (AppState.graphData sample_scan))).
Proof.
  exact (proj2 (gift_lists_mirror_links sample_scan sample_alice
                  sample_reachable
                  (or_introl eq_refl))).
Defined.

(** ** Gifts sent are gifts received *)

Lemma sum_values_set {V} (g : V -> Z) k v (m : JsMap.t V) :
  sum_of g (JsMap.values (JsMap.set k v m))
  = sum_of g (JsMap.values m) + g v
    - match JsMap.get k m with Some v0 => g v0 | None => 0 end.
Proof.
  unfold sum_of, JsMap.values.
  induction m as [|[k' v'] m IH]; simpl; [lia|].
  destruct (String.eqb k k'); simpl; lia.
Qed.

Lemma sum_adjust {V} (g : V -> Z) (f : V -> V) d k (m : JsMap.t V) :
  (forall v, g (f v) = g v + d) ->
  sum_of g (JsMap.values (JsMap.adjust f k m))
  = sum_of g (JsMap.values m) + if JsMap.has k m then d else 0.
Proof.
  intros H. unfold JsMap.adjust, JsMap.has.
  destruct (JsMap.get k m) as [v|] eqn:G; [|lia].
  rewrite sum_values_set, G, H. lia.
Qed.

Lemma has_adjust {V} (f : V -> V) k k' (m : JsMap.t V) :
  JsMap.has k (JsMap.adjust f k' m) = JsMap.has k m.
Proof.
  unfold JsMap.has. rewrite get_adjust.
  destruct (JsMap.get k m); simpl; now destruct (String.eqb k k').
Qed.

Lemma promote_sent r :
  ParsedUser.totalGiftsSent (ParsedUser.promote r)
  = ParsedUser.totalGiftsSent r + 0.
Proof.
  unfold ParsedUser.promote. destruct (ParsedUser.sourceType r); simpl; lia.
Qed.

Lemma promote_received r :
  ParsedUser.totalGiftsReceived (ParsedUser.promote r)
  = ParsedUser.totalGiftsReceived r + 0.
Proof.
  unfold ParsedUser.promote. destruct (ParsedUser.sourceType r); simpl; lia.
Qed.

Lemma pool_link_balance nm pool l :
  pool_sent (pool_link nm pool l) - pool_received (pool_link nm pool l)
  = pool_sent pool - pool_received pool.
Proof.
  unfold pool_link, pool_sent, pool_received.
  destruct (JsMap.get (GraphLink.source l) pool) as [sender|] eqn:Gs;
    [|reflexivity].
  destruct (Js.startsWith "c_" (GraphLink.target l)).
  - destruct (JsMap.get (GraphLink.target l) nm); [|reflexivity].
    rewrite (sum_adjust ParsedUser.totalGiftsSent _ 0)
      by (intros; simpl; lia).
    rewrite (sum_adjust ParsedUser.totalGiftsReceived _ 0)
      by (intros; simpl; lia).
    destruct (JsMap.has _ _); lia.
  - destruct (JsMap.get (GraphLink.target l) pool) as [receiver|] eqn:Gt;
      [|reflexivity].
    set (c := Js.num_or (GraphLink.value l) 1).
    rewrite (sum_adjust ParsedUser.totalGiftsSent _ 0)
      by apply promote_sent.
    rewrite (sum_adjust ParsedUser.totalGiftsReceived _ 0)
      by apply promote_received.
    rewrite (sum_adjust ParsedUser.totalGiftsSent _ 0)
      by (intros; simpl; lia).
    rewrite (sum_adjust ParsedUser.totalGiftsReceived _ c)
      by (intros; simpl; lia).
    rewrite (sum_adjust ParsedUser.totalGiftsSent _ c)
      by (intros; simpl; lia).
    rewrite (sum_adjust ParsedUser.totalGiftsReceived _ 0)
      by (intros; simpl; lia).
    rewrite !has_adjust.
    unfold JsMap.has. rewrite Gs, Gt. lia.
Qed.

Lemma pool_add_zero pool n :
  Forall (fun r => ParsedUser.totalGiftsSent r = 0
                   /\ ParsedUser.totalGiftsReceived r = 0)
    (JsMap.values pool) ->
  Forall (fun r => ParsedUser.totalGiftsSent r = 0
                   /\ ParsedUser.totalGiftsReceived r = 0)
    (JsMap.values (pool_add pool n)).
Proof.
  intros H. unfold pool_add.
  destruct (String.eqb (GraphNode.group n) "channel"); [exact H|].
  apply Forall_values_set; [exact H | now split].
Qed.

Lemma zero_pool_balance pool :
  Forall (fun r => ParsedUser.totalGiftsSent r = 0
                   /\ ParsedUser.totalGiftsReceived r = 0)
    (JsMap.values pool) ->
  pool_sent pool - pool_received pool = 0.
Proof.
  unfold pool_sent, pool_received, sum_of.
  induction 1 as [|r rs [H1 H2] _ IH]; simpl; lia.
Qed.

Lemma project_balance nm lm :
  sum_of ParsedUser.totalGiftsSent (project nm lm)
  = sum_of ParsedUser.totalGiftsReceived (project nm lm).
Proof.
  unfold project.
  set (pool0 := fold_left pool_add (JsMap.values nm) []).
  assert (H0 : pool_sent pool0 - pool_received pool0 = 0).
  { apply zero_pool_balance. unfold pool0.
    apply fold_left_inv; [intros a b; apply pool_add_zero | constructor]. }
  assert (H : pool_sent (fold_left (pool_link nm) (JsMap.values lm) pool0)
              - pool_received
                  (fold_left (pool_link nm) (JsMap.values lm) pool0) = 0).
  { apply (fold_left_inv (fun p => pool_sent p - pool_received p = 0));
      [|exact H0].
    intros a b Ha. now rewrite pool_link_balance. }
  unfold pool_sent, pool_received in H. lia.
Qed.

(** X10.  In every state the store can reach, the totals of gifts sent,
    added over all records, equal the totals of gifts received, added over
    all records. *)
Theorem gifts_sent_equal_gifts_received (s : AppState.t) :
  Reachable s ->
  sum_of ParsedUser.totalGiftsSent (AppState.parsedUsers s)
  = sum_of ParsedUser.totalGiftsReceived (AppState.parsedUsers s).
Proof.
  intros Hr. destruct (Reachable_inv s Hr) as [_ [_ ->]].
  apply project_balance.
Qed.

Lemma gifts_sent_equal_gifts_received_witness :
  sum_of ParsedUser.totalGiftsSent (AppState.parsedUsers sample_scan)
  = sum_of ParsedUser.totalGiftsReceived (AppState.parsedUsers sample_scan).
Proof.
  exact (gifts_sent_equal_gifts_received sample_scan sample_reachable).
Defined.

(** ** One entry per id *)

Lemma NoDup_map_factor {A B C} (f : A -> B) (h : B -> C) (l : list A) :
  NoDup (map (fun x => h (f x)) l) -> NoDup (map f l).
Proof.
  induction l as [|a l IH]; simpl; intros H; [constructor|].
  inversion H as [|? ? Hni Hnd]; subst. constructor; [|now apply IH].
  intros Hin. apply Hni. apply in_map_iff in Hin as [x [Hx Hin]].
  apply in_map_iff. exists x. split; [now rewrite Hx | exact Hin].
Qed.

(** X5.  In every state the store can reach, no two nodes share an id, no
    two links share both ends, no two records share an id, and the records
    are those of the nodes that are not of the channel group, in node
    order. *)
Theorem one_entry_per_id (s : AppState.t) :
  Reachable s ->
  NoDup (map GraphNode.id (GraphData.nodes (AppState.graphData s)))
  /\ NoDup (map link_ends (GraphData.links (AppState.graphData s)))
  /\ NoDup (map ParsedUser.id (AppState.parsedUsers s))
  /\ map ParsedUser.id (AppState.parsedUsers s)
     = map GraphNode.id
         (filter (fun n => negb (String.eqb (GraphNode.group n) "channel"))
            (GraphData.nodes (AppState.graphData s))).
Proof.
  intros Hr. pose proof (Reachable_inv s Hr) as Hs.
  destruct (state_graph s Hs) as [En El].
  pose proof (state_view s Hs) as Ev.
  destruct Hs as [[[[[Kn Nn] [Kl Nl]] _] _] _].
  assert (Hn : NoDup (map GraphNode.id
                        (GraphData.nodes (AppState.graphData s)))).
  { rewrite En, <- (keyed_keys _ _ Kn). exact Nn. }
  assert (Hv : map ParsedUser.id (AppState.parsedUsers s)
               = map GraphNode.id
                   (filter (fun n => negb (is_channel n))
                      (GraphData.nodes (AppState.graphData s)))).
  { rewrite Ev, map_map. apply map_ext. intros n. apply record_for_id. }
  split; [exact Hn|]. split; [|split; [|exact Hv]].
  - rewrite El. apply (NoDup_map_factor link_ends
                         (fun p => link_key (fst p) (snd p))).
    change (NoDup (map linkKey (JsMap.values (snd (working_maps s))))).
    rewrite <- (keyed_keys _ _ Kl). exact Nl.
  - rewrite Hv. now apply NoDup_map_filter.
Qed.

Lemma one_entry_per_id_witness :
  NoDup (map GraphNode.id (GraphData.nodes (AppState.graphData sample_scan))).
Proof.
  exact (proj1 (one_entry_per_id sample_scan sample_reachable)).
Defined.

(** ** Events that name nobody *)

Lemma commit_same s : state_inv s -> commit s (working_maps s) = s.
Proof.
  intros [_ [Eg Ep]]. unfold commit. rewrite <- Eg, <- Ep.
  now destruct s.
Qed.

Lemma senderless_gifts tid ru gifts : forall maps,
  forallb (fun g => negb (Js.truthy_num (Gift.sender_id g))) gifts = true ->
  fold_left (observe_gift tid ru) gifts maps = maps.
Proof.
  induction gifts as [|g gifts IH]; intros maps H; simpl in *;
    [reflexivity|].
  apply andb_true_iff in H as [Hg H].
  rewrite <- (IH maps H) at 2. f_equal.
  destruct maps as [nm lm]. unfold observe_gift. now rewrite Hg.
Qed.

(** X6.  In every state the store can reach, an event of an unknown type,
    and a gift event all of whose entries lack a sender id (missing or 0),
    leave the whole store as it was: graph, view, log, queue and flags. *)
Theorem nameless_event_changes_nothing (u : Update) (s : AppState.t) :
  Reachable s ->
  names_nobody u = true ->
  processScanUpdate u s = s.
Proof.
  intros Hr Hu. pose proof (Reachable_inv s Hr) as Hs.
  destruct u as [m|data|data|d|ty]; try discriminate.
  - rewrite process_commit by discriminate. simpl in *.
    rewrite senderless_gifts by exact Hu. now apply commit_same.
  - rewrite process_commit by discriminate. simpl. now apply commit_same.
Qed.

Lemma nameless_event_changes_nothing_witness :
  processScanUpdate (other_type "ping") sample_scan = sample_scan.
Proof.
  exact (nameless_event_changes_nothing (other_type "ping") sample_scan
           sample_reachable eq_refl).
Defined.

(** ** What a link shows *)

Lemma link_channel_text uid maps clink :
  Forall link_text (JsMap.values (snd maps)) ->
  Forall link_text (JsMap.values (snd (link_channel uid maps clink))).
Proof.
  destruct maps as [nm lm]. unfold link_channel. simpl. intros H.
  destruct (negb (JsMap.has (link_key uid (channel_id_of clink)) lm));
    [|exact H].
  apply Forall_values_set; [exact H|].
  unfold link_text. cbn [GraphLink.target GraphLink.value GraphLink.label].
  rewrite channel_id_is_channel. now split.
Qed.

Lemma observe_gift_text i ru maps g :
  graph_inv maps ->
  Forall link_text (JsMap.values (snd maps)) ->
  Forall link_text
    (JsMap.values (snd (observe_gift (user_id_of i) ru maps g))).
Proof.
  destruct maps as [nm lm]. intros [[_ [Kl _]] Hf] H. simpl in *.
  unfold observe_gift.
  destruct (negb (Js.truthy_num (Gift.sender_id g))); [exact H|].
  simpl.
  destruct (JsMap.get (link_key (user_id_of (Gift.sender_id g))
                         (user_id_of i)) lm) as [l|] eqn:G.
  - apply Forall_values_set; [exact H|].
    pose proof (keyed_get linkKey _ _ _ Kl G) as E.
    destruct (Forall_values_get _ _ _ _ Hf G) as [[j Hj] _].
    unfold linkKey in E. rewrite Hj in E.
    apply link_key_inj in E as [_ Et].
    pose proof (Forall_values_get _ _ _ _ H G) as Hl.
    unfold link_text in *.
    cbn [GraphLink.target GraphLink.value GraphLink.label].
    rewrite Et in *. rewrite user_id_not_channel in *.
    destruct Hl as [v [Hv [Ev _]]]. rewrite Ev. cbn [Js.num_or].
    assert (Hz : (v =? 0) = false) by lia. rewrite Hz.
    exists (v + 1). split; [lia|]. split; [reflexivity|].
    assert (H1 : (v + 1 =? 1) = false) by lia. now rewrite H1.
  - apply Forall_values_set; [exact H|].
    unfold link_text. cbn [GraphLink.target GraphLink.value GraphLink.label].
    rewrite user_id_not_channel.
    exists 1. split; [lia|]. now split.
Qed.

Lemma apply_update_text u maps :
  graph_inv maps ->
  Forall link_text (JsMap.values (snd maps)) ->
  Forall link_text (JsMap.values (snd (apply_update u maps))).
Proof.
  intros Hg H. destruct u as [m|data|data|d|ty]; simpl; try exact H.
  - destruct (UserData.channel_links data) as [links|]; [|exact H].
    apply (fold_left_inv
             (fun maps => Forall link_text (JsMap.values (snd maps))));
      [|exact H].
    intros a b. apply link_channel_text.
  - apply (fold_left_inv
             (fun maps => graph_inv maps
                          /\ Forall link_text (JsMap.values (snd maps))));
      [|now split].
    intros a b [Ha Hb]. split; [now apply observe_gift_inv|].
    now apply observe_gift_text.
Qed.

(** X4.  In every state the store can reach, a link to a channel id
    carries the value 1 and no label, and every other link carries a count
    of at least one and the text of that count: ["1 GIFT"] for one, the
    count followed by [" GIFTS"] for more. *)
Theorem link_shows_its_count (s : AppState.t) (l : GraphLink.t) :
  Reachable s ->
  In l (GraphData.links (AppState.graphData s)) ->
  link_text l.
Proof.
  intros Hr. revert l.
  apply Forall_forall.
  induction Hr
    as [|u s Hr IH|s _ IH|s _ IH|msg s _ IH|q s _ IH|c s _ IH|t s _ IH];
    try exact IH; try (simpl; constructor).
  pose proof (Reachable_inv s Hr) as Hs.
  assert (Hu : (exists m, u = log m) \/ (forall m, u <> log m)).
  { destruct u; try (right; discriminate). left. now eexists. }
  destruct Hu as [[m ->]|Hn]; [exact IH|].
  destruct (state_graph _ (Reachable_inv _ (reach_update u s Hr)))
    as [_ ->].
  rewrite working_maps_process by exact Hn.
  destruct (state_graph s Hs) as [_ El]. rewrite El in IH.
  apply apply_update_text; [|exact IH].
  now destruct Hs as [[Hg _] _].
Qed.

Lemma link_shows_its_count_witness : link_text sample_gift_link.
Proof.
  exact (link_shows_its_count sample_scan sample_gift_link sample_reachable
           (or_intror (or_introl eq_refl))).
Defined.

(** ** Memberships *)

Lemma placed_merge data n : placed (merge_existing data n) = true.
Proof.
  unfold placed.
  rewrite merge_existing_isTarget, merge_existing_provenance.
  destruct (Js.truthy_flag (GraphNode.isTarget n)) eqn:Et;
    destruct (Js.truthy (UserData.discovered_from data)) eqn:Ed;
    destruct (Js.truthy (GraphNode.discoveredFrom n)) eqn:En;
    simpl; rewrite ?Et, ?Ed, ?En; simpl; auto using orb_true_r.
Qed.

Lemma placed_new data : placed (new_account data) = true.
Proof.
  unfold placed, new_account, Js.or_null. simpl.
  destruct (Js.truthy (UserData.discovered_from data)) eqn:Ed; simpl;
    [exact Ed | reflexivity].
Qed.

Lemma node_made_account n i :
  GraphNode.id n = user_id_of i -> node_made n.
Proof. intros E. left. now exists i. Qed.

Lemma node_made_channel n :
  node_made n ->
  Js.startsWith "c_" (GraphNode.id n) = true ->
  exists clink, n = channel_node clink.
Proof.
  intros [[i E]|H] Hs; [|exact H].
  rewrite E, user_id_not_channel in Hs. discriminate.
Qed.

Lemma member_ok_mono nm nm' l :
  (forall k, JsMap.has k nm = true -> JsMap.has k nm' = true) ->
  (forall k n, JsMap.get k nm = Some n ->
     exists n', JsMap.get k nm' = Some n'
                /\ (placed n = true -> placed n' = true)) ->
  member_ok nm l -> member_ok nm' l.
Proof.
  intros Hh Hg H Hc. destruct (H Hc) as [H1 [n [G P]]].
  split; [now apply Hh|].
  destruct (Hg _ _ G) as [n' [G' P']]. exists n'. auto.
Qed.

Lemma members_ok_mono nm nm' links :
  (forall k, JsMap.has k nm = true -> JsMap.has k nm' = true) ->
  (forall k n, JsMap.get k nm = Some n ->
     exists n', JsMap.get k nm' = Some n'
                /\ (placed n = true -> placed n' = true)) ->
  Forall (member_ok nm) links -> Forall (member_ok nm') links.
Proof.
  intros Hh Hg H. eapply Forall_impl; [|exact H].
  intros l. now apply member_ok_mono.
Qed.

Lemma observe_account_shape data maps :
  JsMap.keyed GraphNode.id (fst maps) ->
  shape_inv maps -> shape_inv (observe_account data (fst maps), snd maps).
Proof.
  intros Hk [Hc Hm]. split; simpl.
  - unfold observe_account.
    destruct (JsMap.get _ (fst maps)) as [n|] eqn:G;
      (apply Forall_values_set; [exact Hc|]);
      apply (node_made_account _ (UserData.id data)); [|reflexivity].
    rewrite merge_existing_id. eapply keyed_get; eauto.
  - eapply members_ok_mono; [| |exact Hm].
    + intros k. apply observe_account_has.
    + intros k n G. eexists. split; [apply observe_account_node; exact G|].
      intros P. destruct (String.eqb k _); [apply placed_merge | exact P].
Qed.

Lemma observe_account_placed data nm :
  exists n, JsMap.get (user_id_of (UserData.id data))
              (observe_account data nm) = Some n
            /\ placed n = true.
Proof.
  unfold observe_account.
  destruct (JsMap.get (user_id_of (UserData.id data)) nm) as [n|];
    eexists; (split; [apply get_set_eq|]);
    [apply placed_merge | apply placed_new].
Qed.

Lemma link_channel_shape uid maps clink :
  shape_inv maps
  /\ (exists n, JsMap.get uid (fst maps) = Some n /\ placed n = true) ->
  shape_inv (link_channel uid maps clink)
  /\ (exists n, JsMap.get uid (fst (link_channel uid maps clink)) = Some n
                /\ placed n = true).
Proof.
  intros [[Hc Hm] [n [Gu Pu]]].
  assert (Hg : forall k n0, JsMap.get k (fst maps) = Some n0 ->
                 JsMap.get k (fst (link_channel uid maps clink)) = Some n0).
  { intros k n0. apply link_channel_get_node. }
  assert (Hh : forall k, JsMap.has k (fst maps) = true ->
                 JsMap.has k (fst (link_channel uid maps clink)) = true).
  { intros k Hk. apply has_get in Hk as [n0 Hn0].
    eapply get_has. apply Hg. exact Hn0. }
  assert (Hm' : Forall (member_ok (fst (link_channel uid maps clink)))
                  (JsMap.values (snd maps))).
  { eapply members_ok_mono; [exact Hh| |exact Hm].
    intros k n0 G. exists n0. split; [now apply Hg | auto]. }
  pose proof (Hg uid n Gu) as Gu'.
  destruct (link_channel_has uid maps clink) as [Hcid _].
  split; [|now exists n]. split.
  - destruct maps as [nm lm]. unfold link_channel. simpl in *.
    destruct (negb (JsMap.has (channel_id_of clink) nm)); [|exact Hc].
    apply Forall_values_set; [exact Hc|]. right. now exists clink.
  - destruct maps as [nm lm]. unfold link_channel in *. simpl in *.
    destruct (negb (JsMap.has (link_key uid (channel_id_of clink)) lm));
      [|exact Hm'].
    apply Forall_values_set; [exact Hm'|].
    intros _. simpl. split; [exact Hcid | now exists n].
Qed.

Lemma placed_gift_touch ru k n g :
  placed n = true -> placed (gift_touch ru k n g) = true.
Proof.
  intros P. unfold gift_touch. destruct (_ && _); [|exact P].
  unfold placed in *.
  destruct (upgrade_sender_rest n (resolved_sender ru (Gift.sender_id g)))
    as [-> [-> _]].
  exact P.
Qed.

Lemma observe_gift_shape i ru maps g :
  JsMap.keyed GraphNode.id (fst maps) ->
  shape_inv maps -> shape_inv (observe_gift (user_id_of i) ru maps g).
Proof.
  intros Hk [Hc Hm].
  assert (Hm' : Forall (member_ok
                          (fst (observe_gift (user_id_of i) ru maps g)))
                  (JsMap.values (snd maps))).
  { eapply members_ok_mono; [| |exact Hm].
    - intros k. apply observe_gift_has.
    - intros k n G. eexists. split; [apply observe_gift_node; exact G|].
      apply placed_gift_touch. }
  destruct maps as [nm lm]. unfold shape_inv, observe_gift in *.
  simpl in *.
  destruct (negb (Js.truthy_num (Gift.sender_id g))); [now split|].
  simpl in *. split.
  - destruct (JsMap.get (user_id_of (Gift.sender_id g)) nm) as [n|] eqn:G;
      (apply Forall_values_set; [exact Hc|]);
      apply (node_made_account _ (Gift.sender_id g)); [|reflexivity].
    rewrite upgrade_sender_id. eapply keyed_get; eauto.
  - destruct (JsMap.get (link_key (user_id_of (Gift.sender_id g))
                           (user_id_of i)) lm) as [l|] eqn:G;
      (apply Forall_values_set; [exact Hm'|]).
    + exact (Forall_values_get _ _ _ _ Hm' G).
    + intros H. simpl in H. discriminate.
Qed.

Lemma apply_update_shape u maps :
  graph_inv maps -> shape_inv maps -> shape_inv (apply_update u maps).
Proof.
  intros Hg H.
  assert (Hk : JsMap.keyed GraphNode.id (fst maps)).
  { now destruct Hg as [[[Hk _] _] _]. }
  destruct u as [m|data|data|d|ty]; simpl; try exact H.
  - now apply observe_account_shape.
  - destruct (UserData.channel_links data) as [links|];
      [|now apply observe_account_shape].
    apply (fold_left_inv
             (fun maps =>
                shape_inv maps
                /\ exists n,
                     JsMap.get (user_id_of (UserData.id data)) (fst maps)
                     = Some n /\ placed n = true)).
    + intros a b. apply link_channel_shape.
    + split; [now apply observe_account_shape|].
      apply observe_account_placed.
  - apply (fold_left_inv
             (fun maps => graph_inv maps /\ shape_inv maps));
      [|now split].
    intros a b [Ha Hb]. split; [now apply observe_gift_inv|].
    apply observe_gift_shape; [|exact Hb].
    now destruct Ha as [[[Ha _] _] _].
Qed.

Lemma Reachable_shape s : Reachable s -> shape_inv (working_maps s).
Proof.
  induction 1
    as [|u s Hr IH|s _ IH|s _ IH|msg s _ IH|q s _ IH|c s _ IH|t s _ IH];
    try exact IH; try (split; constructor).
  assert (Hu : (exists m, u = log m) \/ (forall m, u <> log m)).
  { destruct u; try (right; discriminate). left. now eexists. }
  destruct Hu as [[m ->]|Hn]; [exact IH|].
  rewrite working_maps_process by exact Hn.
  apply apply_update_shape; [|exact IH].
  now destruct (Reachable_inv s Hr) as [[Hg _] _].
Qed.

Lemma link_effect_channels nm lbl k r l :
  ParsedUser.channels (link_effect nm lbl k r l)
  = (ParsedUser.channels r ++ channel_entry nm lbl k l)%list.
Proof.
  unfold link_effect, channel_entry.
  destruct (lbl (GraphLink.source l)) as [sl|]; [|now rewrite app_nil_r].
  destruct (Js.startsWith "c_" (GraphLink.target l)).
  - destruct (JsMap.get (GraphLink.target l) nm);
      [|now rewrite app_nil_r].
    destruct (String.eqb k (GraphLink.source l)); simpl;
      [reflexivity | now rewrite app_nil_r].
  - rewrite app_nil_r.
    destruct (lbl (GraphLink.target l)) as [tl|]; [|reflexivity].
    destruct (String.eqb k (GraphLink.source l)),
      (String.eqb k (GraphLink.target l)); simpl;
      unfold ParsedUser.promote; simpl;
      repeat match goal with
             | |- context [match ?x with target => _ | _ => _ end] =>
                 destruct x
             end; reflexivity.
Qed.

Lemma run_channels nm lbl k links : forall r,
  ParsedUser.channels (fold_left (link_effect nm lbl k) links r)
  = (ParsedUser.channels r ++ flat_map (channel_entry nm lbl k) links)%list.
Proof.
  induction links as [|l links IH]; intros r; simpl.
  - now rewrite app_nil_r.
  - now rewrite IH, link_effect_channels, <- app_assoc.
Qed.

Lemma channel_entries nm lbl k links :
  lbl k <> None ->
  Forall (fun l =>
            Js.startsWith "c_" (GraphLink.target l) = true ->
            exists clink,
              GraphLink.target l = channel_id_of clink
              /\ JsMap.get (GraphLink.target l) nm
                 = Some (channel_node clink)) links ->
  exists handles,
    flat_map (channel_entry nm lbl k) links
    = map (fun h => "@" ++ h) handles
    /\ map channel_id_of handles
       = map GraphLink.target (filter (member_link k) links).
Proof.
  intros Hk. induction 1 as [|l links Hl _ [hs [E1 E2]]]; simpl.
  - now exists [].
  - unfold member_link at 1, channel_entry at 1.
    destruct (String.eqb k (GraphLink.source l)) eqn:Ek; simpl.
    + apply String.eqb_eq in Ek. rewrite <- Ek.
      destruct (lbl k) as [kl|]; [|congruence].
      destruct (Js.startsWith "c_" (GraphLink.target l)) eqn:Ec.
      * destruct (Hl eq_refl) as [clink [Et Gt]]. rewrite Gt.
        exists (clink :: hs). split.
        -- rewrite E1. reflexivity.
        -- cbn [map]. now rewrite E2, Et.
      * exists hs. split; [exact E1 | exact E2].
    + exists hs. split; [|exact E2]. etransitivity; [|exact E1].
      destruct (lbl (GraphLink.source l)); [|reflexivity].
      destruct (Js.startsWith "c_" (GraphLink.target l)); [|reflexivity].
      now destruct (JsMap.get (GraphLink.target l) nm).
Qed.

Lemma NoDup_map_by {A B C} (f : A -> B) (g : A -> C) (l : list A) :
  (forall a b, In a l -> In b l -> g a = g b -> f a = f b) ->
  NoDup (map f l) -> NoDup (map g l).
Proof.
  induction l as [|a l IH]; simpl; intros H Hn; [constructor|].
  inversion Hn as [|? ? Hni Hnd]; subst. constructor.
  - intros Hin. apply Hni. apply in_map_iff in Hin as [x [Hx Hin]].
    apply in_map_iff. exists x. split; [|exact Hin].
    apply H; auto.
  - apply IH; [|exact Hnd]. intros; apply H; auto.
Qed.

Lemma NoDup_map_inj {A B} (f : A -> B) (l : list A) :
  (forall a b, f a = f b -> a = b) -> NoDup l -> NoDup (map f l).
Proof.
  intros Hf. induction 1 as [|a l Hni _ IH]; simpl; constructor; auto.
  intros Hin. apply in_map_iff in Hin as [x [Hx Hin]].
  apply Hf in Hx. now subst.
Qed.

Lemma shape_targets s :
  Reachable s ->
  Forall (fun l =>
            Js.startsWith "c_" (GraphLink.target l) = true ->
            exists clink,
              GraphLink.target l = channel_id_of clink
              /\ JsMap.get (GraphLink.target l) (fst (working_maps s))
                 = Some (channel_node clink))
    (JsMap.values (snd (working_maps s))).
Proof.
  intros Hr. destruct (Reachable_shape s Hr) as [Hc Hm].
  destruct (Reachable_inv s Hr) as [[[[[Kn _] _] _] _] _].
  eapply Forall_impl; [|exact Hm].
  intros l Hl Hs. destruct (Hl Hs) as [Hh _].
  apply has_get in Hh as [ch Gc].
  pose proof (keyed_get GraphNode.id _ _ _ Kn Gc) as Ei.
  pose proof (node_made_channel _ (Forall_values_get _ _ _ _ Hc Gc)) as Hch.
  rewrite Ei in Hch.
  destruct (Hch Hs) as [clink ->]. exists clink.
  split; [symmetry; exact Ei | exact Gc].
Qed.

Lemma record_channels s r :
  Reachable s ->
  In r (AppState.parsedUsers s) ->
  NoDup (ParsedUser.channels r)
  /\ exists handles,
       ParsedUser.channels r = map (fun h => "@" ++ h) handles
       /\ map channel_id_of handles
          = map GraphLink.target
              (filter (member_link (ParsedUser.id r))
                 (GraphData.links (AppState.graphData s))).
Proof.
  intros Hr Hin. pose proof (Reachable_inv s Hr) as Hs.
  destruct (state_graph s Hs) as [En El].
  assert (Hv : AppState.parsedUsers s
               = project (fst (working_maps s)) (snd (working_maps s))).
  { now destruct Hs as [_ [_ E]]. }
  rewrite Hv in Hin.
  destruct (project_record_node _ _ r (working_maps_ok s) Hin)
    as [n [Gn [Hch ->]]].
  rewrite record_for_id in *.
  destruct (channel_entries (fst (working_maps s))
              (account_label (fst (working_maps s))) (GraphNode.id n)
              (JsMap.values (snd (working_maps s)))) as [hs [E1 E2]].
  { unfold account_label. unfold working_maps in *. cbn [fst] in *.
    rewrite Gn, Hch. discriminate. }
  { now apply shape_targets. }
  assert (Ec : ParsedUser.channels
                 (record_for (fst (working_maps s)) (snd (working_maps s)) n)
               = map (fun h => "@" ++ h) hs).
  { unfold record_for. now rewrite run_channels. }
  change (nodeMap_of (AppState.graphData s)) with (fst (working_maps s)).
  change (linkMap_of (AppState.graphData s)) with (snd (working_maps s)).
  rewrite El. split; [|exists hs; now split].
  rewrite Ec. apply NoDup_map_inj; [now intros a b [= ->]|].
  apply (NoDup_map_inv channel_id_of). rewrite E2.
  destruct Hs as [[[[_ [Kl Nl]] _] _] _].
  apply (NoDup_map_by linkKey).
  - intros a b Ha Hb E. apply filter_In in Ha as [_ Ha].
    apply filter_In in Hb as [_ Hb]. unfold member_link in *.
    apply andb_true_iff in Ha as [Ha _]. apply andb_true_iff in Hb as [Hb _].
    apply String.eqb_eq in Ha, Hb. unfold linkKey. congruence.
  - apply NoDup_map_filter. rewrite <- (keyed_keys _ _ Kl). exact Nl.
Qed.

(** X11.  In every state the store can reach, a record lists no channel
    twice, and its channel list is, in link order, the handles (behind an
    ["@"]) of the channel ids that the links leaving the record's id
    reach. *)
Theorem channels_mirror_memberships (s : AppState.t) (r : ParsedUser.t) :
  Reachable s ->
  In r (AppState.parsedUsers s) ->
  NoDup (ParsedUser.channels r)
  /\ exists handles,
       ParsedUser.channels r = map (fun h => "@" ++ h) handles
       /\ map channel_id_of handles
          = map GraphLink.target
              (filter (member_link (ParsedUser.id r))
                 (GraphData.links (AppState.graphData s))).
Proof.
  apply record_channels.
Qed.

Lemma channels_mirror_memberships_witness :
  NoDup (ParsedUser.channels sample_alice).
Proof.
  exact (proj1 (channels_mirror_memberships sample_scan sample_alice
                  sample_reachable
                  (or_introl eq_refl))).
Defined.

Lemma entries_placed nm lbl k links :
  Forall (member_ok nm) links ->
  flat_map (channel_entry nm lbl k) links <> [] ->
  exists n, JsMap.get k nm = Some n /\ placed n = true.
Proof.
  induction 1 as [|l links Hl _ IH]; simpl; [congruence|].
  intros Hc.
  destruct (channel_entry nm lbl k l) eqn:E; [exact (IH Hc)|].
  unfold channel_entry in E.
  destruct (lbl (GraphLink.source l)); [|discriminate].
  destruct (Js.startsWith "c_" (GraphLink.target l)) eqn:Es;
    [|discriminate].
  destruct (JsMap.get (GraphLink.target l) nm); [|discriminate].
  destruct (String.eqb k (GraphLink.source l)) eqn:Ek; [|discriminate].
  apply String.eqb_eq in Ek. rewrite Ek. now destruct (Hl Es).
Qed.

Lemma record_with_channels_placed s r :
  Reachable s ->
  In r (AppState.parsedUsers s) ->
  ParsedUser.channels r <> [] ->
  ParsedUser.sourceType r = target
  \/ Js.truthy (ParsedUser.discoveredFrom r) = true.
Proof.
  intros Hr Hin Hc. pose proof (Reachable_inv s Hr) as Hs.
  assert (Hv : AppState.parsedUsers s
               = project (fst (working_maps s)) (snd (working_maps s))).
  { now destruct Hs as [_ [_ E]]. }
  rewrite Hv in Hin.
  destruct (project_record_node _ _ r (working_maps_ok s) Hin)
    as [n [Gn [Hch ->]]].
  rewrite record_for_id in *.
  rewrite record_for_sourceType, record_for_discoveredFrom.
  assert (P : placed n = true).
  { unfold record_for in Hc. rewrite run_channels in Hc. simpl in Hc.
    destruct (Reachable_shape s Hr) as [_ Hm].
    destruct (entries_placed _ _ _ _ Hm Hc) as [n' [Gn' P']].
    unfold working_maps in *. cbn [fst] in *. congruence. }
  unfold placed in P. apply orb_true_iff in P as [P|P]; [left|now right].
  now rewrite P.
Qed.

(** X12.  In every state the store can reach, a record that lists a
    channel is a target or carries a found-via value. *)
Theorem channel_member_is_placed (s : AppState.t) (r : ParsedUser.t) :
  Reachable s ->
  In r (AppState.parsedUsers s) ->
  ParsedUser.channels r <> [] ->
  ParsedUser.sourceType r = target
  \/ Js.truthy (ParsedUser.discoveredFrom r) = true.
Proof.
  apply record_with_channels_placed.
Qed.

Lemma channel_member_is_placed_witness :
  ParsedUser.sourceType sample_alice = target
  \/ Js.truthy (ParsedUser.discoveredFrom sample_alice) = true.
Proof.
  apply (channel_member_is_placed sample_scan sample_alice sample_reachable
           (or_introl eq_refl)).
  discriminate.
Defined.

(** X14.  A manual stop empties the queue and clears the scanning flag, and
    keeps the graph and the view.  This stays so when the end of
    [handleStop] has run, with the socket's close callback before it, after
    it, or not at all; in all these states neither the start-up hook nor an
    armed close timer does anything.  With the close callback, the log
    gains the three lines of the stop and nothing else.  The list of custom
    targets that the socket's closure holds plays no part. *)
Theorem stop_cancels_queue_keeps_graph (customScanTargets : list string)
  (s : AppState.t) :
  let s1 := ScannerView.handleStop_begin s in
  let s2 :=
    ScannerView.handleStop_end (Scanner.onclose customScanTargets s1) in
  let s2' :=
    Scanner.onclose customScanTargets (ScannerView.handleStop_end s1) in
  halted s s1 /\ halted s (ScannerView.handleStop_end s1)
  /\ halted s s2 /\ halted s s2'
  /\ AppState.logs s2
     = (AppState.logs s
        ++ ["SCAN_HALTED"; "Scan stopped immediately.";
            "Manual stop requested - Signal Sent."])%list
  /\ AppState.logs s2'
     = (AppState.logs s
        ++ ["SCAN_HALTED"; "Manual stop requested - Signal Sent.";
            "Scan stopped immediately."])%list.
Proof.
  intros s1 s2 s2'.
  split; [|split; [|split; [|split; [|split]]]];
    try (repeat split; reflexivity);
    simpl; now rewrite <- !app_assoc.
Qed.

(** ** Stopping, and draining the queue *)

Lemma complete_next c s id q :
  AppState.isScanning s = true ->
  AppState.scanQueue s = id :: q ->
  id <> "" ->
  let s' := ScannerView.complete_current c s in
  AppState.scanTargetChatId s' = id /\ AppState.scanQueue s' = q
  /\ AppState.isScanning s' = true.
Proof.
  intros H1 H2 H3. apply String.eqb_neq in H3.
  unfold ScannerView.complete_current, Scanner.stream_complete,
    Scanner.onclose, Scanner.onclose_timer, Scanner.onmessage_complete.
  cbn [addLog AppState.isScanning AppState.scanQueue].
  rewrite H1, H2. cbn [negb Scanner.autoProcess].
  rewrite H3. unfold Scanner.startScanForId. rewrite H3.
  repeat split.
Qed.

Lemma complete_last c s :
  AppState.isScanning s = true ->
  AppState.scanQueue s = [] ->
  let s' := ScannerView.complete_current c s in
  AppState.isScanning s' = false /\ AppState.scanQueue s' = []
  /\ AppState.graphData s' = AppState.graphData s
  /\ AppState.parsedUsers s' = AppState.parsedUsers s.
Proof.
  intros H1 H2.
  unfold ScannerView.complete_current, Scanner.stream_complete,
    Scanner.onclose, Scanner.onclose_timer, Scanner.onmessage_complete.
  cbn [addLog AppState.isScanning AppState.scanQueue].
  rewrite H1, H2. cbn. rewrite H2. repeat split.
Qed.

Lemma drain_from c q : forall s k,
  AppState.isScanning s = true ->
  AppState.scanQueue s = q ->
  Forall (fun id => id <> "") q ->
  (k < List.length q)%nat ->
  let s' := Nat.iter (S k) (ScannerView.complete_current c) s in
  AppState.scanTargetChatId s' = nth k q ""
  /\ AppState.scanQueue s' = skipn (S k) q
  /\ AppState.isScanning s' = true.
Proof.
  intros s k. revert s q.
  induction k as [|k IH]; intros s q H1 H2 Hq Hk.
  - destruct q as [|id q]; [simpl in Hk; lia|].
    inversion Hq; subst. simpl. now apply complete_next.
  - destruct q as [|id q]; [simpl in Hk; lia|].
    inversion Hq as [|? ? Hid Hq']; subst.
    destruct (complete_next c s id q H1 H2 Hid) as [_ [E2 E3]].
    cbn zeta. rewrite Nat.iter_succ_r.
    apply (IH (ScannerView.complete_current c s) q E3 E2 Hq').
    simpl in Hk. lia.
Qed.

Lemma drain_end c q : forall s,
  AppState.isScanning s = true ->
  AppState.scanQueue s = q ->
  Forall (fun id => id <> "") q ->
  let e := Nat.iter (S (List.length q)) (ScannerView.complete_current c) s in
  AppState.isScanning e = false /\ AppState.scanQueue e = [].
Proof.
  induction q as [|id q IH]; intros s H1 H2 Hq.
  - simpl. destruct (complete_last c s H1 H2) as [E1 [E2 _]]. now split.
  - inversion Hq as [|? ? Hid Hq']; subst.
    destruct (complete_next c s id q H1 H2 Hid) as [_ [E2 E3]].
    cbn [List.length]. cbn zeta. rewrite Nat.iter_succ_r.
    now apply IH.
Qed.

(** X15.  When a scan is running with a queue of non-empty ids, the streams
    that complete one after the other start the queued targets in queue
    order: after [k+1] completions the target being scanned is the queue's
    entry [k], what remains queued is what followed it, and the scan is
    still running.  One completion after the last target the scan is
    stopped and the queue is empty.  The streams of one queue share the
    closure that started the first of them, whatever list of custom targets
    it holds. *)
Theorem queue_drains_in_order (customScanTargets : list string)
  (q : list string) (s : AppState.t) (k : nat) :
  AppState.isScanning s = true ->
  AppState.scanQueue s = q ->
  Forall (fun id => id <> "") q ->
  (k < List.length q)%nat ->
  let complete := ScannerView.complete_current customScanTargets in
  let s' := Nat.iter (S k) complete s in
  let e := Nat.iter (S (List.length q)) complete s in
  (AppState.scanTargetChatId s' = nth k q ""
   /\ AppState.scanQueue s' = skipn (S k) q
   /\ AppState.isScanning s' = true)
  /\ (AppState.isScanning e = false /\ AppState.scanQueue e = []).
Proof.
  intros H1 H2 Hq Hk. split.
  - now apply drain_from.
  - now apply drain_end.
Qed.

Lemma queue_drains_in_order_witness :
  AppState.scanTargetChatId
    (Nat.iter 2 (ScannerView.complete_current []) sample_queue) = "-1003"
  /\ AppState.isScanning
       (Nat.iter 3 (ScannerView.complete_current []) sample_queue) = false.
Proof.
  destruct (queue_drains_in_order [] ["-1002"; "-1003"] sample_queue 1
              eq_refl eq_refl
              ltac:(repeat constructor; discriminate)
              ltac:(simpl; lia)) as [[H1 _] [H2 _]].
  split; [exact H1 | exact H2].
Defined.

(** X26.  When no scan is running and the discovery panel starts the
    analysis of a selection of non-empty ids, the scanner's start-up hook
    starts the first selected target, and the streams that complete one
    after the other take the scanner through the selection in its order:
    after [k] completions the target being scanned is entry [k] of the
    selection and the scan is running; when the stream of the last target
    has completed the scan is stopped and the queue is empty.  The streams
    run with the closure of the start-up hook; the list of custom targets
    it holds plays no part. *)
Theorem analysis_scans_selection_in_order (customScanTargets : list string)
  (selectedIds : list string) (s : AppState.t) (k : nat) :
  AppState.isScanning s = false ->
  Forall (fun id => id <> "") selectedIds ->
  (k < List.length selectedIds)%nat ->
  let s0 := Scanner.autostart
              (Discovery.handleStartAnalysis selectedIds s) in
  let complete := ScannerView.complete_current customScanTargets in
  let sk := Nat.iter k complete s0 in
  let e := Nat.iter (List.length selectedIds) complete s0 in
  (AppState.scanTargetChatId sk = nth k selectedIds ""
   /\ AppState.isScanning sk = true)
  /\ (AppState.isScanning e = false /\ AppState.scanQueue e = []).
Proof.
  intros Hs Hq Hk.
  destruct selectedIds as [|id q]; [simpl in Hk; lia|].
  inversion Hq as [|? ? Hid Hq']; subst.
  apply String.eqb_neq in Hid.
  cbn zeta.
  set (s0 := Scanner.autostart
               (Discovery.handleStartAnalysis (id :: q) s)).
  assert (E0 : AppState.scanTargetChatId s0 = id
               /\ AppState.scanQueue s0 = q
               /\ AppState.isScanning s0 = true).
  { unfold s0, Scanner.autostart, Discovery.handleStartAnalysis.
    cbn [setScanTargetChatId setScanQueue AppState.scanQueue
           AppState.isScanning].
    rewrite Hs. cbn [negb andb Scanner.autoProcess]. rewrite Hid.
    unfold Scanner.startScanForId. rewrite Hid. repeat split. }
  destruct E0 as [E1 [E2 E3]].
  split.
  - destruct k as [|k]; [simpl; now split|].
    destruct (drain_from customScanTargets q s0 k E3 E2 Hq')
      as [H1 [_ H3]]; [simpl in Hk; lia|].
    split; [exact H1 | exact H3].
  - cbn [List.length].
    exact (drain_end customScanTargets q s0 E3 E2 Hq').
Qed.

Lemma analysis_scans_selection_in_order_witness :
  AppState.scanTargetChatId
    (Nat.iter 1 (ScannerView.complete_current [])
       (Scanner.autostart
          (Discovery.handleStartAnalysis ["-1001"; "-1002"] initialState)))
  = "-1002".
Proof.
  exact (proj1 (proj1 (analysis_scans_selection_in_order
                         [] ["-1001"; "-1002"] initialState 1 eq_refl
                         ltac:(repeat constructor; discriminate)
                         ltac:(simpl; lia)))).
Defined.

(** ** The messages of a stream *)

Lemma process_same_graph u a b :
  same_graph a b ->
  same_graph (processScanUpdate u a) (processScanUpdate u b).
Proof.
  intros [Hg Hp]. unfold same_graph, processScanUpdate.
  destruct u; cbn; rewrite ?Hg, ?Hp; try (split; reflexivity);
    repeat break_if; split; reflexivity.
Qed.

Lemma process_same_control u a :
  same_control (processScanUpdate u a) a.
Proof.
  unfold same_control, processScanUpdate.
  destruct u; cbn; repeat break_if; repeat split; reflexivity.
Qed.

Lemma onmessage_same_graph chatId m a b :
  same_graph a b ->
  same_graph (ScannerView.onmessage chatId m a)
    (match m with
     | ScannerView.msg_update u => processScanUpdate u b
     | _ => b
     end).
Proof.
  intros H. destruct m as [|e|u|ty]; cbn; try exact H.
  pose proof (process_same_graph u a b H) as H'.
  destruct u; exact H'.
Qed.

Lemma onmessage_same_control chatId m a :
  same_control (ScannerView.onmessage chatId m a) a.
Proof.
  destruct m as [|e|u|ty]; cbn; try (repeat split; reflexivity).
  pose proof (process_same_control u a) as H.
  destruct u; exact H.
Qed.

Lemma process_logs u a :
  continues (AppState.logs a) (AppState.logs (processScanUpdate u a)).
Proof.
  unfold processScanUpdate.
  destruct u; cbn; repeat break_if; cbn;
    try apply continues_refl; now eexists.
Qed.

Lemma onmessage_logs chatId m a :
  continues (AppState.logs a)
    (AppState.logs (ScannerView.onmessage chatId m a)).
Proof.
  destruct m as [|e|u|ty]; cbn; try (now eexists);
    try apply continues_refl.
  pose proof (process_logs u a) as H.
  destruct u; cbn; try exact H;
    (eapply continues_trans; [exact H | now eexists]).
Qed.

Lemma receive_logs chatId ms : forall a,
  continues (AppState.logs a)
    (AppState.logs (ScannerView.receive chatId ms a)).
Proof.
  unfold ScannerView.receive.
  induction ms as [|m ms IH]; intros a; simpl; [apply continues_refl|].
  eapply continues_trans; [|apply IH]. apply onmessage_logs.
Qed.

(** X16.  Whatever messages a stream delivers, the graph and the view
    after them are those that the update events among them build on their
    own: [error] and [complete] messages change neither, nor does an
    update on which the engine throws.  No message changes the queue, the
    scanning flag or the current target, and the log only grows. *)
Theorem stream_graph_is_that_of_its_updates (chatId : string)
  (ms : list ScannerView.Message) (s : AppState.t) :
  let s' := ScannerView.receive chatId ms s in
  let t := processAll (ScannerView.updates_of ms) s in
  AppState.graphData s' = AppState.graphData t
  /\ AppState.parsedUsers s' = AppState.parsedUsers t
  /\ AppState.scanQueue s' = AppState.scanQueue s
  /\ AppState.isScanning s' = AppState.isScanning s
  /\ AppState.scanTargetChatId s' = AppState.scanTargetChatId s
  /\ continues (AppState.logs s) (AppState.logs s').
Proof.
  cbn zeta.
  pose proof (receive_logs chatId ms s) as Hlog. revert Hlog.
  assert (H : forall a b,
             same_graph a b ->
             same_graph (ScannerView.receive chatId ms a)
               (processAll (ScannerView.updates_of ms) b)
             /\ same_control (ScannerView.receive chatId ms a) a).
  { induction ms as [|m ms IH]; intros a b Hab.
    - split; [exact Hab | repeat split].
    - unfold ScannerView.receive, processAll in *. cbn [fold_left].
      pose proof (onmessage_same_graph chatId m a b Hab) as Hm.
      pose proof (onmessage_same_control chatId m a) as [C1 [C2 [C3 C4]]].
      destruct m as [|e|u|ty]; cbn [ScannerView.updates_of flat_map app].
      + destruct (IH _ b Hm) as [G [D1 [D2 [D3 D4]]]].
        split; [exact G|]. repeat split; congruence.
      + destruct (IH _ b Hm) as [G [D1 [D2 [D3 D4]]]].
        split; [exact G|]. repeat split; congruence.
      + cbn [fold_left].
        destruct (IH _ _ Hm) as [G [D1 [D2 [D3 D4]]]].
        split; [exact G|]. repeat split; congruence.
      + destruct (IH _ b Hm) as [G [D1 [D2 [D3 D4]]]].
        split; [exact G|]. repeat split; congruence. }
  destruct (H s s (conj eq_refl eq_refl)) as [[G1 G2] [C1 [C2 [C3 _]]]].
  intros Hlog. repeat split; auto.
Qed.

(** ** Counters and rows *)

Lemma filter_partition {A} (f : A -> bool) (l : list A) :
  (List.length (filter (fun x => negb (f x)) l)
   + List.length (filter f l) = List.length l)%nat.
Proof.
  induction l as [|a l IH]; simpl; [reflexivity|].
  destruct (f a); simpl; lia.
Qed.

Lemma filter_filter {A} (f g : A -> bool) (l : list A) :
  filter f (filter g l) = filter (fun x => g x && f x) l.
Proof.
  induction l as [|a l IH]; simpl; [reflexivity|].
  destruct (g a); simpl; [destruct (f a)|]; now rewrite IH.
Qed.

Lemma filter_length_mono {A} (f g : A -> bool) (l : list A) :
  (forall x, In x l -> f x = true -> g x = true) ->
  (List.length (filter f l) <= List.length (filter g l))%nat.
Proof.
  induction l as [|a l IH]; simpl; intros H; [lia|].
  assert (IH' := IH (fun x Hx => H x (or_intror Hx))).
  destruct (f a) eqn:Ef.
  - rewrite (H a (or_introl eq_refl) Ef). simpl. lia.
  - destruct (g a); simpl; lia.
Qed.

Lemma filter_length_eq {A} (f g : A -> bool) (l : list A) :
  (forall x, In x l -> f x = g x) ->
  List.length (filter f l) = List.length (filter g l).
Proof.
  intros H. f_equal. apply filter_ext_in. exact H.
Qed.

(** X17.  In the counters of the scanner panel, targets and discovered add
    up to the total.  In every state the store can reach, with no search
    text, the targets counter is the number of rows the ["targets"] filter
    shows, and the discovered, gifters and total counters do not exceed the
    numbers of rows that the ["discovered"], ["gifters"] and ["all"] filters
    show. *)
Theorem counters_and_rows (toLowerCase : string -> string)
  (s : AppState.t) :
  Reachable s ->
  let users := AppState.parsedUsers s in
  let st := ScannerTable.stats users in
  let shown f := List.length (ScannerTable.rows toLowerCase f "" users) in
  (ScannerTable.targets st + ScannerTable.discovered st
   = ScannerTable.total st)%nat
  /\ ScannerTable.targets st = shown "targets"
  /\ (ScannerTable.discovered st <= shown "discovered")%nat
  /\ (ScannerTable.gifters st <= shown "gifters")%nat
  /\ (ScannerTable.total st <= shown "all")%nat.
Proof.
  intros Hr users st shown. unfold shown, st, ScannerTable.rows.
  cbn [ScannerTable.stats ScannerTable.targets ScannerTable.discovered
         ScannerTable.gifters ScannerTable.total].
  split; [apply filter_partition|].
  rewrite !filter_filter.
  split; [|split; [|split]].
  - apply filter_length_eq. intros r Hin.
    unfold ScannerTable.row_shown, ScannerTable.filter_rejects. cbn.
    pose proof (record_with_channels_placed s r Hr Hin) as Hp.
    unfold ScannerTable.is_target in *.
    destruct (ParsedUser.channels r) as [|c cs] eqn:Ec; cbn;
      destruct (ParsedUser.sourceType r) eqn:Et; cbn;
      destruct (Js.truthy (ParsedUser.discoveredFrom r)) eqn:Ed; cbn;
      try reflexivity;
      destruct Hp as [Hp|Hp]; congruence.
  - apply filter_length_mono. intros r Hin.
    unfold ScannerTable.row_shown, ScannerTable.filter_rejects. cbn.
    unfold ScannerTable.is_target.
    destruct (ParsedUser.channels r) as [|c cs]; cbn;
      destruct (ParsedUser.sourceType r); cbn;
      destruct (Js.truthy (ParsedUser.discoveredFrom r)); cbn;
      congruence.
  - apply filter_length_mono. intros r Hin.
    unfold ScannerTable.row_shown, ScannerTable.filter_rejects. cbn.
    unfold ScannerTable.is_target. intros H.
    apply andb_true_iff in H as [H1 H2].
    apply Z.ltb_lt in H2.
    assert (E : (ParsedUser.totalGiftsSent r =? 0) = false)
      by (apply Z.eqb_neq; lia).
    rewrite E. cbn.
    destruct (ParsedUser.channels r) as [|c cs]; cbn in *;
      destruct (ParsedUser.sourceType r); cbn in *; congruence.
  - apply filter_length_mono. intros r Hin.
    unfold ScannerTable.row_shown, ScannerTable.filter_rejects. cbn.
    unfold ScannerTable.is_target.
    destruct (ParsedUser.channels r) as [|c cs]; cbn;
      destruct (ParsedUser.sourceType r); cbn;
      destruct (Js.truthy (ParsedUser.discoveredFrom r)); cbn;
      congruence.
Qed.

Lemma counters_and_rows_witness :
  ScannerTable.targets (ScannerTable.stats (AppState.parsedUsers sample_scan))
  = List.length
      (ScannerTable.rows (fun t => t) "targets" ""
         (AppState.parsedUsers sample_scan)).
Proof.
  exact (proj1 (proj2 (counters_and_rows (fun t => t) sample_scan
                         sample_reachable))).
Defined.

(** ** The recipients dropdown *)

Lemma substring_all s : String.substring 0 (String.length s) s = s.
Proof. induction s as [|c s IH]; simpl; [reflexivity | now rewrite IH]. Qed.


Lemma In_set_of x l : In x (JsLib.set_of l) <-> In x l.
Proof.
  induction l as [|y l IH]; simpl; [tauto|].
  rewrite filter_In, IH. split.
  - intros [H|[H _]]; auto.
  - intros [H|H]; [now left|].
    destruct (String.eqb_spec x y) as [->|N]; [now left|right].
    now split.
Qed.

Lemma NoDup_set_of l : NoDup (JsLib.set_of l).
Proof.
  induction l as [|y l IH]; simpl; constructor.
  - rewrite filter_In. intros [_ H]. now rewrite String.eqb_refl in H.
  - now apply NoDup_filter.
Qed.







(** An emoji is a surrogate pair, whose first unit is below the one unit
    of a fullwidth letter, although its bytes are above. *)
Lemma sort_by_code_units :
  JsLib.code_units "😀" = [55357%N; 56832%N]
  /\ JsLib.code_units "Ａ" = [65313%N]
  /\ JsLib.sort ["Ａlice"; "😀mo"; "bob"] = ["bob"; "😀mo"; "Ａlice"].
Proof. repeat split. Qed.




(** ** The results panel *)

Lemma page_succ {A} p (l : list A) :
  ResultsPanel.paginatedUsers (S p) l
  = firstn 50 (skipn (p * 50) l).
Proof.
  unfold ResultsPanel.paginatedUsers, JsLib.slice,
    ResultsPanel.ITEMS_PER_PAGE.
  replace (S p - 1)%nat with p by lia.
  replace (S p * 50 - p * 50)%nat with 50%nat by lia.
  reflexivity.
Qed.

Lemma chunks_cover {A} T : forall (l : list A),
  (List.length l <= 50 * T)%nat ->
  List.concat (map (fun p => firstn 50 (skipn (p * 50) l)) (seq 0 T)) = l.
Proof.
  induction T as [|T IH]; intros l Hl.
  - destruct l; [reflexivity | simpl in Hl; lia].
  - cbn [seq map List.concat]. rewrite <- seq_shift, map_map.
    change (skipn (0 * 50) l) with l.
    transitivity (firstn 50 l ++ skipn 50 l)%list;
      [|apply firstn_skipn].
    f_equal.
    transitivity
      (List.concat
         (map (fun p => firstn 50 (skipn (p * 50) (skipn 50 l)))
            (seq 0 T))).
    + apply f_equal, map_ext. intros p.
      replace (S p * 50)%nat with (p * 50 + 50)%nat by lia.
      now rewrite skipn_skipn.
    + apply IH. rewrite length_skipn. lia.
Qed.

Lemma totalPages_bounds n :
  (n <= 50 * ResultsPanel.totalPages n)%nat
  /\ (50 * ResultsPanel.totalPages n < n + 50)%nat.
Proof.
  unfold ResultsPanel.totalPages, ResultsPanel.ITEMS_PER_PAGE.
  change (50 - 1)%nat with 49%nat.
  pose proof (Nat.div_mod_eq (n + 49) 50) as E.
  pose proof (Nat.mod_upper_bound (n + 49) 50 ltac:(lia)) as U.
  lia.
Qed.

(** X19.  The pages 1 to [totalPages] of the results panel, one after the
    other, are the whole list; no page holds more than 50 rows; and a page
    is non-empty exactly when its number lies between 1 and [totalPages],
    so a page number past the last page shows nothing. *)
Theorem pages_cover_the_list {A} (l : list A) :
  let total := ResultsPanel.totalPages (List.length l) in
  List.concat (map (fun p => ResultsPanel.paginatedUsers p l) (seq 1 total)) = l
  /\ (forall p, (List.length (ResultsPanel.paginatedUsers p l) <= 50)%nat)
  /\ (forall p, ResultsPanel.paginatedUsers p l <> []
                <-> (1 <= p <= total)%nat).
Proof.
  cbn zeta. destruct (totalPages_bounds (List.length l)) as [B1 B2].
  split; [|split].
  - rewrite <- seq_shift, map_map.
    rewrite (map_ext _ (fun p => firstn 50 (skipn (p * 50) l)))
      by (intros p; apply page_succ).
    now apply chunks_cover.
  - intros p. unfold ResultsPanel.paginatedUsers, JsLib.slice,
      ResultsPanel.ITEMS_PER_PAGE.
    rewrite length_firstn. lia.
  - intros p. destruct p as [|p].
    + split; [intros H; now contradiction H | lia].
    + rewrite page_succ.
      assert (E : List.length (firstn 50 (skipn (p * 50) l))
                  = Nat.min 50 (List.length l - p * 50)).
      { now rewrite length_firstn, length_skipn. }
      split.
      * intros H.
        destruct (firstn 50 (skipn (p * 50) l)) eqn:F; [congruence|].
        cbn [List.length] in E. lia.
      * intros H F. rewrite F in E. cbn [List.length] in E. lia.
Qed.

Lemma replace_prefix pat r :
  pat <> "" -> JsLib.replace pat "" (pat ++ r) = r.
Proof.
  intros Hp.
  assert (Hpre : forall p x, String.prefix p (p ++ x) = true).
  { induction p as [|c p IH]; intros x; simpl; [now destruct x|].
    destruct (ascii_dec c c); [apply IH | congruence]. }
  assert (Hsub : forall p x,
             String.substring (String.length p)
               (String.length (p ++ x) - String.length p) (p ++ x) = x).
  { induction p as [|c p IH]; intros x; simpl.
    - rewrite Nat.sub_0_r. apply substring_all.
    - apply IH. }
  destruct pat as [|c pat]; [congruence|].
  change (JsLib.replace (String c pat) "" (String c pat ++ r))
    with (if String.prefix (String c pat) (String c pat ++ r)
          then "" ++ String.substring (String.length (String c pat))
                 (String.length (String c pat ++ r)
                  - String.length (String c pat)) (String c pat ++ r)
          else String c (JsLib.replace (String c pat) "" (pat ++ r))).
  rewrite Hpre. simpl append at 1. apply Hsub.
Qed.

Lemma record_account s r :
  Reachable s -> In r (AppState.parsedUsers s) ->
  exists i, ParsedUser.id r = user_id_of i.
Proof.
  intros Hr Hin. pose proof (Reachable_inv s Hr) as Hs.
  assert (Hv : AppState.parsedUsers s
               = project (fst (working_maps s)) (snd (working_maps s))).
  { now destruct Hs as [_ [_ E]]. }
  rewrite Hv in Hin.
  destruct (project_record_node _ _ r (working_maps_ok s) Hin)
    as [n [Gn [Hch ->]]].
  rewrite record_for_id.
  destruct (Reachable_shape s Hr) as [Hc _].
  destruct (Forall_values_get _ _ _ _ Hc Gn) as [H|[clink ->]];
    [exact H | discriminate].
Qed.

(** X21.  In every state the store can reach, the id of a record is the
    node id of an account, and the numeric id that the common-groups
    request takes from it is the text of that account's id. *)
Theorem numeric_id_round_trip (s : AppState.t) (r : ParsedUser.t) :
  Reachable s ->
  In r (AppState.parsedUsers s) ->
  exists i, ParsedUser.id r = user_id_of i
            /\ ResultsPanel.numericId (ParsedUser.id r) = Js.str i.
Proof.
  intros Hr Hin. destruct (record_account s r Hr Hin) as [i E].
  exists i. split; [exact E|]. rewrite E.
  unfold ResultsPanel.numericId, user_id_of.
  now apply replace_prefix.
Qed.

Lemma numeric_id_round_trip_witness :
  exists i, ParsedUser.id sample_alice = user_id_of i
            /\ ResultsPanel.numericId (ParsedUser.id sample_alice)
               = Js.str i.
Proof.
  exact (numeric_id_round_trip sample_scan sample_alice sample_reachable
           (or_introl eq_refl)).
Defined.

Lemma NoDup_map_inj_in {A B} (f : A -> B) (l : list A) :
  (forall a b, In a l -> In b l -> f a = f b -> a = b) ->
  NoDup l -> NoDup (map f l).
Proof.
  intros Hf Hn. induction Hn as [|a l Hni _ IH]; simpl; constructor.
  - intros Hin. apply in_map_iff in Hin as [x [Hx Hin]].
    apply Hf in Hx; [now subst | now right | now left].
  - apply IH. intros x y Hx Hy. apply Hf; now right.
Qed.

Lemma channel_handle s r ch :
  Reachable s -> In r (AppState.parsedUsers s) ->
  In ch (ParsedUser.channels r) ->
  exists handle, ch = "@" ++ handle.
Proof.
  intros Hr Hin Hch.
  destruct (record_channels s r Hr Hin) as [_ [hs [E _]]].
  rewrite E in Hch. apply in_map_iff in Hch as [h [Eh _]].
  now exists h.
Qed.

(** X20.  In every state the store can reach, the lines exported to
    [channels.txt] are, without repetition, the addresses
    ["https://t.me/"] followed by a handle, for exactly the handles that
    some record lists as a channel. *)
Theorem exported_channel_lines (s : AppState.t) :
  Reachable s ->
  let lines := ResultsPanel.channel_lines (AppState.parsedUsers s) in
  NoDup lines
  /\ forall line,
       In line lines
       <-> exists handle r,
             line = "https://t.me/" ++ handle
             /\ In r (AppState.parsedUsers s)
             /\ In ("@" ++ handle) (ParsedUser.channels r).
Proof.
  intros Hr. cbn zeta.
  unfold ResultsPanel.channel_lines, ResultsPanel.allChannels.
  assert (Hh : forall ch,
             In ch (flat_map ParsedUser.channels (AppState.parsedUsers s)) ->
             exists handle, ch = "@" ++ handle).
  { intros ch H. apply in_flat_map in H as [r [Hin Hch]].
    now apply (channel_handle s r). }
  split.
  - apply NoDup_map_inj_in; [|apply NoDup_set_of].
    intros a b Ha Hb E.
    apply (proj1 (In_set_of _ _)) in Ha. apply (proj1 (In_set_of _ _)) in Hb.
    destruct (Hh a Ha) as [ha ->]. destruct (Hh b Hb) as [hb ->].
    rewrite !(replace_prefix "@") in E by discriminate.
    now injection E as ->.
  - intros line. rewrite in_map_iff. split.
    + intros [ch [E H]]. apply (proj1 (In_set_of _ _)) in H.
      destruct (Hh ch H) as [h ->].
      rewrite (replace_prefix "@") in E by discriminate.
      apply in_flat_map in H as [r [Hin Hch]].
      exists h, r. now split.
    + intros [h [r [E [Hin Hch]]]]. exists ("@" ++ h). split.
      * now rewrite (replace_prefix "@") by discriminate.
      * apply (proj2 (In_set_of _ _)). apply in_flat_map. now exists r.
Qed.

Lemma exported_channel_lines_witness :
  NoDup (ResultsPanel.channel_lines (AppState.parsedUsers sample_scan)).
Proof.
  exact (proj1 (exported_channel_lines sample_scan sample_reachable)).
Defined.

(** ** The drawn graph *)

Lemma nth_error_mutate f l : forall i j,
  nth_error (NetworkGraph.mutate i f l) j
  = if Nat.eqb i j then option_map f (nth_error l j) else nth_error l j.
Proof.
  induction l as [|n l IH]; intros i j; simpl.
  - destruct j; simpl; now destruct (Nat.eqb i _).
  - destruct i, j; simpl; try reflexivity. apply IH.
Qed.

Lemma Forall_mutate (P : NetworkGraph.AnalystNode -> Prop) f l :
  (forall n, P n -> P (f n)) ->
  forall i, Forall P l -> Forall P (NetworkGraph.mutate i f l).
Proof.
  intros Hf i H. revert i.
  induction H as [|n l Hn Hl IH]; intros i; simpl; [constructor|].
  destruct i; constructor; auto.
Qed.

Lemma degree_sum_mutate f d l :
  (forall n, NetworkGraph.degree (NetworkGraph.metrics (f n))
             = NetworkGraph.degree (NetworkGraph.metrics n) + d) ->
  forall i,
  degree_sum (NetworkGraph.mutate i f l)
  = degree_sum l + if (i <? List.length l)%nat then d else 0.
Proof.
  intros Hf. unfold degree_sum, sum_of.
  induction l as [|n l IH]; intros i; simpl; [lia|].
  destruct i; simpl.
  - rewrite Hf. lia.
  - rewrite IH. change (S i <? S (List.length l))%nat
      with (i <? List.length l)%nat. lia.
Qed.

Lemma connect_id x n :
  NetworkGraph.id (NetworkGraph.connect x n) = NetworkGraph.id n
  /\ NetworkGraph.saved (NetworkGraph.connect x n) = NetworkGraph.saved n
  /\ NetworkGraph.degree (NetworkGraph.metrics (NetworkGraph.connect x n))
     = NetworkGraph.degree (NetworkGraph.metrics n) + 0.
Proof.
  unfold NetworkGraph.connect.
  destruct (existsb _ _); simpl; repeat split; lia.
Qed.

Lemma refs_ok_mutate i f st :
  (forall n, NetworkGraph.id (f n) = NetworkGraph.id n) ->
  refs_ok st -> refs_ok (NetworkGraph.mutate_node i f st).
Proof.
  intros Hf H k j G. destruct (H k j G) as [n [E Hn]].
  simpl. rewrite nth_error_mutate, E.
  destruct (Nat.eqb i j); eexists; (split; [reflexivity|]);
    [now rewrite Hf | exact Hn].
Qed.

Lemma build_inv_add positions ids st node :
  NetworkGraph.degree (NetworkGraph.metrics node) = 0 ->
  NetworkGraph.saved node = JsMap.get (NetworkGraph.id node) positions ->
  build_inv positions ids st ->
  build_inv positions ids (NetworkGraph.add_node st node)
  /\ JsMap.has (NetworkGraph.id node)
       (NetworkGraph.nodeMap (NetworkGraph.add_node st node)) = true.
Proof.
  intros Hd Hp [Hr [Hc [Hb [Hs Hi]]]].
  assert (Hm : forall k, JsMap.has k (NetworkGraph.nodeMap st) = true ->
                 JsMap.has k (NetworkGraph.nodeMap
                                (NetworkGraph.add_node st node)) = true).
  { intros k. simpl. apply has_set_mono. }
  split; [|simpl; now rewrite has_set, String.eqb_refl].
  split; [|split; [|split; [|split]]].
  - intros k i G. simpl in *. rewrite get_set in G.
    destruct (String.eqb k (NetworkGraph.id node)) eqn:E.
    + injection G as <-. apply String.eqb_eq in E. exists node.
      split; [|now symmetry].
      rewrite nth_error_app2 by lia. now rewrite Nat.sub_diag.
    + destruct (Hr k i G) as [n [En Hn]]. exists n. split; [|exact Hn].
      rewrite nth_error_app1; [exact En|].
      apply nth_error_Some. congruence.
  - eapply Forall_impl; [|exact Hc]. intros l [H1 H2]. split; now apply Hm.
  - simpl. unfold degree_sum in *. rewrite sum_of_app, Hb.
    unfold sum_of. simpl. lia.
  - simpl. apply Forall_app. split; [exact Hs|]. now repeat constructor.
  - eapply Forall_impl; [|exact Hi]. intros k. apply Hm.
Qed.

Lemma build_inv_tie positions ids st l a x b y :
  JsMap.get (NetworkGraph.source l) (NetworkGraph.nodeMap st) <> None ->
  JsMap.get (NetworkGraph.target l) (NetworkGraph.nodeMap st) <> None ->
  (a < List.length (NetworkGraph.nodes st))%nat ->
  (b < List.length (NetworkGraph.nodes st))%nat ->
  build_inv positions ids st ->
  build_inv positions ids (NetworkGraph.tie l a x b y st).
Proof.
  intros Hs Ht Ha Hb [Hr [Hc [Hd [Hp Hi]]]].
  unfold NetworkGraph.tie.
  split; [|split; [|split; [|split]]].
  - repeat apply refs_ok_mutate; try reflexivity;
      try (intros n; apply connect_id).
    exact Hr.
  - unfold links_closed. simpl. apply Forall_app. split; [exact Hc|].
    constructor; [|constructor]. unfold JsMap.has.
    destruct (JsMap.get (NetworkGraph.source l) _); [|congruence].
    destruct (JsMap.get (NetworkGraph.target l) _); [|congruence].
    now split.
  - cbn [NetworkGraph.nodes NetworkGraph.links NetworkGraph.mutate_node].
    rewrite (degree_sum_mutate NetworkGraph.bump 1) by reflexivity.
    rewrite (degree_sum_mutate NetworkGraph.bump 1) by reflexivity.
    rewrite (degree_sum_mutate (NetworkGraph.connect y) 0)
      by (intros n; apply connect_id).
    rewrite (degree_sum_mutate (NetworkGraph.connect x) 0)
      by (intros n; apply connect_id).
    assert (Hl : forall i f l0,
               List.length (NetworkGraph.mutate i f l0) = List.length l0).
    { intros i f l0. revert i.
      induction l0 as [|n l0 IH]; intros i; simpl; [reflexivity|].
      destruct i; simpl; [reflexivity | now rewrite IH]. }
    rewrite !Hl, Hd, length_app. cbn [List.length].
    apply Nat.ltb_lt in Ha, Hb. rewrite Ha, Hb. lia.
  - simpl. unfold restored.
    repeat apply Forall_mutate; try exact Hp; intros n Hn; simpl;
      try exact Hn.
    + destruct (connect_id y n) as [-> [-> _]]. exact Hn.
    + destruct (connect_id x n) as [-> [-> _]]. exact Hn.
  - exact Hi.
Qed.

Lemma ref_bound st k i :
  refs_ok st -> JsMap.get k (NetworkGraph.nodeMap st) = Some i ->
  (i < List.length (NetworkGraph.nodes st))%nat.
Proof.
  intros Hr G. destruct (Hr k i G) as [n [E _]].
  apply nth_error_Some. congruence.
Qed.

Lemma join_channel_ok positions ids u o ch :
  In (ParsedUser.id u) ids ->
  build_ok positions ids o ->
  build_ok positions ids (NetworkGraph.join_channel positions u o ch).
Proof.
  intros Hu [st [-> Hst]]. unfold NetworkGraph.join_channel.
  set (cid := "c_" ++ ch).
  set (st1 := if negb (JsMap.has cid (NetworkGraph.nodeMap st))
              then NetworkGraph.add_node st
                     (NetworkGraph.channel_node positions cid ch)
              else st).
  assert (H1 : build_inv positions ids st1
               /\ JsMap.has cid (NetworkGraph.nodeMap st1) = true).
  { unfold st1. destruct (JsMap.has cid (NetworkGraph.nodeMap st)) eqn:E;
      simpl; [now split|].
    apply (build_inv_add positions ids st
             (NetworkGraph.channel_node positions cid ch));
      [reflexivity | reflexivity | exact Hst]. }
  destruct H1 as [Hinv Hc].
  assert (Hh : JsMap.has (ParsedUser.id u) (NetworkGraph.nodeMap st1)
               = true).
  { destruct Hinv as [_ [_ [_ [_ Hi]]]].
    rewrite Forall_forall in Hi. now apply Hi. }
  apply has_get in Hc as [c Gc]. apply has_get in Hh as [i Gi].
  rewrite Gc, Gi. eexists. split; [reflexivity|].
  apply build_inv_tie; simpl; try congruence; try exact Hinv;
    eapply ref_bound; eauto; apply Hinv.
Qed.

Lemma send_gift_ok positions ids sender o gift :
  In (ParsedUser.id sender) ids ->
  build_ok positions ids o ->
  build_ok positions ids (NetworkGraph.send_gift ids sender o gift).
Proof.
  intros Hu [st [-> Hst]]. unfold NetworkGraph.send_gift.
  destruct (existsb (String.eqb (GiftRef.userId gift)) ids) eqn:E;
    [|now exists st].
  apply existsb_exists in E as [k [Hk Ek]]. apply String.eqb_eq in Ek.
  subst k.
  assert (Hi : forall k, In k ids ->
                 JsMap.has k (NetworkGraph.nodeMap st) = true).
  { destruct Hst as [_ [_ [_ [_ Hi]]]]. now apply Forall_forall. }
  destruct (has_get _ _ (Hi _ Hu)) as [a Ga].
  destruct (has_get _ _ (Hi _ Hk)) as [b Gb].
  rewrite Ga, Gb. eexists. split; [reflexivity|].
  apply build_inv_tie; simpl; try congruence; try exact Hst;
    eapply ref_bound; eauto; apply Hst.
Qed.

Lemma fold_left_inv_in {A B} (P : A -> Prop) (f : A -> B -> A) l :
  forall a, (forall a b, In b l -> P a -> P (f a b)) -> P a ->
  P (fold_left f l a).
Proof.
  induction l as [|b l IH]; intros a Hf Ha; simpl; [exact Ha|].
  apply IH; [|apply Hf; [now left | exact Ha]].
  intros a' b' Hb. apply Hf. now right.
Qed.

Lemma first_pass_ok positions (users : list ParsedUser.t) :
  let st := fold_left
              (fun st u =>
                 NetworkGraph.add_node st (NetworkGraph.user_node positions u))
              users (NetworkGraph.mkBuild [] [] []) in
  build_inv positions (map ParsedUser.id users) st.
Proof.
  cbn zeta.
  assert (H : forall l st ids,
             build_inv positions ids st ->
             build_inv positions (ids ++ map ParsedUser.id l)
               (fold_left
                  (fun st u =>
                     NetworkGraph.add_node st
                       (NetworkGraph.user_node positions u)) l st)).
  { induction l as [|u l IH]; intros st ids Hst; simpl.
    - now rewrite app_nil_r.
    - replace (ids ++ ParsedUser.id u :: map ParsedUser.id l)%list
        with ((ids ++ [ParsedUser.id u]) ++ map ParsedUser.id l)%list
        by now rewrite <- app_assoc.
      apply IH.
      destruct (build_inv_add positions ids st
                  (NetworkGraph.user_node positions u)
                  eq_refl eq_refl Hst) as [[H1 [H2 [H3 [H4 H5]]]] H6].
      repeat split; try assumption.
      apply Forall_app. split; [exact H5|]. now repeat constructor. }
  apply (H users (NetworkGraph.mkBuild [] [] []) []).
  repeat split; try constructor. intros k i G. discriminate.
Qed.

Lemma processedData_ok positions parsedUsers :
  exists st,
    NetworkGraph.processedData positions parsedUsers
    = Some (NetworkGraph.nodes st, NetworkGraph.links st)
    /\ build_inv positions
         (map ParsedUser.id (NetworkGraph.validUsers parsedUsers)) st.
Proof.
  unfold NetworkGraph.processedData.
  set (users := NetworkGraph.validUsers parsedUsers).
  set (ids := map ParsedUser.id users).
  pose proof (first_pass_ok positions users) as H1. cbn zeta in H1.
  fold ids in H1.
  set (st1 := fold_left _ users (NetworkGraph.mkBuild [] [] [])) in *.
  assert (H2 : build_ok positions ids
                 (fold_left
                    (fun st u =>
                       fold_left (NetworkGraph.join_channel positions u)
                         (ParsedUser.channels u) st) users (Some st1))).
  { apply fold_left_inv_in; [|now exists st1].
    intros o u Hu Ho. apply fold_left_inv; [|exact Ho].
    intros o' ch. apply join_channel_ok. now apply in_map. }
  set (o2 := fold_left _ users (Some st1)) in *.
  assert (H3 : build_ok positions ids
                 (fold_left
                    (fun st sender =>
                       fold_left (NetworkGraph.send_gift ids sender)
                         (ParsedUser.giftsSentTo sender) st) users o2)).
  { apply fold_left_inv_in; [|exact H2].
    intros o u Hu Ho. apply fold_left_inv; [|exact Ho].
    intros o' g. apply send_gift_ok. now apply in_map. }
  destruct H3 as [st [E Hst]]. exists st. rewrite E. now split.
Qed.

Lemma ref_node st k :
  refs_ok st -> JsMap.has k (NetworkGraph.nodeMap st) = true ->
  In k (map NetworkGraph.id (NetworkGraph.nodes st)).
Proof.
  intros Hr Hk. apply has_get in Hk as [i G].
  destruct (Hr k i G) as [n [E <-]]. apply in_map.
  eapply nth_error_In. exact E.
Qed.

(** X22.  For every view and every saved layout, building the drawn graph
    does not fail, and both ends of every link it draws are ids of nodes it
    draws. *)
Theorem drawn_graph_is_closed
  (networkNodePositions : JsMap.t NetworkGraph.Position)
  (parsedUsers : list ParsedUser.t) :
  exists nodes links,
    NetworkGraph.processedData networkNodePositions parsedUsers
    = Some (nodes, links)
    /\ forall l, In l links ->
         In (NetworkGraph.source l) (map NetworkGraph.id nodes)
         /\ In (NetworkGraph.target l) (map NetworkGraph.id nodes).
Proof.
  destruct (processedData_ok networkNodePositions parsedUsers)
    as [st [E [Hr [Hc _]]]].
  exists (NetworkGraph.nodes st), (NetworkGraph.links st).
  split; [exact E|]. intros l Hl.
  unfold links_closed in Hc. rewrite Forall_forall in Hc.
  destruct (Hc l Hl) as [H1 H2]. split; now apply ref_node.
Qed.

(** X23.  For every view and every saved layout, the degrees of the drawn
    nodes add up to twice the number of drawn links. *)
Theorem degrees_count_link_ends
  (networkNodePositions : JsMap.t NetworkGraph.Position)
  (parsedUsers : list ParsedUser.t) :
  exists nodes links,
    NetworkGraph.processedData networkNodePositions parsedUsers
    = Some (nodes, links)
    /\ sum_of (fun n => NetworkGraph.degree (NetworkGraph.metrics n)) nodes
       = 2 * Z.of_nat (List.length links).
Proof.
  destruct (processedData_ok networkNodePositions parsedUsers)
    as [st [E [_ [_ [Hd _]]]]].
  exists (NetworkGraph.nodes st), (NetworkGraph.links st).
  split; [exact E | exact Hd].
Qed.

Lemma map_id_mutate i f l :
  (forall n, NetworkGraph.id (f n) = NetworkGraph.id n) ->
  map NetworkGraph.id (NetworkGraph.mutate i f l) = map NetworkGraph.id l.
Proof.
  intros Hf. revert i. induction l as [|n l IH]; intros i; simpl;
    [reflexivity|].
  destruct i; simpl; [now rewrite Hf | now rewrite IH].
Qed.

Lemma fresh_mutate i f st :
  (forall n, NetworkGraph.id (f n) = NetworkGraph.id n) ->
  fresh st -> fresh (NetworkGraph.mutate_node i f st).
Proof.
  intros Hf [H1 H2]. split; simpl.
  - now rewrite map_id_mutate.
  - apply Forall_mutate; [|exact H2]. intros n. now rewrite Hf.
Qed.

Lemma fresh_tie l a x b y st :
  fresh st -> fresh (NetworkGraph.tie l a x b y st).
Proof.
  intros H. unfold NetworkGraph.tie.
  repeat apply fresh_mutate; try reflexivity;
    try (intros n; apply connect_id).
  exact H.
Qed.

Lemma fresh_add st node :
  JsMap.has (NetworkGraph.id node) (NetworkGraph.nodeMap st) = false ->
  fresh st -> fresh (NetworkGraph.add_node st node).
Proof.
  intros Hn [H1 H2]. split; simpl.
  - rewrite map_app. simpl. apply NoDup_app; [exact H1 | | ].
    + repeat constructor. intros [].
    + intros k Hk [<-|[]].
      apply in_map_iff in Hk as [n [E Hin]].
      rewrite Forall_forall in H2. specialize (H2 n Hin).
      rewrite E in H2. congruence.
  - apply Forall_app. split.
    + eapply Forall_impl; [|exact H2]. intros n. apply has_set_mono.
    + repeat constructor. simpl. now rewrite has_set, String.eqb_refl.
Qed.

Lemma join_channel_fresh positions u o ch :
  fresh_if_built o ->
  fresh_if_built (NetworkGraph.join_channel positions u o ch).
Proof.
  intros H st' E. destruct o as [st|]; [|discriminate].
  specialize (H st eq_refl). unfold NetworkGraph.join_channel in E.
  destruct (JsMap.has ("c_" ++ ch) (NetworkGraph.nodeMap st)) eqn:Hc;
    cbn [negb] in E.
  - destruct (JsMap.get ("c_" ++ ch) (NetworkGraph.nodeMap st));
      [|discriminate].
    destruct (JsMap.get (ParsedUser.id u) (NetworkGraph.nodeMap st));
      [|discriminate].
    injection E as <-. now apply fresh_tie.
  - destruct (JsMap.get ("c_" ++ ch) _); [|discriminate].
    destruct (JsMap.get (ParsedUser.id u) _); [|discriminate].
    injection E as <-. apply fresh_tie. now apply fresh_add.
Qed.

Lemma send_gift_fresh ids sender o gift :
  fresh_if_built o ->
  fresh_if_built (NetworkGraph.send_gift ids sender o gift).
Proof.
  intros H st' E. destruct o as [st|]; [|discriminate].
  specialize (H st eq_refl). unfold NetworkGraph.send_gift in E.
  destruct (existsb _ ids); [|now injection E as <-].
  destruct (JsMap.get (ParsedUser.id sender) _); [|discriminate].
  destruct (JsMap.get (GiftRef.userId gift) _); [|discriminate].
  injection E as <-. now apply fresh_tie.
Qed.

Lemma first_pass_fresh positions (users : list ParsedUser.t) :
  NoDup (map ParsedUser.id users) ->
  fresh (fold_left
           (fun st u =>
              NetworkGraph.add_node st (NetworkGraph.user_node positions u))
           users (NetworkGraph.mkBuild [] [] [])).
Proof.
  intros Hn.
  assert (H : forall l st,
             NoDup (map NetworkGraph.id (NetworkGraph.nodes st)
                    ++ map ParsedUser.id l) ->
             (forall k, JsMap.has k (NetworkGraph.nodeMap st) = true ->
                In k (map NetworkGraph.id (NetworkGraph.nodes st))) ->
             fresh st ->
             fresh (fold_left
                      (fun st u =>
                         NetworkGraph.add_node st
                           (NetworkGraph.user_node positions u)) l st)).
  { induction l as [|u l IH]; intros st Hd Hk Hf; simpl; [exact Hf|].
    assert (Hu : JsMap.has (ParsedUser.id u) (NetworkGraph.nodeMap st)
                 = false).
    { destruct (JsMap.has (ParsedUser.id u) (NetworkGraph.nodeMap st))
        eqn:E; [|reflexivity].
      apply Hk in E. simpl in Hd.
      apply NoDup_remove_2 in Hd. exfalso. apply Hd.
      apply in_or_app. now left. }
    apply IH.
    - simpl. rewrite map_app. simpl. rewrite <- app_assoc. exact Hd.
    - intros k. simpl. rewrite has_set, map_app.
      destruct (String.eqb_spec k (ParsedUser.id u)) as [->|N].
      + intros _. apply in_or_app. right. now left.
      + intros E. apply in_or_app. left. now apply Hk.
    - now apply fresh_add. }
  apply H; simpl.
  - exact Hn.
  - intros k E. discriminate.
  - split; constructor.
Qed.

Lemma processedData_fresh positions parsedUsers nodes links :
  NoDup (map ParsedUser.id parsedUsers) ->
  NetworkGraph.processedData positions parsedUsers = Some (nodes, links) ->
  NoDup (map NetworkGraph.id nodes).
Proof.
  intros Hn E. unfold NetworkGraph.processedData in E.
  set (users := NetworkGraph.validUsers parsedUsers) in *.
  assert (H1 : fresh_if_built
                 (Some (fold_left
                          (fun st u =>
                             NetworkGraph.add_node st
                               (NetworkGraph.user_node positions u))
                          users (NetworkGraph.mkBuild [] [] [])))).
  { intros st E0. injection E0 as <-. apply first_pass_fresh.
    unfold users, NetworkGraph.validUsers. now apply NoDup_map_filter. }
  set (o1 := Some _) in *.
  assert (H2 : fresh_if_built
                 (fold_left
                    (fun st u =>
                       fold_left (NetworkGraph.join_channel positions u)
                         (ParsedUser.channels u) st) users o1)).
  { apply fold_left_inv; [|exact H1].
    intros o u Ho. apply fold_left_inv; [|exact Ho].
    intros o' ch. apply join_channel_fresh. }
  set (o2 := fold_left _ users o1) in *.
  assert (H3 : fresh_if_built
                 (fold_left
                    (fun st sender =>
                       fold_left
                         (NetworkGraph.send_gift (map ParsedUser.id users)
                            sender)
                         (ParsedUser.giftsSentTo sender) st) users o2)).
  { apply fold_left_inv; [|exact H2].
    intros o u Ho. apply fold_left_inv; [|exact Ho].
    intros o' g. apply send_gift_fresh. }
  destruct (fold_left _ users o2) as [st|]; [|discriminate].
  injection E as <- <-. now destruct (H3 st eq_refl).
Qed.

(** X24.  In every state the store can reach, no two nodes of the drawn
    graph share an id. *)
Theorem drawn_graph_has_one_node_per_id
  (networkNodePositions : JsMap.t NetworkGraph.Position)
  (s : AppState.t) :
  Reachable s ->
  exists nodes links,
    NetworkGraph.processedData networkNodePositions (AppState.parsedUsers s)
    = Some (nodes, links)
    /\ NoDup (map NetworkGraph.id nodes).
Proof.
  intros Hr.
  destruct (processedData_ok networkNodePositions (AppState.parsedUsers s))
    as [st [E _]].
  exists (NetworkGraph.nodes st), (NetworkGraph.links st).
  split; [exact E|].
  eapply processedData_fresh; [|exact E].
  pose proof (Reachable_inv s Hr) as Hs.
  rewrite (state_view s Hs), map_map.
  rewrite (map_ext _ GraphNode.id) by (intros n; apply record_for_id).
  apply NoDup_map_filter.
  destruct (state_graph s Hs) as [-> _].
  destruct Hs as [[[[[Kn Nn] _] _] _] _].
  rewrite <- (keyed_keys _ _ Kn). exact Nn.
Qed.

Lemma drawn_graph_has_one_node_per_id_witness :
  exists nodes links,
    NetworkGraph.processedData [] (AppState.parsedUsers sample_scan)
    = Some (nodes, links)
    /\ NoDup (map NetworkGraph.id nodes).
Proof.
  exact (drawn_graph_has_one_node_per_id [] sample_scan sample_reachable).
Defined.

(** ** Gift events, entry by entry *)

Lemma observe_gift_count_at tid ru maps g i t :
  graph_inv maps ->
  count_at (link_key (user_id_of i) t) (snd (observe_gift tid ru maps g))
  = count_at (link_key (user_id_of i) t) (snd maps)
    + if names_sender (user_id_of i) g && String.eqb t tid then 1 else 0.
Proof.
  destruct maps as [nm lm]. intros [_ Hf]. cbn [fst snd] in *.
  unfold observe_gift, names_sender, count_at.
  destruct (Js.truthy_num (Gift.sender_id g)); cbn [negb andb snd]; [|lia].
  set (src := user_id_of (Gift.sender_id g)).
  destruct (String.eqb_spec src (user_id_of i)) as [E|N]; cbn [andb].
  - destruct (String.eqb_spec t tid) as [->|Nt].
    + rewrite <- E.
      destruct (JsMap.get (link_key src tid) lm) as [l|] eqn:G;
        rewrite get_set_eq; unfold link_count;
        cbn [GraphLink.value Js.num_or]; [|reflexivity].
      destruct (Forall_values_get _ _ _ _ Hf G) as [_ [[v [Hv Hv1]] _]].
      rewrite Hv. cbn [Js.num_or].
      assert (H0 : (v =? 0) = false) by lia. rewrite H0.
      assert (H1 : (v + 1 =? 0) = false) by lia. now rewrite H1.
    + assert (Nk : link_key (user_id_of i) t <> link_key src tid).
      { intros K. unfold src in K. apply link_key_inj in K as [_ K].
        contradiction. }
      destruct (JsMap.get (link_key src tid) lm);
        rewrite get_set_neq by exact Nk; lia.
  - assert (Nk : link_key (user_id_of i) t <> link_key src tid).
    { intros K. unfold src in K. apply link_key_inj in K as [K _].
      unfold src in N. congruence. }
    destruct (JsMap.get (link_key src tid) lm);
      rewrite get_set_neq by exact Nk; lia.
Qed.

Lemma observe_gifts_count_at tid ru i t gifts : forall maps,
  graph_inv maps ->
  count_at (link_key (user_id_of i) t)
    (snd (fold_left (observe_gift tid ru) gifts maps))
  = count_at (link_key (user_id_of i) t) (snd maps)
    + if String.eqb t tid
      then Z.of_nat (List.length
                       (filter (names_sender (user_id_of i)) gifts))
      else 0.
Proof.
  induction gifts as [|g gifts IH]; intros maps Hm; simpl.
  - destruct (String.eqb t tid); lia.
  - rewrite IH by now apply observe_gift_inv.
    rewrite observe_gift_count_at by exact Hm.
    destruct (names_sender (user_id_of i) g), (String.eqb t tid);
      cbn [andb List.length]; lia.
Qed.

Lemma weight_count_at s i t :
  state_inv s ->
  weight s (user_id_of i) t
  = count_at (link_key (user_id_of i) t) (snd (working_maps s)).
Proof. intros Hs. now rewrite weight_key. Qed.

(** X3.  In every state the store can reach, a gift event adds to
    the count recorded from a sender's node to a target exactly the number
    of its entries that name that sender, when the target is the event's
    recipient, and leaves the count to every other target as it was.
    Entries whose sender id is missing or 0 name nobody. *)
Theorem gift_event_counts_its_entries (s : AppState.t) (d : GiftsData.t)
  (i : Js.num) (t : string) :
  Reachable s ->
  let s' := processScanUpdate (user_gifts d) s in
  let src := user_id_of i in
  weight s' src t
  = weight s src t
    + if String.eqb t (user_id_of (GiftsData.user_id d))
      then Z.of_nat (List.length
                       (filter (names_sender src) (GiftsData.gifts d)))
      else 0.
Proof.
  intros Hr s' src.
  pose proof (Reachable_inv s Hr) as Hs.
  pose proof (Reachable_inv _ (reach_update (user_gifts d) s Hr)) as Hs'.
  unfold src, s'.
  rewrite (weight_count_at _ i t Hs'), (weight_count_at s i t Hs).
  rewrite working_maps_process by discriminate.
  apply observe_gifts_count_at. now destruct Hs as [[Hg _] _].
Qed.

Lemma gift_event_counts_its_entries_witness :
  weight (processScanUpdate gift_2_to_1 sample_scan) "u_2" "u_1"
  = weight sample_scan "u_2" "u_1" + 1.
Proof.
  exact (gift_event_counts_its_entries sample_scan
           (GiftsData.mk (Js.number 1) [Gift.mk (Js.number 2)] None)
           (Js.number 2) "u_1" sample_reachable).
Defined.

(** ** Accounts of the channel type *)

Lemma observe_account_group data nm :
  UserData.type data = Some "channel" ->
  exists n,
    JsMap.get (user_id_of (UserData.id data)) (observe_account data nm)
    = Some n
    /\ GraphNode.group n = "channel".
Proof.
  intros Ht. unfold observe_account.
  destruct (JsMap.get _ nm) as [n0|].
  - exists (merge_existing data n0). split; [apply get_set_eq|].
    rewrite merge_existing_group, Ht. reflexivity.
  - exists (new_account data). split; [apply get_set_eq|].
    unfold new_account. simpl. now rewrite Ht.
Qed.

(** X7.  From any state, after an account-observed event whose type is
    ["channel"], the account's node is in the graph with the channel group
    and the view has no record for it. *)
Theorem channel_typed_account_is_hidden (s : AppState.t)
  (data : UserData.t) (u : Update) :
  UserData.type data = Some "channel" ->
  u = user_found data \/ u = user_detail data ->
  let s' := processScanUpdate u s in
  let k := user_id_of (UserData.id data) in
  (exists n, node_of s' k = Some n /\ GraphNode.group n = "channel")
  /\ record_of s' k = None.
Proof.
  intros Ht Hu s' k.
  assert (Hn : forall m, u <> log m).
  { intros m. destruct Hu as [-> | ->]; discriminate. }
  destruct (observe_account_group data (fst (working_maps s)) Ht)
    as [n [G Hg]].
  assert (G' : JsMap.get k (fst (apply_update u (working_maps s)))
               = Some n).
  { destruct Hu as [-> | ->]; simpl; [exact G|].
    destruct (UserData.channel_links data); [|exact G].
    now apply link_channels_get_node. }
  assert (Hnode : node_of s' k = Some n).
  { unfold s'. now rewrite node_of_process. }
  split; [now exists n|].
  unfold record_of, s'. rewrite parsedUsers_process by exact Hn.
  rewrite find_record by apply working_maps_ok.
  rewrite working_maps_process by exact Hn.
  rewrite G'. unfold is_channel. now rewrite Hg.
Qed.

Lemma channel_typed_account_is_hidden_witness :
  record_of (processScanUpdate (user_found channel_typed) sample_scan) "u_7"
  = None.
Proof.
  exact (proj2 (channel_typed_account_is_hidden sample_scan channel_typed
                  (user_found channel_typed) eq_refl (or_introl eq_refl))).
Defined.

(** ** A new scan *)

Lemma process_same_scan u a b :
  same_scan a b -> same_scan (processScanUpdate u a) (processScanUpdate u b).
Proof.
  intros [Hg [Hp [Hl Hu]]]. unfold same_scan, processScanUpdate.
  destruct u; cbn; rewrite ?Hg, ?Hp, ?Hl, ?Hu;
    try (repeat split; reflexivity);
    repeat break_if; repeat split; reflexivity.
Qed.

(** X13.  After [startScan], the graph, the view and the log that a run of
    updates builds do not depend on the state the scan was started in. *)
Theorem new_scan_forgets_the_old (s1 s2 : AppState.t) (us : list Update) :
  let a := processAll us (startScan s1) in
  let b := processAll us (startScan s2) in
  AppState.graphData a = AppState.graphData b
  /\ AppState.parsedUsers a = AppState.parsedUsers b
  /\ AppState.logs a = AppState.logs b.
Proof.
  cbn zeta.
  assert (H : forall x y, same_scan x y ->
                same_scan (processAll us x) (processAll us y)).
  { unfold processAll. induction us as [|u us IH]; intros x y Hxy; simpl;
      [exact Hxy|].
    apply IH. now apply process_same_scan. }
  destruct (H (startScan s1) (startScan s2)) as [Hg [Hp [Hl _]]].
  - repeat split.
  - auto.
Qed.
